(** * AI request orchestration: a shallow embedding of the dispatch and
      resilience layer

    The development follows the TypeScript sources module by module:

    - [AIErrors]                 : aiErrors.ts (error taxonomy, retry policy)
    - [JSMap]                    : the JavaScript [Map], in insertion order
    - [JSNumber]                 : the JavaScript [number], IEEE 754 binary64
    - [ModelConfigurationService]: aiService.ts, the model configuration
                                   registry
    - [AIServiceManager]         : contextProvider.ts, the service facade
                                   (retry wrapper, switchModel,
                                   getCodeCompletion)
    - [AIWorkflows]              : aiInlineCompletions.ts,
                                   executeConversationFlow
    - [JSString], [JSON]         : strings of UTF-16 code units and
                                   [JSON.parse], for the stream of a local
                                   model
    - [LocalModelService]        : localModelService.ts, the streaming
                                   adapter for local models
    - [MemoryVectorStore]        : the in-memory vector store (search,
                                   similaritySearch, hybridSearch,
                                   cosineSimilarity)
    - [AIServiceRequests]        : contextProvider.ts, continued (chat,
                                   refactoring and analysis requests,
                                   providers, conversations)
    - [ModelConnectionTest]      : aiService.ts, continued (the connection
                                   test of a configuration, runs of the
                                   four mutations)
    - [AIServiceWorkflows]       : aiInlineCompletions.ts, continued (the
                                   human-in-the-loop and batch workflows,
                                   clearConversationMemory)
    - [VectorStoreDocuments]     : the in-memory vector store, continued
                                   (documents, recommendations)

    They are followed by the inputs and predicates that the statements use
    ([RetrySamples] to [HybridSamples], [NumberOrder], [RequestSamples] to
    [StoreSamples]) and by one module of facts for each part of the code
    ([RetryFacts] to [HybridFacts], [RetryMoreFacts] to
    [VectorStoreFacts]).

    Asynchronous functions are modelled by their sequential behaviour: the
    host is single threaded and every statement below concerns one call (or
    a sequence of calls that are awaited one after the other).  External
    collaborators (provider calls, the context provider, the connectivity
    probe, the cancellation token, the transport of a stream) are inputs of
    the model: a function from the index of the call to its outcome, how an
    awaited call settles, or the list of chunks that the transport
    delivers.  Events and sleeps are recorded in a trace.
    Storage, the secret store and event listeners are taken not to throw.

    A configuration or a search result is a value here, where the source
    has an object: a caller is taken not to change an object after it has
    handed it over, so that each entry of a map is an object of its own,
    and the changes that the source makes in place ([cfg.isDefault = ...]
    on every entry, [push] on an array of the conversation memory) are
    written back to the map where they happen. *)

From Stdlib Require Import ZArith List String Ascii Bool Lia Arith.
From Stdlib Require Import SpecFloat Reals Lra Sorted Permutation.
Import ListNotations.

Local Open Scope string_scope.
Local Open Scope list_scope.

(** ** Completion of a promise *)

Inductive Settled (E A : Type) : Type :=
| Fulfilled (v : A)
| Rejected (e : E).
Arguments Fulfilled {E A} v.
Arguments Rejected {E A} e.

(* ================================================================== *)
(** * aiErrors.ts *)
(* ================================================================== *)

Module AIErrors.

Inductive AIErrorCode : Type :=
| CONNECTION_FAILED | TIMEOUT | NETWORK_ERROR
| INVALID_API_KEY | AUTHENTICATION_FAILED | AUTHORIZATION_FAILED
| MODEL_NOT_FOUND | MODEL_UNAVAILABLE | MODEL_OVERLOADED
| INVALID_REQUEST | CONTEXT_TOO_LARGE | RATE_LIMITED | QUOTA_EXCEEDED
| INVALID_RESPONSE | PARSING_ERROR | INCOMPLETE_RESPONSE
| SERVICE_UNAVAILABLE | CONFIGURATION_ERROR | INTERNAL_ERROR
| REASONING_FAILED | ACTION_FAILED | RAG_SEARCH_FAILED | EMBEDDING_FAILED.

(** A thrown value that is not an [AIError]: the two properties the
    classifier reads, [code] and [message], each possibly absent. *)
Record RawError : Type := mkRawError {
  raw_code : option string;
  raw_message : option string
}.

(** The [details?: any] payload of an error. *)
Inductive Details : Type :=
| NoDetails
| DetailsOfError (r : RawError)
| DetailsFields (fields : list (string * string)).

(** [class AIError]; [retryAfter] is a number of milliseconds, taken here
    as an integer, [None] when the constructor argument is omitted.  The
    program sets it to 5000, 1000 or 2000, or passes on what the caller of
    [rateLimited] gives; a [retryAfter] that is not a whole number is not
    in the model, and the statements about delays are about whole
    numbers. *)
Record AIError : Type := mkAIError {
  code : AIErrorCode;
  message : string;
  details : Details;
  retryable : bool;
  retryAfter : option Z
}.

(** Anything a JavaScript [throw] can carry as far as this layer
    distinguishes: an [AIError], another object, or null/undefined. *)
Inductive Thrown : Type :=
| ThrownAIError (e : AIError)
| ThrownObject (r : RawError)
| ThrownNullish.

Definition connectionFailed (d : Details) : AIError :=
  mkAIError CONNECTION_FAILED "Failed to connect to AI service" d true (Some 5000%Z).

Definition timeout (d : Details) : AIError :=
  mkAIError TIMEOUT "Request timed out" d true (Some 1000%Z).

Definition invalidApiKey : AIError :=
  mkAIError INVALID_API_KEY "Invalid API key provided" NoDetails false None.

Definition modelNotFound (modelId : string) : AIError :=
  mkAIError MODEL_NOT_FOUND ("Model '" ++ modelId ++ "' not found")
            (DetailsFields [("modelId", modelId)]) false None.

Definition rateLimited (after : option Z) : AIError :=
  mkAIError RATE_LIMITED "Rate limit exceeded" NoDetails true after.

Definition invalidResponse (d : Details) : AIError :=
  mkAIError INVALID_RESPONSE "Invalid response from AI service" d true (Some 1000%Z).

(** [new AIError(code, message)], with the constructor's defaults
    [retryable = false] and no [retryAfter]. *)
Definition newAIError (c : AIErrorCode) (msg : string) : AIError :=
  mkAIError c msg NoDetails false None.

(** *** DefaultErrorHandler *)

Definition shouldRetry (error : AIError) : bool := retryable error.

(** [error.retryAfter || 1000]: an absent or zero [retryAfter] is falsy. *)
Definition baseDelay (error : AIError) : Z :=
  match retryAfter error with
  | None => 1000
  | Some r => if (r =? 0)%Z then 1000 else r
  end.

(** [Math.min(baseDelay * Math.pow(2, attempt), 30000)] *)
Definition getRetryDelay (error : AIError) (attempt : nat) : Z :=
  Z.min (baseDelay error * 2 ^ Z.of_nat attempt) 30000.

End AIErrors.


(* ================================================================== *)
(** * JavaScript values shared by the modules *)
(* ================================================================== *)

(** ** Strings: truthiness *)

(** A string is falsy exactly when it is empty. *)
Definition truthy_string (s : string) : bool :=
  match s with EmptyString => false | _ => true end.

(** [s || d] on an optional string: undefined and [""] give the default. *)
Definition string_or (s : option string) (d : string) : string :=
  match s with
  | Some v => if truthy_string v then v else d
  | None => d
  end.

(** The line feed character, as a string. *)
Definition newline : string := String (ascii_of_nat 10) EmptyString.

(** ** [Map<string, V>]: an association list in insertion order with
       pairwise distinct keys, as a JavaScript [Map] iterates. *)

Module JSMap.

Section Ops.
Context {V : Type}.

Definition t := list (string * V).

Fixpoint get (k : string) (m : t) : option V :=
  match m with
  | [] => None
  | (k', v) :: m' => if String.eqb k' k then Some v else get k m'
  end.

Definition has (k : string) (m : t) : bool :=
  match get k m with Some _ => true | None => false end.

(** [set] on a present key replaces the value and keeps the key's
    position; on an absent key it appends. *)
Fixpoint set (k : string) (v : V) (m : t) : t :=
  match m with
  | [] => [(k, v)]
  | (k', v') :: m' =>
      if String.eqb k' k then (k', v) :: m' else (k', v') :: set k v m'
  end.

Fixpoint delete (k : string) (m : t) : t :=
  match m with
  | [] => []
  | (k', v') :: m' =>
      if String.eqb k' k then m' else (k', v') :: delete k m'
  end.

Definition keys (m : t) : list string := map fst m.
Definition values (m : t) : list V := map snd m.
Definition size (m : t) : nat := List.length m.

(** The representation invariant of a [Map]: no key occurs twice. *)
Definition wf (m : t) : Prop := NoDup (keys m).

End Ops.
Arguments t V : clear implicits.

End JSMap.

(** ** [number]: IEEE 754 binary64, from the specification of floating
       point arithmetic in the standard library ([SpecFloat]).  All
       operations round to nearest, ties to even, as ECMAScript's do; the
       single [S754_nan] stands for every NaN, which JavaScript cannot tell
       apart either. *)

Module JSNumber.

Definition prec : Z := 53.
Definition emax : Z := 1024.

Definition number : Type := spec_float.

Definition add : number -> number -> number := SFadd prec emax.
Definition sub : number -> number -> number := SFsub prec emax.
Definition mul : number -> number -> number := SFmul prec emax.
Definition div : number -> number -> number := SFdiv prec emax.
Definition sqrt : number -> number := SFsqrt prec emax.

Definition NaN : number := S754_nan.
Definition Infinity : number := S754_infinity false.
Definition zero : number := S754_zero false.

(** The number an integer literal denotes (exact up to 2^53, correctly
    rounded beyond). *)
Definition ofZ (z : Z) : number := binary_normalize prec emax z 0 false.

(** The number a decimal literal [n/d] denotes, for integers [n], [d] that
    are themselves exact: the correctly rounded quotient, e.g.
    [decimal 8 10] for the literal [0.8]. *)
Definition decimal (n d : Z) : number := div (ofZ n) (ofZ d).

Definition isNaN (x : number) : bool :=
  match x with S754_nan => true | _ => false end.

(** [x > 0] and [x < 0], the two tests a sort makes on the value a
    comparator returns; both are false on NaN and on either zero. *)
Definition is_pos (x : number) : bool :=
  match x with
  | S754_infinity false | S754_finite false _ _ => true
  | _ => false
  end.

Definition is_neg (x : number) : bool :=
  match x with
  | S754_infinity true | S754_finite true _ _ => true
  | _ => false
  end.

(** Being one of the two zeros. *)
Definition is_zero (x : number) : bool :=
  match x with S754_zero _ => true | _ => false end.

End JSNumber.


(* ================================================================== *)
(** * The model configuration registry (class ModelConfigurationService) *)
(* ================================================================== *)

Module ModelConfigurationService.
Import AIErrors.

(** The collaborators the service writes to (the storage service, the
    secret store, the listeners of its events) are taken not to throw; an
    operation fails only where the code itself throws. *)

Inductive ModelType : Type := local | cloud.

(** [interface IModelConfiguration].  The [parameters], [capabilities] and
    [metadata] members are carried along unchanged by every operation of
    the registry and are left out. *)
Record IModelConfiguration : Type := mkConfig {
  id : string;
  name : string;
  type : ModelType;
  provider : string;
  endpoint : string;
  apiKey : option string;
  model : string;
  isDefault : bool;
  enabled : bool
}.

(** [Partial<IModelConfiguration>]: [None] is a member that is absent. *)
Record PartialConfiguration : Type := mkPartial {
  p_id : option string;
  p_name : option string;
  p_type : option ModelType;
  p_provider : option string;
  p_endpoint : option string;
  p_apiKey : option string;
  p_model : option string;
  p_isDefault : option bool;
  p_enabled : option bool
}.

Definition noUpdates : PartialConfiguration :=
  mkPartial None None None None None None None None None.

Definition override {A : Type} (old : A) (new : option A) : A :=
  match new with Some v => v | None => old end.

(** [{ ...existing, ...updates }] *)
Definition spread (existing : IModelConfiguration) (updates : PartialConfiguration)
  : IModelConfiguration :=
  mkConfig (override (id existing) (p_id updates))
           (override (name existing) (p_name updates))
           (override (type existing) (p_type updates))
           (override (provider existing) (p_provider updates))
           (override (endpoint existing) (p_endpoint updates))
           (match p_apiKey updates with Some k => Some k | None => apiKey existing end)
           (override (model existing) (p_model updates))
           (override (isDefault existing) (p_isDefault updates))
           (override (enabled existing) (p_enabled updates)).

Definition set_apiKey (k : option string) (c : IModelConfiguration) : IModelConfiguration :=
  mkConfig (id c) (name c) (type c) (provider c) (endpoint c) k (model c)
           (isDefault c) (enabled c).

Definition set_isDefault (b : bool) (c : IModelConfiguration) : IModelConfiguration :=
  mkConfig (id c) (name c) (type c) (provider c) (endpoint c) (apiKey c) (model c)
           b (enabled c).

(** What the service writes to its collaborators and which events it
    fires, in program order. *)
Inductive Effect : Type :=
| SecretSet (modelId apiKey : string)
| SecretDelete (modelId : string)
| SaveConfigurations (configs : list IModelConfiguration)
| StoreDefaultModel (modelId : string)
| RemoveDefaultModel
| FireDidAddModel (config : IModelConfiguration)
| FireDidRemoveModel (modelId : string)
| FireDidChangeConfiguration (config : IModelConfiguration)
| FireDidChangeDefaultModel (modelId : string).

(** The private state of the service. *)
Record Registry : Type := mkRegistry {
  configurations : JSMap.t IModelConfiguration;
  defaultModelId : option string
}.

Definition emptyRegistry : Registry := mkRegistry [] None.

(** The answer of the connectivity probe [testModelConnection], which
    depends on the network and is an input of the model. *)
Record ProbeResult : Type := mkProbe {
  success : bool;
  probe_error : option string
}.

Record IModelValidationResult : Type := mkValidation {
  isValid : bool;
  error : option string
}.

Section Service.

(** Whether [new URL(endpoint)] succeeds. *)
Variable parsesAsURL : string -> bool.

Definition getConfiguration (modelId : string) (r : Registry) : option IModelConfiguration :=
  JSMap.get modelId (configurations r).

Definition getAllConfigurations (r : Registry) : list IModelConfiguration :=
  JSMap.values (configurations r).

Definition getDefaultModel (r : Registry) : option IModelConfiguration :=
  match defaultModelId r with
  | Some d => if truthy_string d then JSMap.get d (configurations r) else None
  | None => None
  end.

Definition validateConfiguration (probe : ProbeResult) (config : IModelConfiguration)
  : IModelValidationResult :=
  if negb (truthy_string (id config)) || negb (truthy_string (name config))
     || negb (truthy_string (endpoint config)) || negb (truthy_string (model config))
  then mkValidation false (Some "Missing required fields: id, name, endpoint, or model")
  else if negb (parsesAsURL (endpoint config))
  then mkValidation false (Some "Invalid endpoint URL")
  else mkValidation (success probe) (probe_error probe).

Definition saveConfigurations (r : Registry) : Effect :=
  SaveConfigurations (JSMap.values (configurations r)).

(** [setDefaultModel]: the loop assigns [cfg.isDefault = (id === modelId)]
    to every stored configuration. *)
Definition setDefaultModel (modelId : string) (r : Registry)
  : Settled AIError unit * Registry * list Effect :=
  match JSMap.get modelId (configurations r) with
  | None => (Rejected (modelNotFound modelId), r, [])
  | Some _ =>
      let r' := mkRegistry
                  (map (fun kc => (fst kc, set_isDefault (String.eqb (fst kc) modelId) (snd kc)))
                       (configurations r))
                  (Some modelId) in
      (Fulfilled tt, r',
       [StoreDefaultModel modelId; saveConfigurations r'; FireDidChangeDefaultModel modelId])
  end.

Definition addConfiguration (probe : ProbeResult) (config : IModelConfiguration) (r : Registry)
  : Settled AIError unit * Registry * list Effect :=
  let validation := validateConfiguration probe config in
  if negb (isValid validation)
  then (Rejected (newAIError CONFIGURATION_ERROR
                    (string_or (error validation) "Invalid configuration")), r, [])
  else
    let '(config, fx_key) :=
      match apiKey config with
      | Some k => if truthy_string k
                  then (set_apiKey None config, [SecretSet (id config) k])
                  else (config, [])
      | None => (config, [])
      end in
    let r1 := mkRegistry (JSMap.set (id config) config (configurations r))
                         (defaultModelId r) in
    let fx1 := fx_key ++ [saveConfigurations r1; FireDidAddModel config] in
    if isDefault config || (JSMap.size (configurations r1) =? 1)%nat
    then let '(res, r2, fx2) := setDefaultModel (id config) r1 in (res, r2, fx1 ++ fx2)
    else (Fulfilled tt, r1, fx1).

Definition updateConfiguration (probe : ProbeResult) (modelId : string)
    (updates : PartialConfiguration) (r : Registry)
  : Settled AIError unit * Registry * list Effect :=
  match JSMap.get modelId (configurations r) with
  | None => (Rejected (modelNotFound modelId), r, [])
  | Some existing =>
      let updated := spread existing updates in
      let validation := validateConfiguration probe updated in
      if negb (isValid validation)
      then (Rejected (newAIError CONFIGURATION_ERROR
                        (string_or (error validation) "Invalid configuration")), r, [])
      else
        let '(updated, fx_key) :=
          match p_apiKey updates with
          | Some k => (set_apiKey None updated,
                       [if truthy_string k then SecretSet modelId k else SecretDelete modelId])
          | None => (updated, [])
          end in
        let r1 := mkRegistry (JSMap.set modelId updated (configurations r))
                             (defaultModelId r) in
        (Fulfilled tt, r1,
         fx_key ++ [saveConfigurations r1; FireDidChangeConfiguration updated])
  end.

Definition removeConfiguration (modelId : string) (r : Registry)
  : Settled AIError unit * Registry * list Effect :=
  match JSMap.get modelId (configurations r) with
  | None => (Fulfilled tt, r, [])
  | Some _ =>
      let r1 := mkRegistry (JSMap.delete modelId (configurations r)) (defaultModelId r) in
      let fx1 := [SecretDelete modelId; saveConfigurations r1; FireDidRemoveModel modelId] in
      match defaultModelId r1 with
      | Some d =>
          if String.eqb d modelId
          then match getAllConfigurations r1 with
               | first :: _ =>
                   let '(res, r2, fx2) := setDefaultModel (id first) r1 in
                   (res, r2, fx1 ++ fx2)
               | [] =>
                   (Fulfilled tt, mkRegistry (configurations r1) None,
                    fx1 ++ [RemoveDefaultModel])
               end
          else (Fulfilled tt, r1, fx1)
      | None => (Fulfilled tt, r1, fx1)
      end
  end.

(** *** Sequences of add, remove and setDefault operations *)

Inductive Operation : Type :=
| OpAdd (probe : ProbeResult) (config : IModelConfiguration)
| OpRemove (modelId : string)
| OpSetDefault (modelId : string).

Definition apply (op : Operation) (r : Registry)
  : Settled AIError unit * Registry * list Effect :=
  match op with
  | OpAdd probe config => addConfiguration probe config r
  | OpRemove modelId => removeConfiguration modelId r
  | OpSetDefault modelId => setDefaultModel modelId r
  end.

Definition state_after (op : Operation) (r : Registry) : Registry :=
  snd (fst (apply op r)).

(** The states observed between the operations of a run: the state before
    the first operation, and the state each operation leaves, whether it
    was fulfilled or rejected. *)
Fixpoint observations (ops : list Operation) (r : Registry) : list Registry :=
  match ops with
  | [] => [r]
  | op :: ops' => r :: observations ops' (state_after op r)
  end.

End Service.

(** The stored configurations flagged as default. *)
Definition defaults (r : Registry) : list IModelConfiguration :=
  filter isDefault (JSMap.values (configurations r)).

Definition at_most_one_default (r : Registry) : Prop :=
  (List.length (defaults r) <= 1)%nat.

End ModelConfigurationService.


(* ================================================================== *)
(** * The service facade (class AIServiceManager) *)
(* ================================================================== *)

Module AIServiceManager.
Import AIErrors.
Module MCS := ModelConfigurationService.

Inductive Role : Type := user | assistant | system.

(** The registered provider objects; what a provider answers is an input
    of the model (see [sendRequest] below). *)
Record IAIServiceProvider : Type := mkProvider {
  provider_id : string;
  provider_name : string
}.

(** [interface IAIResponse], without its optional members. *)
Record IAIResponse : Type := mkResponse {
  response_content : string;
  confidence : JSNumber.number
}.


(** An optional [CancellationToken]; [isCancellationRequested] is read at
    the points the code reads it, and the argument is the number of calls
    to the operation made so far. *)
Definition CancellationToken : Type := option (nat -> bool).

(** [token?.isCancellationRequested] as a condition *)
Definition cancellationRequested (token : CancellationToken) (calls : nat) : bool :=
  match token with
  | Some isCancellationRequested => isCancellationRequested calls
  | None => false
  end.

(** [handleError(undefined)] reads [error.code] of a nullish value.  The
    text is the engine's for [undefined]; for a thrown [null] it names
    [null], and no statement below rests on the text. *)
Definition typeErrorOfNullish : Thrown :=
  ThrownObject (mkRawError None (Some "Cannot read properties of undefined (reading 'code')")).

Definition optional_string_is (s : option string) (v : string) : bool :=
  match s with Some x => String.eqb x v | None => false end.

(** [private handleError(error: any): AIError] *)
Definition handleError (error : Thrown) : Settled Thrown AIError :=
  match error with
  | ThrownAIError e => Fulfilled e
  | ThrownNullish => Rejected typeErrorOfNullish
  | ThrownObject r =>
      if optional_string_is (raw_code r) "ECONNREFUSED"
         || optional_string_is (raw_code r) "ENOTFOUND"
      then Fulfilled (connectionFailed (DetailsOfError r))
      else if optional_string_is (raw_code r) "ETIMEDOUT"
      then Fulfilled (timeout (DetailsOfError r))
      else Fulfilled (mkAIError INTERNAL_ERROR (string_or (raw_message r) "Unknown error")
                                (DetailsOfError r) false None)
  end.

Section Manager.

(** [interface ICodeContext], a read-only snapshot of the editor, and its
    rendering by [JSON.stringify(context, null, 2)], which throws on a
    value it cannot render (a cycle, a BigInt). *)
Variable ICodeContext : Type.
Variable JSON_stringify : ICodeContext -> Settled Thrown string.
(** How a template literal renders a number. *)
Variable numberToString : Z -> string.

Record IAIMessage : Type := mkMessage {
  role : Role;
  content : string;
  context : option ICodeContext;
  timestamp : Z
}.

Inductive Effect : Type :=
| FireDidChangeActiveModel (modelId : string)
| FireDidReceiveResponse (response : IAIResponse)
| FireDidError (error : AIError)
| Invoke (attempt : nat)      (* the retried operation is called *)
| Delay (ms : Z).             (* [await this.delay(ms)] *)

Record Manager : Type := mkManager {
  providers : JSMap.t IAIServiceProvider;
  activeModelId : option string;
  currentContext : option ICodeContext
}.

Definition set_activeModelId (modelId : option string) (m : Manager) : Manager :=
  mkManager (providers m) modelId (currentContext m).

(** *** executeWithRetry *)

Definition defaultMaxRetries : nat := 3.

(** The [for] loop of [executeWithRetry]; [fuel] is [maxRetries - attempt],
    so that [fuel = 0] is the exit of the loop.  [operation attempt] is the
    outcome of the call made in iteration [attempt]. *)
Fixpoint retryLoop {T : Type} (operation : nat -> Settled Thrown T)
    (token : CancellationToken) (maxRetries fuel attempt : nat) (lastError : Thrown)
  : Settled Thrown T * list Effect :=
  match fuel with
  | O =>
      (match handleError lastError with
       | Fulfilled aiError => Rejected (ThrownAIError aiError)
       | Rejected t => Rejected t
       end, [])
  | S fuel' =>
      if cancellationRequested token attempt
      then (Rejected (ThrownAIError (newAIError TIMEOUT "Operation cancelled")), [])
      else
        match operation attempt with
        | Fulfilled v => (Fulfilled v, [Invoke attempt])
        | Rejected error =>
            match handleError error with
            | Rejected t => (Rejected t, [Invoke attempt])
            | Fulfilled aiError =>
                if negb (shouldRetry aiError) || (attempt =? maxRetries - 1)%nat
                then (Rejected (ThrownAIError aiError), [Invoke attempt])
                else
                  let '(res, fx) :=
                    retryLoop operation token maxRetries fuel' (S attempt) error in
                  (res, Invoke attempt :: Delay (getRetryDelay aiError attempt) :: fx)
            end
        end
  end.

Definition executeWithRetry {T : Type} (operation : nat -> Settled Thrown T)
    (token : CancellationToken) (maxRetries : nat)
  : Settled Thrown T * list Effect :=
  retryLoop operation token maxRetries maxRetries 0 ThrownNullish.

(** *** Reading a trace of effects *)

(** How many times the operation was called. *)
Definition attempts (fx : list Effect) : nat :=
  List.length (filter (fun e => match e with Invoke _ => true | _ => false end) fx).

(** The sleep that immediately precedes the [k]-th call of the operation,
    calls being counted from 1; [last] is the sleep just read, if the
    previous effect was one. *)
Fixpoint delay_before (k : nat) (last : option Z) (fx : list Effect) : option Z :=
  match fx with
  | [] => None
  | Invoke _ :: rest =>
      match k with
      | O => None
      | S O => last
      | S k' => delay_before k' None rest
      end
  | Delay ms :: rest => delay_before k (Some ms) rest
  | _ :: rest => delay_before k None rest
  end.

Definition delay_before_attempt (k : nat) (fx : list Effect) : option Z :=
  delay_before k None fx.

(** *** Model management *)

Definition switchModel (registry : MCS.Registry) (modelId : string) (m : Manager)
  : Settled Thrown unit * Manager * list Effect :=
  match MCS.getConfiguration modelId registry with
  | None => (Rejected (ThrownAIError (modelNotFound modelId)), m, [])
  | Some config =>
      match JSMap.get (MCS.provider config) (providers m) with
      | None =>
          (Rejected (ThrownAIError
             (newAIError SERVICE_UNAVAILABLE
                ("Provider " ++ MCS.provider config ++ " not available"))), m, [])
      | Some _ =>
          (Fulfilled tt, set_activeModelId (Some modelId) m,
           [FireDidChangeActiveModel modelId])
      end
  end.

Definition getActiveModel (m : Manager) : option string := activeModelId m.

Definition falsy_id (modelId : option string) : bool :=
  match modelId with Some s => negb (truthy_string s) | None => true end.

(** The string a template literal or a [Map] lookup sees for
    [this.activeModelId!]. *)
Definition id_text (modelId : option string) : string :=
  match modelId with Some s => s | None => "undefined" end.

Definition lookup_active (registry : MCS.Registry) (m : Manager)
  : option MCS.IModelConfiguration :=
  match activeModelId m with
  | Some s => MCS.getConfiguration s registry
  | None => None
  end.

Definition getActiveProvider (registry : MCS.Registry) (m : Manager)
  : Settled Thrown IAIServiceProvider * Manager * list Effect :=
  let '(res, m1, fx) :=
    if falsy_id (activeModelId m)
    then match MCS.getDefaultModel registry with
         | Some defaultModel => switchModel registry (MCS.id defaultModel) m
         | None =>
             (Rejected (ThrownAIError
                (newAIError CONFIGURATION_ERROR "No active model configured")), m, [])
         end
    else (Fulfilled tt, m, []) in
  match res with
  | Rejected t => (Rejected t, m1, fx)
  | Fulfilled _ =>
      match lookup_active registry m1 with
      | None =>
          (Rejected (ThrownAIError (modelNotFound (id_text (activeModelId m1)))), m1, fx)
      | Some config =>
          match JSMap.get (MCS.provider config) (providers m1) with
          | None =>
              (Rejected (ThrownAIError
                 (newAIError SERVICE_UNAVAILABLE
                    ("Provider " ++ MCS.provider config ++ " not available"))), m1, fx)
          | Some provider => (Fulfilled provider, m1, fx)
          end
      end
  end.

(** *** getCodeCompletion *)




End Manager.

End AIServiceManager.


(* ================================================================== *)
(** * Conversation memory (class AIService, executeConversationFlow) *)
(* ================================================================== *)

Module AIWorkflows.
Import AIErrors.

Inductive Role : Type := user | assistant | system.

Record IAIMessage : Type := mkMessage {
  role : Role;
  content : string
}.

Record IChatResponse : Type := mkChatResponse {
  response_content : string
}.

(** [private conversationMemory: Map<string, IAIMessage[]>].  The arrays
    are shared with the map: a [push] on the array read from the map is
    visible in the map at once, which the model writes back explicitly. *)
Definition ConversationMemory : Type := JSMap.t (list IAIMessage).

(** The optional [context] argument. *)
Record FlowContext : Type := mkFlowContext {
  maxHistory : option Z;
  systemPrompt : option string
}.

(** [n || d] on an optional integer: undefined and 0 give the default. *)
Definition number_or (n : option Z) (d : Z) : Z :=
  match n with
  | Some v => if (v =? 0)%Z then d else v
  | None => d
  end.

(** [array.slice(start)] for an integer [start]: a negative [start] counts
    from the end. *)
Definition slice_from {A : Type} (start : Z) (l : list A) : list A :=
  let len := Z.of_nat (List.length l) in
  if (start <? 0)%Z
  then skipn (Z.to_nat (Z.max (len + start) 0)) l
  else skipn (Z.to_nat (Z.min start len)) l.

(** [executeConversationFlow]; [chat] is the answer of [this.chat] to the
    history it is given. *)
Definition executeConversationFlow
    (chat : list IAIMessage -> Settled Thrown IChatResponse)
    (conversationId message : string) (context : option FlowContext)
    (memory : ConversationMemory)
  : Settled Thrown string * ConversationMemory :=
  let maxHistory := number_or (match context with Some c => maxHistory c | None => None end) 10 in
  let systemPrompt :=
    string_or (match context with Some c => systemPrompt c | None => None end)
              "You are a helpful AI assistant with conversation memory." in
  let stored := JSMap.get conversationId memory in
  let history := match stored with Some h => h | None => [] end in
  let history :=
    if (List.length history =? 0)%nat
    then history ++ [mkMessage system systemPrompt]
    else history in
  let history := history ++ [mkMessage user message] in
  (* the two [push]es above changed the stored array in place *)
  let memory :=
    match stored with
    | Some _ => JSMap.set conversationId history memory
    | None => memory
    end in
  let history :=
    if (maxHistory + 1 <? Z.of_nat (List.length history))%Z
    then firstn 1 history ++ slice_from (- maxHistory) history
    else history in
  match chat history with
  | Rejected e => (Rejected e, memory)
  | Fulfilled response =>
      let history := history ++ [mkMessage assistant (response_content response)] in
      (Fulfilled (response_content response), JSMap.set conversationId history memory)
  end.

Definition getConversationHistory (conversationId : string) (memory : ConversationMemory)
  : list IAIMessage :=
  match JSMap.get conversationId memory with Some h => h | None => [] end.

End AIWorkflows.


(* ================================================================== *)
(** * JavaScript strings as UTF-16 code units, and JSON *)
(* ================================================================== *)

Module JSString.

(** A string value is a sequence of 16-bit code units. *)
Definition jsstring : Type := list N.

(** The string an ASCII literal denotes. *)
Fixpoint js (s : string) : jsstring :=
  match s with
  | EmptyString => []
  | String c s' => N_of_ascii c :: js s'
  end.

Fixpoint eqb (a b : jsstring) : bool :=
  match a, b with
  | [], [] => true
  | x :: a', y :: b' => N.eqb x y && eqb a' b'
  | _, _ => false
  end.

(** White space and line terminators of ECMAScript, which [trim] strips. *)
Definition is_white_space (c : N) : bool :=
  existsb (N.eqb c)
    [9; 10; 11; 12; 13; 32; 160; 5760; 8192; 8193; 8194; 8195; 8196; 8197;
     8198; 8199; 8200; 8201; 8202; 8232; 8233; 8239; 8287; 12288; 65279]%N.

Fixpoint trimStart (s : jsstring) : jsstring :=
  match s with
  | c :: s' => if is_white_space c then trimStart s' else s
  | [] => []
  end.

Definition trimEnd (s : jsstring) : jsstring := rev (trimStart (rev s)).

Definition trim (s : jsstring) : jsstring := trimEnd (trimStart s).

(** [s.split('\n')]: the pieces between line feeds; [current] holds the
    code units of the piece being read, in reverse. *)
Fixpoint split_lines_from (current : jsstring) (s : jsstring) : list jsstring :=
  match s with
  | [] => [rev current]
  | c :: s' =>
      if N.eqb c 10 then rev current :: split_lines_from [] s'
      else split_lines_from (c :: current) s'
  end.

Definition split_lines (s : jsstring) : list jsstring := split_lines_from [] s.

(** [s.replace(/^prefix/, '')] for a literal prefix. *)
Fixpoint strip_prefix (prefix s : jsstring) : option jsstring :=
  match prefix, s with
  | [], _ => Some s
  | p :: prefix', c :: s' => if N.eqb p c then strip_prefix prefix' s' else None
  | _ :: _, [] => None
  end.

Definition remove_prefix (prefix s : jsstring) : jsstring :=
  match strip_prefix prefix s with Some rest => rest | None => s end.

End JSString.

Module JSON.
Import JSString.

(** The values [JSON.parse] returns.  A number is kept as the decimal the
    text denotes, [(-1)^negative * mantissa * 10^exponent]; the number the
    program sees is its rounding to binary64. *)
#[warnings="-register-all"]
Inductive value : Type :=
| Null
| Bool (b : bool)
| Number (negative : bool) (mantissa : N) (exponent : Z)
| Str (s : jsstring)
| Array (items : list value)
| Object (members : list (jsstring * value)).

(** Whether the decimal rounds to zero in binary64: it is zero, or it is
    at most 2^-1075, half of the least positive number. *)
Definition rounds_to_zero (mantissa : N) (exponent : Z) : bool :=
  (mantissa =? 0)%N
  || ((exponent <? 0)%Z && (Z.of_N mantissa * 2 ^ 1075 <=? 10 ^ (- exponent))%Z).

(** ToBoolean *)
Definition truthy (v : value) : bool :=
  match v with
  | Null => false
  | Bool b => b
  | Number _ m e => negb (rounds_to_zero m e)
  | Str s => match s with [] => false | _ => true end
  | Array _ | Object _ => true
  end.

Fixpoint lookup (k : jsstring) (members : list (jsstring * value)) : option value :=
  match members with
  | [] => None
  | (k', v) :: rest => if eqb k' k then Some v else lookup k rest
  end.

(** Defining a member while parsing: a repeated name keeps its place and
    takes the later value. *)
Fixpoint define (k : jsstring) (v : value) (members : list (jsstring * value))
  : list (jsstring * value) :=
  match members with
  | [] => [(k, v)]
  | (k', v') :: rest =>
      if eqb k' k then (k', v) :: rest else (k', v') :: define k v rest
  end.

(** *** The grammar of ECMA-404 *)

Fixpoint skip_ws (s : jsstring) : jsstring :=
  match s with
  | c :: s' => if existsb (N.eqb c) [9; 10; 13; 32]%N then skip_ws s' else s
  | [] => []
  end.

Definition digit (c : N) : option N :=
  if ((48 <=? c) && (c <=? 57))%N then Some (c - 48)%N else None.

Definition hex_digit (c : N) : option N :=
  if ((48 <=? c) && (c <=? 57))%N then Some (c - 48)%N
  else if ((65 <=? c) && (c <=? 70))%N then Some (c - 55)%N
  else if ((97 <=? c) && (c <=? 102))%N then Some (c - 87)%N
  else None.

(** The code units of a string literal after its opening quote, up to the
    closing one; [acc] is what was read, in reverse. *)
Fixpoint parse_string (acc : jsstring) (s : jsstring) : option (jsstring * jsstring) :=
  match s with
  | [] => None
  | 34%N :: rest => Some (rev acc, rest)
  | 92%N :: rest =>
      match rest with
      | 117%N :: h1 :: h2 :: h3 :: h4 :: rest' =>
          match hex_digit h1, hex_digit h2, hex_digit h3, hex_digit h4 with
          | Some a, Some b, Some c, Some d =>
              parse_string ((a * 4096 + b * 256 + c * 16 + d)%N :: acc) rest'
          | _, _, _, _ => None
          end
      | c :: rest' =>
          match (if N.eqb c 34 then Some 34 else if N.eqb c 92 then Some 92
                 else if N.eqb c 47 then Some 47 else if N.eqb c 98 then Some 8
                 else if N.eqb c 102 then Some 12 else if N.eqb c 110 then Some 10
                 else if N.eqb c 114 then Some 13 else if N.eqb c 116 then Some 9
                 else None)%N with
          | Some u => parse_string (u :: acc) rest'
          | None => None
          end
      | [] => None
      end
  | c :: rest => if (c <? 32)%N then None else parse_string (c :: acc) rest
  end.

(** A run of decimal digits: its value, how many there are, and the rest. *)
Fixpoint parse_digits (acc : N) (count : nat) (s : jsstring) : N * nat * jsstring :=
  match s with
  | c :: rest =>
      match digit c with
      | Some d => parse_digits (acc * 10 + d)%N (S count) rest
      | None => (acc, count, s)
      end
  | [] => (acc, count, s)
  end.

Definition parse_exponent (s : jsstring) : option (Z * jsstring) :=
  match s with
  | c :: rest =>
      if (N.eqb c 101 || N.eqb c 69)%N then
        let '(sign, rest) :=
          match rest with
          | 43%N :: r => (1%Z, r)
          | 45%N :: r => ((-1)%Z, r)
          | _ => (1%Z, rest)
          end in
        match parse_digits 0 0 rest with
        | (_, O, _) => None
        | (e, _, rest') => Some ((sign * Z.of_N e)%Z, rest')
        end
      else Some (0%Z, s)
  | [] => Some (0%Z, s)
  end.

Definition parse_number (s : jsstring) : option (value * jsstring) :=
  let '(negative, s) := match s with 45%N :: r => (true, r) | _ => (false, s) end in
  match parse_digits 0 0 s with
  | (_, O, _) => None
  | (int, n, rest) =>
      (* no leading zero before further digits *)
      if match s with 48%N :: _ => negb (n =? 1)%nat | _ => false end then None
      else
        let frac :=
          match rest with
          | 46%N :: r =>
              match parse_digits int 0 r with
              | (_, O, _) => None
              | (m, k, rest') => Some (m, k, rest')
              end
          | _ => Some (int, O, rest)
          end in
        match frac with
        | None => None
        | Some (m, k, rest') =>
            match parse_exponent rest' with
            | None => None
            | Some (e, rest'') =>
                Some (Number negative m (e - Z.of_nat k), rest'')
            end
        end
  end.

(** The values, by recursive descent; every call spends one unit of
    [fuel] and reads at least one code unit. *)
Fixpoint parse_value (fuel : nat) (s : jsstring) : option (value * jsstring) :=
  match fuel with
  | O => None
  | S fuel' =>
      match skip_ws s with
      | 110%N :: 117%N :: 108%N :: 108%N :: rest => Some (Null, rest)
      | 116%N :: 114%N :: 117%N :: 101%N :: rest => Some (Bool true, rest)
      | 102%N :: 97%N :: 108%N :: 115%N :: 101%N :: rest => Some (Bool false, rest)
      | 34%N :: rest =>
          match parse_string [] rest with
          | Some (str, rest') => Some (Str str, rest')
          | None => None
          end
      | 91%N :: rest =>
          match skip_ws rest with
          | 93%N :: rest' => Some (Array [], rest')
          | _ =>
              match parse_elements fuel' rest with
              | Some (items, rest') => Some (Array items, rest')
              | None => None
              end
          end
      | 123%N :: rest =>
          match skip_ws rest with
          | 125%N :: rest' => Some (Object [], rest')
          | _ =>
              match parse_members fuel' [] rest with
              | Some (members, rest') => Some (Object members, rest')
              | None => None
              end
          end
      | s' => parse_number s'
      end
  end
with parse_elements (fuel : nat) (s : jsstring) : option (list value * jsstring) :=
  match fuel with
  | O => None
  | S fuel' =>
      match parse_value fuel' s with
      | None => None
      | Some (v, rest) =>
          match skip_ws rest with
          | 93%N :: rest' => Some ([v], rest')
          | 44%N :: rest' =>
              match parse_elements fuel' rest' with
              | Some (vs, rest'') => Some (v :: vs, rest'')
              | None => None
              end
          | _ => None
          end
      end
  end
with parse_members (fuel : nat) (acc : list (jsstring * value)) (s : jsstring)
  : option (list (jsstring * value) * jsstring) :=
  match fuel with
  | O => None
  | S fuel' =>
      match skip_ws s with
      | 34%N :: rest =>
          match parse_string [] rest with
          | None => None
          | Some (k, rest') =>
              match skip_ws rest' with
              | 58%N :: rest'' =>
                  match parse_value fuel' rest'' with
                  | None => None
                  | Some (v, rest3) =>
                      let acc := define k v acc in
                      match skip_ws rest3 with
                      | 125%N :: rest4 => Some (acc, rest4)
                      | 44%N :: rest4 => parse_members fuel' acc rest4
                      | _ => None
                      end
                  end
              | _ => None
              end
          end
      | _ => None
      end
  end.

(** [JSON.parse(text)]; [None] is a [SyntaxError].  Twice the length of
    the text is fuel enough, since no call returns without reading. *)
Definition parse (text : jsstring) : option value :=
  match parse_value (2 * List.length text + 2) text with
  | Some (v, rest) => match skip_ws rest with [] => Some v | _ => None end
  | None => None
  end.

End JSON.


(* ================================================================== *)
(** * The local model adapter (class LocalModelService), streaming *)
(* ================================================================== *)

Module LocalModelService.
Import AIErrors JSString.

(** What an async generator does before it is exhausted or abandoned:
    the values it yields, then how it completes. *)
Record Generated (A : Type) : Type := mkGenerated {
  yielded : list A;
  completion : Settled Thrown unit
}.
Arguments mkGenerated {A} yielded completion.
Arguments yielded {A} g.
Arguments completion {A} g.

Definition yield_first {A : Type} (ys : list A) (g : Generated A) : Generated A :=
  mkGenerated (ys ++ yielded g) (completion g).

(** Reading [obj.name] where [obj] came from [JSON.parse]: a [TypeError]
    on null, the member of an object, and undefined on the other values
    for the names the formatters read (none of them is a property of an
    array, a string, a number or a boolean). *)
Definition property (name : string) (obj : JSON.value) : Settled Thrown (option JSON.value) :=
  match obj with
  | JSON.Null =>
      Rejected (ThrownObject (mkRawError None
        (Some ("Cannot read properties of null (reading '" ++ name ++ "')")%string)))
  | JSON.Object members => Fulfilled (JSON.lookup (js name) members)
  | _ => Fulfilled None
  end.

Definition truthy (v : option JSON.value) : bool :=
  match v with Some x => JSON.truthy x | None => false end.

(** [interface ILocalModelProvider], the members streaming uses.  The
    formatter is typed [string | null]; what it returns is whatever the
    parsed chunk holds, [None] standing for null and undefined. *)
Record ILocalModelProvider : Type := mkLocalProvider {
  provider_id : string;
  provider_name : string;
  streamingSupported : bool;
  streamingResponseFormatter : JSON.value -> Settled Thrown (option JSON.value)
}.

Definition OllamaProvider : ILocalModelProvider :=
  mkLocalProvider "ollama" "Ollama" true
    (fun chunk =>
       match property "message" chunk with
       | Rejected t => Rejected t
       | Fulfilled message =>
           if truthy message
           then match message with
                | Some m => property "content" m
                | None => Fulfilled None
                end
           else match property "response" chunk with
                | Rejected t => Rejected t
                | Fulfilled response =>
                    if truthy response then Fulfilled response else Fulfilled None
                end
       end).

Definition LlamaCppProvider : ILocalModelProvider :=
  mkLocalProvider "llamacpp" "Llama.cpp" true
    (fun chunk =>
       match property "content" chunk with
       | Rejected t => Rejected t
       | Fulfilled content => if truthy content then Fulfilled content else Fulfilled None
       end).

(** The body of the HTTP response as the transport delivers it: the
    decoded text of each chunk in order, and the error that ends the
    stream early, if one does. *)
Record Transport : Type := mkTransport {
  texts : list jsstring;
  failure : option Thrown
}.

Record IRequestContext : Type := mkRequestContext {
  statusCode : Z;
  statusMessage : string;
  stream : option Transport
}.

Record Service : Type := mkService {
  name : string;
  endpoint : string;
  provider : ILocalModelProvider
}.

Definition CancellationToken : Type := option (nat -> bool).

Definition cancellationRequested (token : CancellationToken) (received : nat) : bool :=
  match token with
  | Some isCancellationRequested => isCancellationRequested received
  | None => false
  end.

Definition optional_string_is (s : option string) (v : string) : bool :=
  match s with Some x => String.eqb x v | None => false end.

Section Streaming.

(** [JSON.parse], [None] for a text it rejects. *)
Variable JSON_parse : jsstring -> option JSON.value.
(** How a template literal renders a number. *)
Variable numberToString : Z -> string.
(** The message of the [TypeError] the engine throws when a value that is
    not a function is called. *)
Variable notAFunction : string.

Variable this : Service.

(** The call [this.isHealthy()].  The class declares the field
    [private isHealthy = false] and the method [async isHealthy()] under
    one name.  The field is an own property of the instance, to which the
    constructor and [checkHealth] assign a boolean, and it hides the method
    of the prototype: the call is a call of a boolean and throws. *)
Definition call_isHealthy : Settled Thrown bool :=
  Rejected (ThrownObject (mkRawError None (Some notAFunction))).

(** [private async ensureHealthy()] *)
Definition ensureHealthy : Settled Thrown unit :=
  match call_isHealthy with
  | Rejected t => Rejected t
  | Fulfilled healthy =>
      if negb healthy
      then Rejected (ThrownAIError
             (newAIError SERVICE_UNAVAILABLE
                ("Local model service " ++ name this ++ " is not available")))
      else Fulfilled tt
  end.

(** [private handleRequestError(error: any): AIError] *)
Definition handleRequestError (error : Thrown) : Settled Thrown AIError :=
  match error with
  | ThrownAIError e => Fulfilled e
  | ThrownNullish =>
      Rejected (ThrownObject (mkRawError None
        (Some "Cannot read properties of undefined (reading 'code')")))
  | ThrownObject r =>
      if optional_string_is (raw_code r) "ECONNREFUSED"
         || optional_string_is (raw_code r) "ENOTFOUND"
      then Fulfilled (mkAIError CONNECTION_FAILED
                        ("Failed to connect to " ++ name this ++ " at " ++ endpoint this)
                        (DetailsOfError r) true None)
      else if optional_string_is (raw_code r) "ETIMEDOUT"
      then Fulfilled (mkAIError TIMEOUT ("Request to " ++ name this ++ " timed out")
                        (DetailsOfError r) true None)
      else Fulfilled (mkAIError INTERNAL_ERROR
                        ("Request to " ++ name this ++ " failed: "
                         ++ string_or (raw_message r) "Unknown error")
                        (DetailsOfError r) true None)
  end.

(** [throw this.handleRequestError(error)] *)
Definition rethrow (error : Thrown) : Thrown :=
  match handleRequestError error with
  | Fulfilled e => ThrownAIError e
  | Rejected t => t
  end.

(** The lines one decoded chunk contributes: split at line feeds, blank
    lines dropped, the [data: ] prefix removed, trimmed, and empty lines
    and the [[DONE]] sentinel dropped. *)
Definition lines_of_text (text : jsstring) : list jsstring :=
  filter (fun line => negb (eqb line []) && negb (eqb line (js "[DONE]")))
    (map (fun line => trim (remove_prefix (js "data: ") line))
      (filter (fun line => negb (eqb (trim line) []))
        (split_lines text))).

(** The async iterable [makeStreamingRequest] returns: every line of every
    chunk, in order. *)
Definition stream_lines (texts : list jsstring) : list jsstring :=
  flat_map lines_of_text texts.

(** [makeStreamingRequest], given the outcome of [requestService.request]. *)
Definition makeStreamingRequest (response : Settled Thrown IRequestContext)
  : Settled Thrown (list jsstring * option Thrown) :=
  match response with
  | Rejected t => Rejected t
  | Fulfilled r =>
      if ((200 <=? statusCode r) && (statusCode r <? 300))%Z
      then match stream r with
           | None => Rejected (ThrownAIError (newAIError INVALID_RESPONSE "No stream in response"))
           | Some transport => Fulfilled (stream_lines (texts transport), failure transport)
           end
      else Rejected (ThrownAIError (newAIError INVALID_RESPONSE
             ("Streaming request failed with status " ++ numberToString (statusCode r)
              ++ ": " ++ statusMessage r)))
  end.

(** The content one line contributes: nothing when it does not parse, when
    the formatter throws, or when the content is falsy. *)
Definition content_of_line (line : jsstring) : list JSON.value :=
  match JSON_parse line with
  | None => []
  | Some jsonChunk =>
      match streamingResponseFormatter (provider this) jsonChunk with
      | Rejected _ => []
      | Fulfilled content =>
          match content with
          | Some c => if JSON.truthy c then [c] else []
          | None => []
          end
      end
  end.

(** The [for await] loop of [sendStreamRequest]; [received] counts the
    lines taken from the iterator so far. *)
Fixpoint streamLoop (token : CancellationToken) (failure : option Thrown)
    (received : nat) (lines : list jsstring) : Generated JSON.value :=
  match lines with
  | [] =>
      match failure with
      | None => mkGenerated [] (Fulfilled tt)
      | Some t => mkGenerated [] (Rejected (rethrow t))
      end
  | line :: rest =>
      if cancellationRequested token received
      then mkGenerated [] (Fulfilled tt)
      else yield_first (content_of_line line)
             (streamLoop token failure (S received) rest)
  end.

(** [sendStreamRequest]; [response] is the outcome of the HTTP request.
    [await this.ensureHealthy()] comes before the [try] block. *)
Definition sendStreamRequest (response : Settled Thrown IRequestContext)
    (token : CancellationToken) : Generated JSON.value :=
  if negb (streamingSupported (provider this))
  then mkGenerated [] (Rejected (ThrownAIError
         (newAIError CONFIGURATION_ERROR "Streaming not supported by this provider")))
  else
    match ensureHealthy with
    | Rejected t => mkGenerated [] (Rejected t)
    | Fulfilled _ =>
        match makeStreamingRequest response with
        | Rejected t => mkGenerated [] (Rejected (rethrow t))
        | Fulfilled (lines, failure) => streamLoop token failure 0 lines
        end
    end.

(** [sendRequest].  [prepared] is how the request body and the endpoint
    are made ([requestFormatter], [new URL]), before the [try] block, and
    [answered] how the request and the formatting of its response end,
    inside it. *)
Definition sendRequest {Response : Type} (prepared : Settled Thrown unit)
    (answered : Settled Thrown Response) : Settled Thrown Response :=
  match ensureHealthy with
  | Rejected t => Rejected t
  | Fulfilled _ =>
      match prepared with
      | Rejected t => Rejected t
      | Fulfilled _ =>
          match answered with
          | Fulfilled aiResponse => Fulfilled aiResponse
          | Rejected error => Rejected (rethrow error)
          end
      end
  end.

End Streaming.

End LocalModelService.


(* ================================================================== *)
(** * The in-memory vector store (class MemoryVectorStore) *)
(* ================================================================== *)

Module MemoryVectorStore.
Import JSNumber.

(** [interface ICategorizedContext]; [metadata] and [relationships] are
    not read by the searches and are left out. *)
Record ICategorizedContext : Type := mkDocument {
  doc_category : string;
  doc_content : string;
  doc_embedding : list number
}.

(** [interface ISemanticSearchResult], without [metadata] and the
    [explanation] text. *)
Record ISemanticSearchResult : Type := mkResult {
  id : string;
  content : string;
  score : number;
  embedding : list number
}.

Definition set_score (s : number) (r : ISemanticSearchResult) : ISemanticSearchResult :=
  mkResult (id r) (content r) s (embedding r).

Record Weights : Type := mkWeights {
  w_text : number;
  w_semantic : number
}.

(** [private documents: Map<string, ICategorizedContext>] *)
Definition Documents : Type := JSMap.t ICategorizedContext.

(** *** Strings *)

(** [toLowerCase] on the letters A to Z; the strings of the model are
    strings of ASCII characters. *)
Definition lower_ascii (c : ascii) : ascii :=
  let n := nat_of_ascii c in
  if ((65 <=? n) && (n <=? 90))%nat then ascii_of_nat (n + 32) else c.

Fixpoint toLowerCase (s : string) : string :=
  match s with
  | EmptyString => EmptyString
  | String c s' => String (lower_ascii c) (toLowerCase s')
  end.

(** [s.includes(sub)] *)
Fixpoint includes (sub s : string) : bool :=
  String.prefix sub s
  || match s with
     | EmptyString => false
     | String _ s' => includes sub s'
     end.

(** *** Arrays *)

(** [array.slice(0, end)] for an integer [end]. *)
Definition slice_to {A : Type} (last : Z) (l : list A) : list A :=
  if (last <? 0)%Z
  then firstn (Z.to_nat (Z.max (Z.of_nat (List.length l) + last) 0)) l
  else firstn (Z.to_nat last) l.

Section Sort.
Context {A : Type}.
(** The comparator; [a] is ordered before [b] when [compareFn a b < 0],
    after it when [compareFn a b > 0], and a result of zero or NaN leaves
    the two in their order. *)
Variable compareFn : A -> A -> number.

Fixpoint insert (x : A) (sorted : list A) : list A :=
  match sorted with
  | [] => [x]
  | y :: rest => if is_pos (compareFn x y) then y :: insert x rest else x :: sorted
  end.

(** [array.sort(compareFn)].  ECMAScript reads a NaN that the comparator
    returns as 0 and requires a stable sort, so on a comparator that is
    consistent under that reading (in particular when no result is NaN, and
    when every result is NaN or 0) every engine returns the list that
    insertion computes.  On a comparator that is not consistent (a NaN
    score among scores that differ) the language leaves the order to the
    engine, and this definition is one admissible order. *)
Fixpoint sort (l : list A) : list A :=
  match l with
  | [] => []
  | x :: rest => insert x (sort rest)
  end.

End Sort.

(** [(a, b) => b.score - a.score] *)
Definition byScoreDescending (a b : ISemanticSearchResult) : number :=
  sub (score b) (score a).

(** *** cosineSimilarity *)

(** The arithmetic [cosineSimilarity] is written in.  The program runs it
    on binary64 numbers; the second instance, exact real arithmetic, is
    what the computation approximates. *)
Class Arithmetic (num : Type) : Type := mkArithmetic {
  num_zero : num;
  num_add : num -> num -> num;
  num_mul : num -> num -> num;
  num_div : num -> num -> num;
  num_sqrt : num -> num
}.

#[export] Instance binary64 : Arithmetic number :=
  mkArithmetic number zero add mul div sqrt.

#[export] Instance exact_reals : Arithmetic R :=
  mkArithmetic R 0%R Rplus Rmult Rdiv R_sqrt.sqrt.

Section Cosine.
Context {num : Type} {arith : Arithmetic num}.

(** The loop, with its three accumulators. *)
Fixpoint accumulate (a b : list num) (dotProduct normA normB : num)
  : num * num * num :=
  match a, b with
  | x :: a', y :: b' =>
      accumulate a' b' (num_add dotProduct (num_mul x y)) (num_add normA (num_mul x x))
                 (num_add normB (num_mul y y))
  | _, _ => (dotProduct, normA, normB)
  end.

Definition cosineSimilarity (a b : list num) : num :=
  if negb (List.length a =? List.length b)%nat then num_zero
  else
    let '(dotProduct, normA, normB) := accumulate a b num_zero num_zero num_zero in
    num_div dotProduct (num_mul (num_sqrt normA) (num_sqrt normB)).

End Cosine.

(** *** Searches *)

(** [search(query)], of which only [query.query] and [query.maxResults]
    are read. *)
Definition search (query : string) (maxResults : Z) (documents : Documents)
  : list ISemanticSearchResult :=
  slice_to maxResults
    (flat_map (fun entry =>
       let '(id, doc) := entry in
       if includes (toLowerCase query) (toLowerCase (doc_content doc))
       then [mkResult id (doc_content doc) (decimal 8 10) (doc_embedding doc)]
       else [])
     documents).

Definition similaritySearch (embedding : list number) (topK : Z) (documents : Documents)
  : list ISemanticSearchResult :=
  slice_to topK
    (sort byScoreDescending
       (map (fun entry =>
          let '(id, doc) := entry in
          mkResult id (doc_content doc) (cosineSimilarity embedding (doc_embedding doc))
                   (doc_embedding doc))
        documents)).

(** The first [forEach] of [hybridSearch]. *)
Definition addTextResult (weights : Weights) (combined : JSMap.t ISemanticSearchResult)
    (result : ISemanticSearchResult) : JSMap.t ISemanticSearchResult :=
  JSMap.set (id result) (set_score (mul (score result) (w_text weights)) result) combined.

(** The second [forEach]: [existing.score += ...] changes the result held
    by the map, in its place. *)
Definition addSemanticResult (weights : Weights) (combined : JSMap.t ISemanticSearchResult)
    (result : ISemanticSearchResult) : JSMap.t ISemanticSearchResult :=
  match JSMap.get (id result) combined with
  | Some existing =>
      JSMap.set (id result)
        (set_score (add (score existing) (mul (score result) (w_semantic weights))) existing)
        combined
  | None =>
      JSMap.set (id result) (set_score (mul (score result) (w_semantic weights)) result)
        combined
  end.

(** "Combine and rerank results" *)
Definition combine (textResults semanticResults : list ISemanticSearchResult)
    (weights : Weights) : list ISemanticSearchResult :=
  let combined := fold_left (addTextResult weights) textResults [] in
  let combined := fold_left (addSemanticResult weights) semanticResults combined in
  sort byScoreDescending (JSMap.values combined).

Definition hybridSearch (textQuery : string) (embedding : list number) (weights : Weights)
    (documents : Documents) : list ISemanticSearchResult :=
  let textResults := search textQuery 100 documents in
  let semanticResults := similaritySearch embedding 100 documents in
  combine textResults semanticResults weights.

End MemoryVectorStore.


(* ================================================================== *)
(** * The service facade, continued: requests, providers, conversations *)
(* ================================================================== *)

Module AIServiceRequests.
Import AIErrors AIServiceManager.

Section Requests.

Variable ICodeContext : Type.
(** [JSON.stringify(context, null, 2)], which throws on a value it cannot
    render. *)
Variable JSON_stringify : ICodeContext -> Settled Thrown string.

#[local] Arguments currentContext {ICodeContext} m.
#[local] Arguments activeModelId {ICodeContext} m.
#[local] Arguments providers {ICodeContext} m.
#[local] Arguments mkManager {ICodeContext} providers activeModelId currentContext.
#[local] Arguments mkMessage {ICodeContext} role content context timestamp.
#[local] Arguments getActiveProvider {ICodeContext} registry m.

#[local] Abbreviation Manager := (AIServiceManager.Manager ICodeContext).
#[local] Abbreviation IAIMessage := (AIServiceManager.IAIMessage ICodeContext).








(** *** Provider management *)

(** [registerProvider]; [this._register(provider)] only ties the
    provider's disposal to the manager's. *)
Definition registerProvider (provider : IAIServiceProvider) (m : Manager) : Manager :=
  mkManager (JSMap.set (provider_id provider) provider (providers m))
            (activeModelId m) (currentContext m).

(** [unregisterProvider]; the call [provider.dispose()] is the provider's
    own business. *)
Definition unregisterProvider (providerId : string) (m : Manager) : Manager :=
  match JSMap.get providerId (providers m) with
  | Some _ =>
      mkManager (JSMap.delete providerId (providers m))
                (activeModelId m) (currentContext m)
  | None => m
  end.

(** [isAvailable] *)
Definition isAvailable (m : Manager) : bool :=
  (0 <? JSMap.size (providers m))%nat
  && match activeModelId m with Some _ => true | None => false end.

(** [getAvailableModels] *)
Definition getAvailableModels (registry : MCS.Registry) : list (string * string) :=
  map (fun config => (MCS.id config, MCS.name config)) (MCS.getAllConfigurations registry).

(** *** Conversations *)

Record IAIConversation : Type := mkConversation {
  conversation_id : string;
  messages : list IAIMessage;
  conversation_modelId : string;
  createdAt : Z;
  updatedAt : Z
}.

Definition Conversations : Type := JSMap.t IAIConversation.

(** [createConversation]; [generatedId] is what [generateId()] returns
    (a random string and the time), [createdAt] and [updatedAt] the two
    readings of [Date.now()]. *)
Definition createConversation (generatedId : string) (created updated : Z) (m : Manager)
    (conversations : Conversations) : string * Conversations :=
  let conversation :=
    mkConversation generatedId []
      (string_or (activeModelId m) "") created updated in
  (generatedId, JSMap.set generatedId conversation conversations).

Definition getConversation (id : string) (conversations : Conversations)
  : option IAIConversation :=
  JSMap.get id conversations.

Definition deleteConversation (id : string) (conversations : Conversations) : Conversations :=
  JSMap.delete id conversations.

Definition getConversations (conversations : Conversations) : list IAIConversation :=
  JSMap.values conversations.

End Requests.

End AIServiceRequests.


(* ================================================================== *)
(** * The model configuration registry, continued: the connection test *)
(* ================================================================== *)

Module ModelConnectionTest.
Import AIErrors ModelConfigurationService.

(** [secretStorageService.get(SECRET_KEY_PREFIX + key)], as a function of
    [key]: the state of the secret store when the test runs. *)
Definition SecretStore : Type := string -> option string.

(** How [fetch(config.endpoint, ...)] ends: a response with its [ok]
    flag, status and status text, or a rejection, with the [message] of
    the error when it is an [Error]. *)
Inductive FetchOutcome : Type :=
| Responded (ok : bool) (status : Z) (statusText : string)
| FetchRejected (errorMessage : option string).

Section Test.

Variable parsesAsURL : string -> bool.
(** How a template literal renders a number. *)
Variable numberToString : Z -> string.
Variable secrets : SecretStore.
(** The outcome of the request sent to an endpoint. *)
Variable fetch : string -> FetchOutcome.

(** [decryptApiKey] *)
Definition decryptApiKey (encryptedKey : string) : Settled AIError string :=
  match secrets encryptedKey with
  | Some apiKey =>
      if truthy_string apiKey then Fulfilled apiKey
      else Rejected (newAIError AUTHENTICATION_FAILED "API key not found")
  | None => Rejected (newAIError AUTHENTICATION_FAILED "API key not found")
  end.

(** The providers the [switch] of [testModelConnection] has a request
    for. *)
Definition supported_provider (provider : string) : bool :=
  String.eqb provider "ollama" || String.eqb provider "lmstudio"
  || String.eqb provider "openai" || String.eqb provider "anthropic".

(** [private async testModelConnection(config)]; of its result the
    [capabilities] are left out, as in [ProbeResult]. *)
Definition testModelConnection (config : IModelConfiguration) : ProbeResult :=
  match (match apiKey config with
         | Some k => if truthy_string k then decryptApiKey k else Fulfilled k
         | None => Fulfilled ""
         end) with
  | Rejected e => mkProbe false (Some (message e))
  | Fulfilled _ =>
      if supported_provider (provider config)
      then match fetch (endpoint config) with
           | Responded true _ _ => mkProbe true None
           | Responded false status statusText =>
               mkProbe false
                 (Some ("HTTP " ++ numberToString status ++ ": " ++ statusText)%string)
           | FetchRejected (Some m) => mkProbe false (Some m)
           | FetchRejected None => mkProbe false (Some "Connection test failed")
           end
      else mkProbe false (Some "Unsupported provider")
  end.

(** [addConfiguration] and [updateConfiguration] with the connection test
    they run. *)
Definition addConfigurationTested (config : IModelConfiguration) (r : Registry)
  : Settled AIError unit * Registry * list Effect :=
  addConfiguration parsesAsURL (testModelConnection config) config r.

Definition updateConfigurationTested (modelId : string) (updates : PartialConfiguration)
    (r : Registry) : Settled AIError unit * Registry * list Effect :=
  match JSMap.get modelId (configurations r) with
  | Some existing =>
      updateConfiguration parsesAsURL (testModelConnection (spread existing updates))
        modelId updates r
  | None => updateConfiguration parsesAsURL (mkProbe false None) modelId updates r
  end.

End Test.

(** *** Sequences of the four mutations *)

Inductive Mutation : Type :=
| MutAdd (probe : ProbeResult) (config : IModelConfiguration)
| MutUpdate (probe : ProbeResult) (modelId : string) (updates : PartialConfiguration)
| MutRemove (modelId : string)
| MutSetDefault (modelId : string).

Definition mutate (parsesAsURL : string -> bool) (op : Mutation) (r : Registry)
  : Settled AIError unit * Registry * list Effect :=
  match op with
  | MutAdd probe config => addConfiguration parsesAsURL probe config r
  | MutUpdate probe modelId updates =>
      updateConfiguration parsesAsURL probe modelId updates r
  | MutRemove modelId => removeConfiguration modelId r
  | MutSetDefault modelId => setDefaultModel modelId r
  end.

(** The registry after a sequence of mutations, each fulfilled or
    rejected. *)
Definition run (parsesAsURL : string -> bool) (ops : list Mutation) (r : Registry)
  : Registry :=
  fold_left (fun r op => snd (fst (mutate parsesAsURL op r))) ops r.

End ModelConnectionTest.


(* ================================================================== *)
(** * The workflows of [AIService], continued *)
(* ================================================================== *)

Module AIServiceWorkflows.
Import AIErrors AIWorkflows.

(** [clearConversationMemory] *)
Definition clearConversationMemory (conversationId : string) (memory : ConversationMemory)
  : ConversationMemory :=
  JSMap.delete conversationId memory.

(** ** [executeHITLWorkflow] *)

(** What [humanCallback] resolves to. *)
Record HumanDecision : Type := mkDecision {
  approved : bool;
  feedback : option string
}.

(** The calls the workflow makes, in program order: [this.chat(messages)]
    and [humanCallback(aiResponse, { attempt })]. *)
Inductive HITLEvent : Type :=
| Chat (messages : list IAIMessage)
| Review (aiResponse : string) (attempt : nat).

Definition quote : string := String (ascii_of_nat 34) EmptyString.

Definition refinementPrompt (task feedback previous : string) : string :=
  "Please improve your previous response based on this feedback: " ++ quote ++ feedback
  ++ quote ++ newline ++ newline ++ "Original task: " ++ task ++ newline
  ++ "Previous response: " ++ previous.

Definition maxAttempts : nat := 3.

Section HITL.

(** The answer of [this.chat] to its [calls]-th call of the workflow. *)
Variable chat : nat -> list IAIMessage -> Settled Thrown IChatResponse.
Variable humanCallback : string -> nat -> Settled Thrown HumanDecision.
Variable task : string.

(** The [while (attempts < maxAttempts)] loop; [remaining] is
    [maxAttempts - attempts] and [calls] the number of calls of
    [this.chat] so far. *)
Fixpoint reviewLoop (remaining attempts calls : nat) (currentResponse : IChatResponse)
  : Settled Thrown string * list HITLEvent :=
  match remaining with
  | O => (Fulfilled (response_content currentResponse), [])
  | S remaining' =>
      let review := Review (response_content currentResponse) (attempts + 1) in
      match humanCallback (response_content currentResponse) (attempts + 1) with
      | Rejected t => (Rejected t, [review])
      | Fulfilled humanDecision =>
          if approved humanDecision
          then (Fulfilled (response_content currentResponse), [review])
          else
            let refine :=
              match feedback humanDecision with
              | Some f =>
                  if truthy_string f && (attempts <? maxAttempts - 1)%nat
                  then Some [mkMessage system
                               "You are improving your response based on human feedback. Address the concerns raised.";
                             mkMessage user
                               (refinementPrompt task f (response_content currentResponse))]
                  else None
              | None => None
              end in
            match refine with
            | Some messages =>
                match chat calls messages with
                | Rejected t => (Rejected t, [review; Chat messages])
                | Fulfilled refined =>
                    let '(result, fx) :=
                      reviewLoop remaining' (S attempts) (S calls) refined in
                    (result, review :: Chat messages :: fx)
                end
            | None =>
                let '(result, fx) :=
                  reviewLoop remaining' (S attempts) calls currentResponse in
                (result, review :: fx)
            end
      end
  end.

Definition executeHITLWorkflow : Settled Thrown string * list HITLEvent :=
  let messages :=
    [mkMessage system
       "You are a collaborative AI assistant working with a human. Provide high-quality responses that can be reviewed and refined.";
     mkMessage user task] in
  match chat 0 messages with
  | Rejected t => (Rejected t, [Chat messages])
  | Fulfilled currentResponse =>
      let '(result, fx) := reviewLoop maxAttempts 0 1 currentResponse in
      (result, Chat messages :: fx)
  end.

End HITL.

(** ** [executeBatchWorkflow] *)

(** [array.slice(start, end)] for integers [start] and [end]: a negative
    index counts from the end. *)
Definition slice {A : Type} (start last : Z) (l : list A) : list A :=
  let len := Z.of_nat (List.length l) in
  let from := if (start <? 0)%Z then Z.max (len + start) 0 else Z.min start len in
  let to := if (last <? 0)%Z then Z.max (len + last) 0 else Z.min last len in
  firstn (Z.to_nat (to - from)) (skipn (Z.to_nat from) l).

Section Batch.

Variable Item : Type.
(** The promise [processor(item)] returns, settled; the processor is taken
    not to throw before it returns its promise. *)
Variable processor : Item -> Settled Thrown string.
(** Of the rejections of one batch, the one [Promise.all] rejects with:
    that of the promise that rejects first. *)
Variable earliest : list Thrown -> Thrown.

Inductive BatchEvent : Type :=
| Process (item : Item)
| Sleep (ms : Z).

Fixpoint fulfilled (outcomes : list (Settled Thrown string)) : list string :=
  match outcomes with
  | [] => []
  | Fulfilled v :: rest => v :: fulfilled rest
  | Rejected _ :: rest => fulfilled rest
  end.

Fixpoint rejected (outcomes : list (Settled Thrown string)) : list Thrown :=
  match outcomes with
  | [] => []
  | Fulfilled _ :: rest => rejected rest
  | Rejected t :: rest => t :: rejected rest
  end.

(** [Promise.all] *)
Definition Promise_all (outcomes : list (Settled Thrown string))
  : Settled Thrown (list string) :=
  match rejected outcomes with
  | [] => Fulfilled (fulfilled outcomes)
  | t :: ts => Rejected (earliest (t :: ts))
  end.

Variable items : list Item.
Variable batchSize : Z.

(** The [for] loop, given a number of iterations it may take; [None] when
    they do not suffice. *)
Fixpoint batchLoop (fuel : nat) (i : Z) (results : list string)
  : option (Settled Thrown (list string) * list BatchEvent) :=
  match fuel with
  | O => None
  | S fuel' =>
      if (i <? Z.of_nat (List.length items))%Z
      then
        let batch := slice i (i + batchSize) items in
        let calls := map Process batch in
        match Promise_all (map processor batch) with
        | Rejected t => Some (Rejected t, calls)
        | Fulfilled batchResults =>
            let results := results ++ batchResults in
            let sleep :=
              if (i + batchSize <? Z.of_nat (List.length items))%Z
              then [Sleep 1000] else [] in
            match batchLoop fuel' (i + batchSize) results with
            | Some (result, fx) => Some (result, calls ++ sleep ++ fx)
            | None => None
            end
        end
      else Some (Fulfilled results, [])
  end.

Definition executeBatchWorkflow (fuel : nat)
  : option (Settled Thrown (list string) * list BatchEvent) :=
  batchLoop fuel 0 [].

End Batch.

Arguments Process {Item} item.
Arguments Sleep {Item} ms.

End AIServiceWorkflows.


(* ================================================================== *)
(** * The in-memory vector store, continued *)
(* ================================================================== *)

Module VectorStoreDocuments.
Import AIErrors JSNumber MemoryVectorStore.

(** [new Error(`Document ${documentId} not found`)] *)
Definition notFound (documentId : string) : Thrown :=
  ThrownObject (mkRawError None (Some ("Document " ++ documentId ++ " not found")%string)).

(** [addDocuments]; [generated i] is the id made up from the clock and
    [Math.random()] for the [i]-th document of the call. *)
Fixpoint addLoop (generated : nat -> string) (i : nat)
    (documents : list ICategorizedContext) (store : Documents)
  : list string * Documents :=
  match documents with
  | [] => ([], store)
  | doc :: rest =>
      let id := generated i in
      let '(ids, store') := addLoop generated (S i) rest (JSMap.set id doc store) in
      (id :: ids, store')
  end.

Definition addDocuments (generated : nat -> string)
    (documents : list ICategorizedContext) (store : Documents)
  : list string * Documents :=
  addLoop generated 0 documents store.

Definition updateDocument (documentId : string) (document : ICategorizedContext)
    (store : Documents) : Settled Thrown unit * Documents :=
  if JSMap.has documentId store
  then (Fulfilled tt, JSMap.set documentId document store)
  else (Rejected (notFound documentId), store).

Definition deleteDocument (documentId : string) (store : Documents) : Documents :=
  JSMap.delete documentId store.

Definition getDocument (documentId : string) (store : Documents)
  : Settled Thrown ICategorizedContext :=
  match JSMap.get documentId store with
  | Some doc => Fulfilled doc
  | None => Rejected (notFound documentId)
  end.

Definition getDocumentCount (store : Documents) : nat := JSMap.size store.

(** The loop of [getRecommendations], for an integer [count]: the [break]
    is looked at only after a candidate has been pushed. *)
Fixpoint recommendLoop (documentId : string) (doc : ICategorizedContext) (count : Z)
    (entries : Documents) (recommendations : list ICategorizedContext)
  : list ICategorizedContext :=
  match entries with
  | [] => recommendations
  | (id, candidate) :: rest =>
      if negb (String.eqb id documentId)
         && String.eqb (doc_category candidate) (doc_category doc)
      then
        let recommendations := recommendations ++ [candidate] in
        if (count <=? Z.of_nat (List.length recommendations))%Z
        then recommendations
        else recommendLoop documentId doc count rest recommendations
      else recommendLoop documentId doc count rest recommendations
  end.

Definition getRecommendations (documentId : string) (count : Z) (store : Documents)
  : Settled Thrown (list ICategorizedContext) :=
  match JSMap.get documentId store with
  | Some doc => Fulfilled (recommendLoop documentId doc count store [])
  | None => Rejected (notFound documentId)
  end.

End VectorStoreDocuments.


(* ================================================================== *)
(** * Auxiliary definitions for the statements: the specification's
      formulas as it words them, expected traces, and sample inputs *)
(* ================================================================== *)

Module RetrySamples.
Import AIErrors AIServiceManager.

(** The delay the specification's formula gives for the sleep before
    attempt [k], attempts counted from 1: [min(baseDelay * 2^(k-1), 30000)]. *)
Definition stated_delay (error : AIError) (k : nat) : Z :=
  Z.min (baseDelay error * 2 ^ (Z.of_nat k - 1)) 30000.

(** An operation that times out on every call. *)
Definition always_times_out : nat -> Settled Thrown unit :=
  fun _ => Rejected (ThrownAIError (timeout NoDetails)).

(** The effects of the retry loop from iteration [attempt] on, when [fuel]
    iterations remain and every attempt fails with the retryable error
    [classified attempt]. *)
Fixpoint expected_effects (classified : nat -> AIError) (fuel attempt : nat)
  : list Effect :=
  match fuel with
  | O => []
  | S O => [Invoke attempt]
  | S fuel' =>
      Invoke attempt :: Delay (getRetryDelay (classified attempt) attempt)
        :: expected_effects classified fuel' (S attempt)
  end.


End RetrySamples.

Module ManagerSamples.
Import AIErrors AIServiceManager.

(** A registry with one configuration, served by a registered provider. *)
Definition sample_config : MCS.IModelConfiguration :=
  MCS.mkConfig "m1" "Model one" MCS.local "ollama" "http://localhost:11434/api/generate"
               None "llama3.1" true true.

Definition sample_registry : MCS.Registry :=
  MCS.mkRegistry [("m1", sample_config)] (Some "m1").

Definition sample_provider : IAIServiceProvider := mkProvider "ollama" "Ollama".

(** The editor snapshot is immaterial here: the unit type stands for it. *)
Definition sample_manager : Manager unit :=
  mkManager unit [("ollama", sample_provider)] (Some "m1") None.






End ManagerSamples.

Module RegistrySamples.
Import ModelConfigurationService.

(** Every endpoint of the samples parses as a URL. *)
Definition any_url : string -> bool := fun _ => true.

Definition probe_ok : ProbeResult := mkProbe true None.

Definition config_a : IModelConfiguration :=
  mkConfig "a" "Model A" local "ollama" "http://localhost:11434/api/generate" None
           "llama3.1" true true.

Definition config_b : IModelConfiguration :=
  mkConfig "b" "Model B" local "lmstudio" "http://localhost:1234/v1/chat/completions" None
           "codellama" false true.

(** Two configurations, of which [a] is the default. *)
Definition registry_ab : Registry :=
  mkRegistry [("a", config_a); ("b", config_b)] (Some "a").

(** [{ isDefault: true }] *)
Definition make_default : PartialConfiguration :=
  mkPartial None None None None None None None (Some true) None.

(** How many stored configurations are flagged as default. *)
Definition count_defaults (m : JSMap.t IModelConfiguration) : nat :=
  List.length (filter isDefault (JSMap.values m)).

(** Distinct keys, and at most one configuration flagged as default. *)
Definition invariant (r : Registry) : Prop :=
  JSMap.wf (configurations r) /\ at_most_one_default r.

Definition sample_run : list Operation :=
  [OpAdd probe_ok config_b; OpAdd probe_ok config_a; OpSetDefault "b"; OpRemove "b";
   OpSetDefault "missing"].

End RegistrySamples.

Module FlowSamples.
Import AIErrors AIWorkflows.

(** [{ maxHistory: 2 }] *)
Definition maxHistory_2 : option FlowContext := Some (mkFlowContext (Some 2%Z) None).

(** The last [n] elements of a list. *)
Definition last_n {A : Type} (n : nat) (l : list A) : list A :=
  skipn (List.length l - n) l.

(** The history the specification's sentence describes: of the stored
    history, the system message and the most recent [n] prior turns are
    kept, and then the new user message and the reply are appended. *)
Definition stated_history (stored : list IAIMessage) (n : nat) (message reply : string)
  : list IAIMessage :=
  firstn 1 stored ++ last_n n (tl stored)
  ++ [mkMessage user message; mkMessage assistant reply].

Definition sys : IAIMessage := mkMessage system "You are a helpful AI assistant with conversation memory.".
Definition u1 : IAIMessage := mkMessage user "first question".
Definition a1 : IAIMessage := mkMessage assistant "first answer".
Definition u2 : IAIMessage := mkMessage user "second question".
Definition a2 : IAIMessage := mkMessage assistant "second answer".
Definition u3 : IAIMessage := mkMessage user "third question".
Definition a3 : IAIMessage := mkMessage assistant "third answer".
Definition u4 : IAIMessage := mkMessage user "fourth question".
Definition a4 : IAIMessage := mkMessage assistant "fourth answer".

(** A conversation of a system message and four prior messages, and one
    of a system message and four prior exchanges. *)
Definition memory_4_messages : ConversationMemory := [("c", [sys; u1; a1; u2; a2])].
Definition memory_4_exchanges : ConversationMemory :=
  [("c", [sys; u1; a1; u2; a2; u3; a3; u4; a4])].

(** A chat backend that answers every history alike. *)
Definition chat_ok : list IAIMessage -> Settled Thrown IChatResponse :=
  fun _ => Fulfilled (mkChatResponse "reply").

End FlowSamples.

Module StreamSamples.
Import AIErrors JSString LocalModelService.






Definition quoted (s : string) : jsstring := [34%N] ++ js s ++ [34%N].

Definition early_text : jsstring :=
  js "data: {" ++ quoted "content" ++ js ":" ++ quoted "early" ++ js "}" ++ [10%N].

Definition llama_service : Service :=
  mkService "Llama.cpp" "http://localhost:8080" LlamaCppProvider.

Definition ok_response (texts : list jsstring) : Settled Thrown IRequestContext :=
  Fulfilled (mkRequestContext 200 "OK" (Some (mkTransport texts None))).

End StreamSamples.

Module NumberOrder.
Import JSNumber.
Local Open Scope Z_scope.

(** The least exponent of binary64, -1074. *)
Definition emin64 : Z := emin prec emax.

(** The order of the numbers by the real values they denote.  A finite
    number [(-1)^s * m * 2^e] is measured in units of [2^emin64], which
    makes its value an integer as soon as [emin64 <= e]; the two zeros
    have the same value. *)
Inductive extended : Type := MinusInfinity | Finite (z : Z) | PlusInfinity.

Definition value (x : number) : extended :=
  match x with
  | S754_zero _ | S754_nan => Finite 0
  | S754_infinity false => PlusInfinity
  | S754_infinity true => MinusInfinity
  | S754_finite s m e => Finite (cond_Zopp s (Z.pos m) * 2 ^ (e - emin64))
  end.

Definition extended_lt (a b : extended) : Prop :=
  match a, b with
  | MinusInfinity, MinusInfinity => False
  | MinusInfinity, _ => True
  | Finite x, Finite y => x < y
  | Finite _, PlusInfinity => True
  | _, _ => False
  end.

Definition extended_le (a b : extended) : Prop :=
  match a, b with
  | MinusInfinity, _ => True
  | Finite x, Finite y => x <= y
  | _, PlusInfinity => True
  | _, _ => False
  end.

(** [x <= y] on numbers that are not NaN. *)
Definition number_le (x y : number) : Prop := extended_le (value x) (value y).

(** A number that is not NaN and whose exponent, when it is finite, is in
    the range of binary64. *)
Definition regular (x : number) : Prop :=
  match x with
  | S754_nan => False
  | S754_finite _ _ e => emin64 <= e
  | _ => True
  end.

Definition regular_or_nan (x : number) : Prop :=
  match x with
  | S754_finite _ _ e => emin64 <= e
  | _ => True
  end.

(** The real number that a finite number denotes; 0 for the others. *)
Definition to_real (x : number) : R :=
  match x with
  | S754_finite s m e => (IZR (cond_Zopp s (Z.pos m)) * powerRZ 2 e)%R
  | _ => 0%R
  end.

(** [2^-52], which bounds the relative distance between a real number in
    the range of the normal numbers and the normal numbers next to it. *)
Definition unit_roundoff : R := (/ 4503599627370496)%R.

End NumberOrder.

Module VectorSamples.
Import JSNumber MemoryVectorStore NumberOrder.

(** A vector all of whose components are zero (of either sign); the empty
    vector is one. *)
Definition all_zero (v : list number) : bool := forallb is_zero v.

(** A number that is a zero or NaN. *)
Definition zero_or_nan (x : number) : bool := is_zero x || isNaN x.

(** The sum of squares that [cosineSimilarity] accumulates for a vector. *)
Definition sum_of_squares {num : Type} {arith : Arithmetic num} (v : list num) : num :=
  fold_left (fun acc x => num_add acc (num_mul x x)) v num_zero.

(** The number 1. *)
Definition one : number := ofZ 1.

(** Within one millionth of 1: the floating tolerance of the
    specification, read generously.  False on NaN. *)
Definition close_to_one (x : number) : bool :=
  SFleb (decimal 999999 1000000) x && SFleb x (decimal 1000001 1000000).

(** A normal number from [2^-1021] up to [2^1020]: positive, with a
    mantissa of 53 bits, and an exponent that keeps its square root, the
    square of that root and their quotient normal numbers too. *)
Definition moderate (x : number) : bool :=
  match x with
  | S754_finite false m e =>
      ((2 ^ 52 <=? Z.pos m) && (Z.pos m <? 2 ^ 53) && (-1073 <=? e) && (e <=? 967))%Z
  | _ => false
  end.

(** The vector with the single component [1e200]. *)
Definition huge : list number := [ofZ (10 ^ 200)].

(** The vector with the single component [2^-600], whose square underflows
    to zero. *)
Definition tiny : list number := [div (ofZ 1) (ofZ (2 ^ 600))].

(** The result [similaritySearch] computes for a stored document. *)
Definition scored (embedding : list number) (entry : string * ICategorizedContext)
  : ISemanticSearchResult :=
  mkResult (fst entry) (doc_content (snd entry))
    (cosineSimilarity embedding (doc_embedding (snd entry))) (doc_embedding (snd entry)).

(** Three documents, and the store that holds them in this order: the
    first is orthogonal to the query [1, 0], the second points the way of
    the query, and the third has the zero vector as embedding. *)
Definition doc_across : ICategorizedContext := mkDocument "code_context" "across" [zero; ofZ 1].
Definition doc_along : ICategorizedContext := mkDocument "code_context" "along" [ofZ 1; zero].
Definition doc_null : ICategorizedContext := mkDocument "code_context" "null" [zero; zero].

Definition three_documents : Documents :=
  [("across", doc_across); ("along", doc_along); ("null", doc_null)].

(** A store with one document, whose embedding is the zero vector. *)
Definition zero_document : Documents :=
  [("doc_z", mkDocument "code_context" "empty file" [zero; zero])].

End VectorSamples.

Module HybridSamples.
Import JSNumber MemoryVectorStore NumberOrder.

(** The result with a given id. *)
Definition find_result (key : string) (results : list ISemanticSearchResult)
  : option ISemanticSearchResult :=
  find (fun r => String.eqb (id r) key) results.

(** The score the specification gives an id: [textScore * w_text +
    semanticScore * w_semantic] when both sets hold it, the one score times
    its weight when one set does. *)
Definition stated_score (textResults semanticResults : list ISemanticSearchResult)
    (weights : Weights) (key : string) : option number :=
  match find_result key textResults, find_result key semanticResults with
  | Some t, Some s =>
      Some (add (mul (score t) (w_text weights)) (mul (score s) (w_semantic weights)))
  | Some t, None => Some (mul (score t) (w_text weights))
  | None, Some s => Some (mul (score s) (w_semantic weights))
  | None, None => None
  end.

(** [p] may stand before [q] in a list sorted by descending score. *)
Definition descending (p q : ISemanticSearchResult) : Prop :=
  number_le (score q) (score p).

(** Every entry of the map of combined results is stored under its id. *)
Definition keyed (m : JSMap.t ISemanticSearchResult) : Prop :=
  Forall (fun entry => id (snd entry) = fst entry) m.

Definition scores_regular_or_nan (m : JSMap.t ISemanticSearchResult) : Prop :=
  Forall (fun entry => regular_or_nan (score (snd entry))) m.

(** The invariant of the map of combined results. *)
Definition combined_ok (m : JSMap.t ISemanticSearchResult) : Prop :=
  JSMap.wf m /\ keyed m /\ scores_regular_or_nan m.

(** The example of the specification: text results [{(id1, 0.8)}],
    semantic results [{(id1, 0.6), (id2, 0.5)}], weights 1 and 1. *)
Definition example_text : list ISemanticSearchResult :=
  [mkResult "id1" "first" (decimal 8 10) []].
Definition example_semantic : list ISemanticSearchResult :=
  [mkResult "id1" "first" (decimal 6 10) []; mkResult "id2" "second" (decimal 5 10) []].
Definition unit_weights : Weights := mkWeights (ofZ 1) (ofZ 1).

(** A store on which the two searches return the result sets of the
    example: the query text matches the first document only, and the
    cosine similarities to the query embedding are 3/5 and 1/2. *)
Definition example_documents : Documents :=
  [("id1", mkDocument "code_context" "Foo bar" [ofZ 3; ofZ 4; zero; zero]);
   ("id2", mkDocument "code_context" "baz" [ofZ 1; ofZ 1; ofZ 1; ofZ 1])].
Definition example_embedding : list number := [ofZ 1; zero; zero; zero].

(** A store whose second document has a zero embedding. *)
Definition documents_with_zero : Documents :=
  [("A", mkDocument "code_context" "alpha" [ofZ 1; ofZ 1]);
   ("B", mkDocument "code_context" "beta" [zero; zero]);
   ("C", mkDocument "code_context" "gamma" [ofZ 1; zero])].

End HybridSamples.


(* ================================================================== *)
(** * Auxiliary definitions for the further statements *)
(* ================================================================== *)

Module RequestSamples.
Import AIErrors AIServiceManager.

(** The sleeps of a trace, in order. *)
Definition delays (fx : list Effect) : list Z :=
  flat_map (fun e => match e with Delay ms => [ms] | _ => [] end) fx.

(** The attempts of a trace, in order. *)
Definition invoked (fx : list Effect) : list nat :=
  flat_map (fun e => match e with Invoke i => [i] | _ => [] end) fx.



(** A raw error whose [code] is one of the three the classifiers know. *)
Definition network_code (r : RawError) : bool :=
  optional_string_is (raw_code r) "ECONNREFUSED"
  || optional_string_is (raw_code r) "ENOTFOUND"
  || optional_string_is (raw_code r) "ETIMEDOUT".

(** The trace of the retry loop from iteration [attempt] on, when its next
    [n] attempts fail with the retryable errors [classified] and the
    attempt after them ends the loop. *)
Fixpoint retried (classified : nat -> AIError) (n attempt : nat) : list Effect :=
  match n with
  | O => [Invoke attempt]
  | S n' =>
      Invoke attempt :: Delay (getRetryDelay (classified attempt) attempt)
        :: retried classified n' (S attempt)
  end.

(** An effect of the retry loop itself: a call or a sleep. *)
Definition call_or_sleep (e : Effect) : bool :=
  match e with Invoke _ | Delay _ => true | _ => false end.

(** An operation that fails twice with a connection error and then
    answers. *)
Definition answers_third (answer : IAIResponse) : nat -> Settled Thrown IAIResponse :=
  fun i => if (i <? 2)%nat then Rejected (ThrownAIError (connectionFailed NoDetails))
           else Fulfilled answer.

Definition sample_answer : IAIResponse := mkResponse "done" (JSNumber.decimal 8 10).

(** A failure that is no [AIError] and carries no code. *)
Definition plain_failure : RawError := mkRawError None (Some "boom").


(** The codes [getActiveProvider] rejects with. *)
Definition resolution_code (c : AIErrorCode) : bool :=
  match c with
  | CONFIGURATION_ERROR | MODEL_NOT_FOUND | SERVICE_UNAVAILABLE => true
  | _ => false
  end.

End RequestSamples.

Module RegistryMoreSamples.
Import AIErrors ModelConfigurationService ModelConnectionTest RegistrySamples.

(** Every configuration is stored under its own id. *)
Definition keyed (r : Registry) : Prop :=
  Forall (fun kc => id (snd kc) = fst kc) (configurations r).

(** No stored configuration holds an API key in plain text. *)
Definition no_plain_key (c : IModelConfiguration) : bool :=
  match apiKey c with Some k => negb (truthy_string k) | None => true end.

Definition no_plain_keys (r : Registry) : bool :=
  forallb no_plain_key (JSMap.values (configurations r)).

(** An update that leaves the id alone. *)
Definition keeps_id (op : Mutation) : bool :=
  match op with
  | MutUpdate _ modelId updates =>
      match p_id updates with Some i => String.eqb i modelId | None => true end
  | _ => true
  end.

(** Distinct non-empty keys, every configuration under its own id. *)
Definition well_keyed (m : JSMap.t IModelConfiguration) : Prop :=
  JSMap.wf m
  /\ Forall (fun kc => id (snd kc) = fst kc) m
  /\ Forall (fun k => truthy_string k = true) (JSMap.keys m).

(** The default model is tracked: distinct non-empty keys, every
    configuration under its own id, and a default id that names a stored
    configuration whenever there is one to name. *)
Definition tracks_default (r : Registry) : Prop :=
  JSMap.wf (configurations r)
  /\ keyed r
  /\ Forall (fun k => truthy_string k = true) (JSMap.keys (configurations r))
  /\ match defaultModelId r with
     | Some d => In d (JSMap.keys (configurations r))
     | None => configurations r = []
     end.

(** The configuration [addConfiguration] stores: the one it is given,
    without its API key when it has one. *)
Definition stripped (config : IModelConfiguration) : IModelConfiguration :=
  match apiKey config with
  | Some k => if truthy_string k then set_apiKey None config else config
  | None => config
  end.

(** Whether a mutation is a removal. *)
Definition is_remove (op : Mutation) : bool :=
  match op with MutRemove _ => true | _ => false end.

(** A registry of one configuration, and a run of all four mutations on
    it. *)
Definition registry_a : Registry := mkRegistry [("a", config_a)] (Some "a").

Definition set_model : PartialConfiguration :=
  mkPartial None None None None None None (Some "llama3.2") None None.

Definition set_key : PartialConfiguration :=
  mkPartial None None None None None (Some "sk-2") None None None.

(** A secret store without entries, and a network that answers every
    request. *)
Definition no_secrets : SecretStore := fun _ => None.
Definition always_ok : string -> FetchOutcome := fun _ => Responded true 200 "OK".

Definition config_llamacpp : IModelConfiguration :=
  mkConfig "l" "Llama" local "llamacpp" "http://localhost:8080/completion" None
           "llama" false true.

Definition config_with_key : IModelConfiguration :=
  mkConfig "c" "Cloud" cloud "openai" "https://api.openai.com/v1/chat/completions"
           (Some "sk-1") "gpt-4" false true.

Definition sample_mutations : list Mutation :=
  [MutAdd probe_ok config_with_key; MutUpdate probe_ok "a" set_key;
   MutSetDefault "c"; MutRemove "c"; MutUpdate probe_ok "a" set_model;
   MutRemove "a"; MutAdd probe_ok config_b].

End RegistryMoreSamples.

Module WorkflowSamples.
Import AIErrors AIWorkflows AIServiceWorkflows FlowSamples.

(** The limit [executeConversationFlow] works with and the system message
    it opens a conversation with. *)
Definition effective_maxHistory (context : option FlowContext) : Z :=
  number_or (match context with Some c => maxHistory c | None => None end) 10.

Definition opening (context : option FlowContext) : IAIMessage :=
  mkMessage system
    (string_or (match context with Some c => systemPrompt c | None => None end)
               "You are a helpful AI assistant with conversation memory.").

(** The history a message is added to: the stored one, or the opening
    message when nothing is stored. *)
Definition prior (conversationId : string) (context : option FlowContext)
    (memory : ConversationMemory) : list IAIMessage :=
  match getConversationHistory conversationId memory with
  | [] => [opening context]
  | h => h
  end.

(** What [executeConversationFlow] sends to the backend when the limit
    is positive: the first message of the history, the most recent
    messages of the rest, one fewer than the limit, and the new message. *)
Definition window (conversationId message : string) (context : option FlowContext)
    (memory : ConversationMemory) : list IAIMessage :=
  firstn 1 (prior conversationId context memory)
  ++ last_n (Z.to_nat (effective_maxHistory context) - 1)
       (tl (prior conversationId context memory))
  ++ [mkMessage user message].

(** The reviews and the number of chats of a trace of
    [executeHITLWorkflow]. *)
Fixpoint reviews (fx : list HITLEvent) : list (string * nat) :=
  match fx with
  | [] => []
  | Review aiResponse attempt :: rest => (aiResponse, attempt) :: reviews rest
  | Chat _ :: rest => reviews rest
  end.

Fixpoint chats (fx : list HITLEvent) : nat :=
  match fx with
  | [] => 0
  | Chat _ :: rest => S (chats rest)
  | Review _ _ :: rest => chats rest
  end.

(** The items processed and the number of sleeps of a trace of
    [executeBatchWorkflow]. *)
Fixpoint processed {Item : Type} (fx : list (BatchEvent Item)) : list Item :=
  match fx with
  | [] => []
  | Process item :: rest => item :: processed rest
  | Sleep _ :: rest => processed rest
  end.

Fixpoint sleeps {Item : Type} (fx : list (BatchEvent Item)) : nat :=
  match fx with
  | [] => 0
  | Sleep _ :: rest => S (sleeps rest)
  | Process _ :: rest => sleeps rest
  end.

(** A human who asks for changes twice and then approves. *)
Definition third_time_lucky (aiResponse : string) (attempt : nat)
  : Settled Thrown HumanDecision :=
  Fulfilled (mkDecision (3 <=? attempt)%nat (Some "shorter")).

Definition numbered_chat (calls : nat) (messages : list IAIMessage)
  : Settled Thrown IChatResponse :=
  Fulfilled (mkChatResponse (match calls with
                             | 0 => "draft"
                             | 1 => "second draft"
                             | _ => "third draft"
                             end)%nat).

Definition shout (item : string) : Settled Thrown string :=
  Fulfilled (item ++ "!")%string.

End WorkflowSamples.

Module StoreSamples.
Import AIErrors JSNumber MemoryVectorStore VectorStoreDocuments.

(** The documents another document may be recommended with: those of its
    category under another id, in the order of insertion. *)
Definition candidates (documentId : string) (doc : ICategorizedContext)
    (store : Documents) : list ICategorizedContext :=
  map snd
    (filter (fun entry => negb (String.eqb (fst entry) documentId)
                          && String.eqb (doc_category (snd entry)) (doc_category doc))
       store).

Definition doc_x : ICategorizedContext := mkDocument "code" "let x = 1" [ofZ 1; ofZ 0].
Definition doc_y : ICategorizedContext := mkDocument "code" "let y = 2" [ofZ 0; ofZ 1].
Definition doc_z : ICategorizedContext := mkDocument "docs" "readme" [ofZ 1; ofZ 1].
Definition doc_w : ICategorizedContext := mkDocument "code" "let w = 3" [ofZ 3; ofZ 1].

Definition store_xyzw : Documents :=
  [("x", doc_x); ("y", doc_y); ("z", doc_z); ("w", doc_w)].

(** Ids [doc_0], [doc_1], ... *)
Definition numbered (i : nat) : string :=
  ("doc_" ++ String (ascii_of_nat (48 + i)) EmptyString)%string.

End StoreSamples.


(* ================================================================== *)
(** * Properties of maps *)
(* ================================================================== *)

Module JSMapFacts.

Lemma keys_set : forall (V : Type) k (v : V) m,
  forall k', In k' (JSMap.keys (JSMap.set k v m)) -> k' = k \/ In k' (JSMap.keys m).
Proof.
  induction m as [|[k0 v0] m IH]; cbn; intros k' H.
  - destruct H as [<-|[]]. now left.
  - destruct (String.eqb_spec k0 k) as [->|Hne]; cbn in H.
    + destruct H as [<-|H]; auto.
    + destruct H as [<-|H]; auto. destruct (IH _ H); auto.
Qed.

Lemma wf_set : forall (V : Type) k (v : V) m, JSMap.wf m -> JSMap.wf (JSMap.set k v m).
Proof.
  unfold JSMap.wf. induction m as [|[k0 v0] m IH]; cbn; intros Hwf.
  - constructor; [intros []|constructor].
  - inversion Hwf as [|? ? Hnotin Hnd]; subst.
    destruct (String.eqb_spec k0 k) as [->|Hne]; cbn.
    + constructor; assumption.
    + constructor; [|now apply IH].
      intros Hin. destruct (keys_set _ _ _ _ _ Hin) as [->|Hin']; [now apply Hne|].
      now apply Hnotin.
Qed.

Lemma keys_delete : forall (V : Type) k (m : JSMap.t V) k',
  In k' (JSMap.keys (JSMap.delete k m)) -> In k' (JSMap.keys m).
Proof.
  induction m as [|[k0 v0] m IH]; cbn; intros k' H; [assumption|].
  destruct (String.eqb k0 k); cbn in *; [now right|].
  destruct H as [<-|H]; auto.
Qed.

Lemma wf_delete : forall (V : Type) k (m : JSMap.t V),
  JSMap.wf m -> JSMap.wf (JSMap.delete k m).
Proof.
  unfold JSMap.wf. induction m as [|[k0 v0] m IH]; cbn; intros Hwf; [assumption|].
  inversion Hwf as [|? ? Hnotin Hnd]; subst.
  destruct (String.eqb k0 k); cbn; [assumption|].
  constructor; [|now apply IH].
  intros Hin. apply Hnotin. eapply keys_delete; eassumption.
Qed.

Lemma get_set_same : forall (V : Type) k (v : V) m, JSMap.get k (JSMap.set k v m) = Some v.
Proof.
  induction m as [|[k0 v0] m IH]; cbn.
  - now rewrite String.eqb_refl.
  - destruct (String.eqb k0 k) eqn:E; cbn; rewrite E; [reflexivity|assumption].
Qed.

Lemma get_set_other : forall (V : Type) k k' (v : V) m,
  k <> k' -> JSMap.get k' (JSMap.set k v m) = JSMap.get k' m.
Proof.
  intros V k k' v m Hne. induction m as [|[k0 v0] m IH]; cbn.
  - destruct (String.eqb_spec k k'); [contradiction|reflexivity].
  - destruct (String.eqb_spec k0 k) as [->|Hk0]; cbn.
    + destruct (String.eqb_spec k k'); [contradiction|reflexivity].
    + destruct (String.eqb k0 k'); [reflexivity|assumption].
Qed.

Lemma get_In : forall (V : Type) k (v : V) m, JSMap.get k m = Some v -> In (k, v) m.
Proof.
  induction m as [|[k0 v0] m IH]; cbn; intros H; [discriminate|].
  destruct (String.eqb_spec k0 k) as [->|Hne].
  - injection H as ->. now left.
  - right. now apply IH.
Qed.

Lemma In_set : forall (V : Type) k (v : V) m entry,
  In entry (JSMap.set k v m) -> entry = (k, v) \/ In entry m.
Proof.
  induction m as [|[k0 v0] m IH]; cbn; intros entry H.
  - destruct H as [<-|[]]. now left.
  - destruct (String.eqb_spec k0 k) as [->|Hne]; cbn in H.
    + destruct H as [<-|H]; auto.
    + destruct H as [<-|H]; auto. destruct (IH _ H); auto.
Qed.

End JSMapFacts.


(* ================================================================== *)
(** * Properties of the retry wrapper *)
(* ================================================================== *)

Module RetryFacts.
Import AIErrors AIServiceManager RetrySamples.

Section AlwaysFailing.

Context {T : Type}.
Variable operation : nat -> Settled Thrown T.
Variable token : CancellationToken.
Variable maxRetries : nat.
(** The classified error of each attempt. *)
Variable classified : nat -> AIError.

Hypothesis fails_retryably :
  forall i, (i < maxRetries)%nat ->
    exists error, operation i = Rejected error
                  /\ handleError error = Fulfilled (classified i)
                  /\ retryable (classified i) = true.
Hypothesis never_cancelled :
  forall i, (i < maxRetries)%nat -> cancellationRequested token i = false.

(** One iteration of the loop. *)
Lemma retryLoop_step : forall fuel attempt last,
  retryLoop operation token maxRetries (S fuel) attempt last
  = if cancellationRequested token attempt
    then (Rejected (ThrownAIError (newAIError TIMEOUT "Operation cancelled")), [])
    else
      match operation attempt with
      | Fulfilled v => (Fulfilled v, [Invoke attempt])
      | Rejected error =>
          match handleError error with
          | Rejected t => (Rejected t, [Invoke attempt])
          | Fulfilled aiError =>
              if negb (shouldRetry aiError) || (attempt =? maxRetries - 1)%nat
              then (Rejected (ThrownAIError aiError), [Invoke attempt])
              else
                let '(res, fx) :=
                  retryLoop operation token maxRetries fuel (S attempt) error in
                (res, Invoke attempt :: Delay (getRetryDelay aiError attempt) :: fx)
          end
      end.
Proof. reflexivity. Qed.

Lemma retryLoop_always_failing :
  forall fuel attempt last,
    (attempt + S fuel = maxRetries)%nat ->
    retryLoop operation token maxRetries (S fuel) attempt last
    = (Rejected (ThrownAIError (classified (maxRetries - 1))),
       expected_effects classified (S fuel) attempt).
Proof.
  induction fuel as [|fuel IH]; intros attempt last Hsum;
    rewrite retryLoop_step, never_cancelled by lia;
    destruct (fails_retryably attempt) as (error & Hop & Hcls & Hretry); try lia;
    rewrite Hop, Hcls; unfold shouldRetry; rewrite Hretry; cbn [negb orb].
  - replace (attempt =? maxRetries - 1)%nat with true
      by (symmetry; apply Nat.eqb_eq; lia).
    replace (maxRetries - 1)%nat with attempt by lia. reflexivity.
  - replace (attempt =? maxRetries - 1)%nat with false
      by (symmetry; apply Nat.eqb_neq; lia).
    rewrite (IH (S attempt) error) by lia.
    reflexivity.
Qed.

Lemma attempts_expected : forall fuel attempt,
  attempts (expected_effects classified fuel attempt) = fuel.
Proof.
  induction fuel as [|fuel IH]; intro attempt; [reflexivity|].
  destruct fuel as [|fuel]; [reflexivity|].
  change (attempts (expected_effects classified (S (S fuel)) attempt))
    with (S (attempts (expected_effects classified (S fuel) (S attempt)))).
  now rewrite IH.
Qed.

Lemma delay_before_expected : forall fuel attempt k last,
  (1 <= k)%nat -> (k <= fuel)%nat ->
  delay_before (S k) last (expected_effects classified (S fuel) attempt)
  = Some (getRetryDelay (classified (attempt + k - 1)) (attempt + k - 1)).
Proof.
  induction fuel as [|fuel IH]; intros attempt k last Hk1 Hk; [lia|].
  change (expected_effects classified (S (S fuel)) attempt)
    with (Invoke attempt :: Delay (getRetryDelay (classified attempt) attempt)
            :: expected_effects classified (S fuel) (S attempt)).
  cbn [delay_before].
  destruct k as [|[|k]]; [lia| |].
  - destruct fuel; cbn [expected_effects delay_before];
      replace (attempt + 1 - 1)%nat with attempt by lia; reflexivity.
  - destruct fuel as [|fuel]; [lia|].
    change (expected_effects classified (S (S fuel)) (S attempt))
      with (Invoke (S attempt)
              :: Delay (getRetryDelay (classified (S attempt)) (S attempt))
              :: expected_effects classified (S fuel) (S (S attempt))).
    cbn [delay_before].
    specialize (IH (S attempt) (S k) None ltac:(lia) ltac:(lia)).
    change (expected_effects classified (S (S fuel)) (S attempt))
      with (Invoke (S attempt)
              :: Delay (getRetryDelay (classified (S attempt)) (S attempt))
              :: expected_effects classified (S fuel) (S (S attempt))) in IH.
    cbn [delay_before] in IH.
    rewrite IH.
    replace (S attempt + S k - 1)%nat with (attempt + S (S k) - 1)%nat by lia.
    reflexivity.
Qed.

End AlwaysFailing.

(** C1 (amended).  A call through the retry wrapper that is never
    cancelled and fails on each of its [maxRetries >= 1] attempts with a
    retryable error calls the operation exactly [maxRetries] times and then
    rejects with the classified error of the last attempt; the sleep before
    attempt [k] (attempts counted from 1, [2 <= k <= maxRetries]) is
    [min(baseDelay * 2^(k-2), 30000)] milliseconds, [baseDelay] being the
    [retryAfter] (or 1000) of the error of attempt [k-1]. *)
Theorem retry_attempts_and_backoff :
  forall (T : Type) (operation : nat -> Settled Thrown T) (token : CancellationToken)
         (maxRetries : nat) (classified : nat -> AIError),
    (1 <= maxRetries)%nat ->
    (forall i, (i < maxRetries)%nat ->
       exists error, operation i = Rejected error
                     /\ handleError error = Fulfilled (classified i)
                     /\ retryable (classified i) = true) ->
    (forall i, (i < maxRetries)%nat -> cancellationRequested token i = false) ->
    let '(result, effects) := executeWithRetry operation token maxRetries in
    result = Rejected (ThrownAIError (classified (maxRetries - 1)))
    /\ attempts effects = maxRetries
    /\ forall k, (2 <= k <= maxRetries)%nat ->
         delay_before_attempt k effects
         = Some (Z.min (baseDelay (classified (k - 2)) * 2 ^ (Z.of_nat k - 2)) 30000).
Proof.
  intros T operation token maxRetries classified Hpos Hfail Hcancel.
  unfold executeWithRetry.
  destruct maxRetries as [|fuel]; [lia|].
  rewrite (retryLoop_always_failing operation token (S fuel) classified Hfail Hcancel)
    by lia.
  split; [reflexivity|]. split; [apply attempts_expected|].
  intros k Hk. unfold delay_before_attempt.
  destruct k as [|k]; [lia|].
  rewrite delay_before_expected by lia.
  unfold getRetryDelay. cbn [Nat.add].
  replace (S k - 2)%nat with (k - 1)%nat by lia.
  replace (Z.of_nat (k - 1)) with (Z.of_nat (S k) - 2)%Z by lia.
  reflexivity.
Qed.

(** The default of three attempts, on an operation that times out every
    time: three calls, sleeps of 1000 and 2000 ms. *)
Lemma retry_attempts_and_backoff_witness :
  let '(result, effects) := executeWithRetry always_times_out None defaultMaxRetries in
  result = Rejected (ThrownAIError (timeout NoDetails))
  /\ attempts effects = 3%nat
  /\ forall k, (2 <= k <= 3)%nat ->
       delay_before_attempt k effects
       = Some (Z.min (baseDelay (timeout NoDetails) * 2 ^ (Z.of_nat k - 2)) 30000).
Proof.
  apply (retry_attempts_and_backoff unit always_times_out None 3
           (fun _ => timeout NoDetails)).
  - lia.
  - intros i _. exists (ThrownAIError (timeout NoDetails)). repeat split.
  - intros i _. reflexivity.
Defined.

(** C1 as stated fails: with the default of three attempts and an error
    whose [retryAfter] is 1000, the sleep before the second attempt is
    1000 ms, where the stated formula gives [min(1000 * 2^1, 30000) = 2000]. *)
Lemma stated_delay_refuted :
  delay_before_attempt 2 (snd (executeWithRetry always_times_out None defaultMaxRetries))
  = Some 1000%Z
  /\ stated_delay (timeout NoDetails) 2 = 2000%Z
  /\ delay_before_attempt 2 (snd (executeWithRetry always_times_out None defaultMaxRetries))
     <> Some (stated_delay (timeout NoDetails) 2).
Proof.
  split; [reflexivity|]. split; [reflexivity|].
  vm_compute. discriminate.
Qed.

End RetryFacts.


(* ================================================================== *)
(** * Properties of the service facade *)
(* ================================================================== *)

Module ServiceManagerFacts.
Import AIErrors AIServiceManager RetrySamples ManagerSamples.

(** C7.  [switchModel] on an id without a configuration rejects with the
    model-not-found error and leaves the manager, its [activeModelId]
    included, as it was, with no effect at all.  On an id with a
    configuration it either rejects (provider not registered), again
    without any change or effect, or it succeeds, and then the manager
    differs only in [activeModelId], the active-model-changed event is the
    one effect, and the operation of no provider is called. *)
Theorem switchModel_contract :
  forall (ICodeContext : Type) (registry : MCS.Registry) (modelId : string)
         (m : Manager ICodeContext),
    match MCS.getConfiguration modelId registry with
    | None =>
        switchModel ICodeContext registry modelId m
        = (Rejected (ThrownAIError (modelNotFound modelId)), m, [])
        /\ code (modelNotFound modelId) = MODEL_NOT_FOUND
        /\ getActiveModel ICodeContext
             (snd (fst (switchModel ICodeContext registry modelId m)))
           = getActiveModel ICodeContext m
    | Some _ =>
        match switchModel ICodeContext registry modelId m with
        | (Fulfilled _, m', effects) =>
            m' = set_activeModelId ICodeContext (Some modelId) m
            /\ effects = [FireDidChangeActiveModel modelId]
            /\ attempts effects = 0%nat
        | (Rejected _, m', effects) => m' = m /\ effects = []
        end
    end.
Proof.
  intros ICodeContext registry modelId m. unfold switchModel.
  destruct (MCS.getConfiguration modelId registry) as [config|].
  - destruct (JSMap.get (MCS.provider config) (providers ICodeContext m));
      repeat split.
  - repeat split.
Qed.







End ServiceManagerFacts.


(* ================================================================== *)
(** * Properties of the model configuration registry *)
(* ================================================================== *)

Module RegistryFacts.
Import AIErrors ModelConfigurationService RegistrySamples JSMapFacts.

(** *** Counting the configurations flagged as default *)

Lemma count_set : forall k v m,
  (count_defaults (JSMap.set k v m)
   <= count_defaults m + (if isDefault v then 1 else 0))%nat.
Proof.
  unfold count_defaults, JSMap.values. induction m as [|[k0 v0] m IH]; cbn.
  - destruct (isDefault v); cbn; lia.
  - destruct (String.eqb k0 k); cbn.
    + destruct (isDefault v), (isDefault v0); cbn; lia.
    + destruct (isDefault v0); cbn in *; lia.
Qed.

Lemma count_delete : forall k m,
  (count_defaults (JSMap.delete k m) <= count_defaults m)%nat.
Proof.
  unfold count_defaults, JSMap.values. induction m as [|[k0 v0] m IH]; cbn; [lia|].
  destruct (String.eqb k0 k); cbn.
  - destruct (isDefault v0); cbn; lia.
  - destruct (isDefault v0); cbn in *; lia.
Qed.

(** The loop of [setDefaultModel] flags exactly the entries whose key is
    [modelId]; with distinct keys there is at most one. *)
Lemma count_flagged : forall modelId (m : JSMap.t IModelConfiguration),
  JSMap.wf m ->
  (count_defaults
     (map (fun kc => (fst kc, set_isDefault (String.eqb (fst kc) modelId) (snd kc))) m)
   <= 1)%nat.
Proof.
  unfold JSMap.wf, count_defaults. intros modelId.
  assert (Hnone : forall m : JSMap.t IModelConfiguration,
            ~ In modelId (JSMap.keys m) ->
            List.length (filter isDefault (JSMap.values
              (map (fun kc => (fst kc, set_isDefault (String.eqb (fst kc) modelId) (snd kc)))
                   m))) = 0%nat).
  { induction m as [|[k0 v0] m IH]; cbn; intros Hnotin; [reflexivity|].
    destruct (String.eqb_spec k0 modelId) as [->|Hne]; [exfalso; auto|].
    cbn. apply IH. intros Hin. apply Hnotin. now right. }
  unfold JSMap.values in *.
  induction m as [|[k0 v0] m IH]; cbn; intros Hwf; [lia|].
  inversion Hwf as [|? ? Hnotin Hnd]; subst.
  destruct (String.eqb_spec k0 modelId) as [->|Hne]; cbn.
  - rewrite (Hnone m Hnotin). lia.
  - now apply IH.
Qed.

Lemma keys_flagged : forall modelId (m : JSMap.t IModelConfiguration),
  JSMap.keys
    (map (fun kc => (fst kc, set_isDefault (String.eqb (fst kc) modelId) (snd kc))) m)
  = JSMap.keys m.
Proof.
  intros modelId m. unfold JSMap.keys. rewrite map_map. reflexivity.
Qed.

(** *** The invariant and its preservation *)

Ltac count_form :=
  repeat match goal with
  | H : at_most_one_default ?r |- _ =>
      change (count_defaults (configurations r) <= 1)%nat in H
  | |- at_most_one_default ?r =>
      change (count_defaults (configurations r) <= 1)%nat
  end.

Lemma setDefaultModel_invariant : forall modelId r,
  JSMap.wf (configurations r) ->
  (count_defaults (configurations r) <= 1
   \/ JSMap.get modelId (configurations r) <> None)%nat ->
  invariant (snd (fst (setDefaultModel modelId r))).
Proof.
  intros modelId r Hwf Hcount. unfold setDefaultModel.
  destruct (JSMap.get modelId (configurations r)) eqn:Hget; cbn.
  - split; cbn.
    + unfold JSMap.wf. rewrite keys_flagged. exact Hwf.
    + count_form. cbn [configurations]. now apply count_flagged.
  - split; [assumption|]. count_form.
    destruct Hcount as [H|H]; [assumption|congruence].
Qed.

Lemma addConfiguration_invariant : forall parsesAsURL probe config r,
  invariant r -> invariant (snd (fst (addConfiguration parsesAsURL probe config r))).
Proof.
  intros parsesAsURL probe config r [Hwf Hone]. unfold addConfiguration.
  destruct (negb (isValid (validateConfiguration parsesAsURL probe config)));
    [split; assumption|].
  set (stored := match apiKey config with
                 | Some k => if truthy_string k
                             then (set_apiKey None config, [SecretSet (id config) k])
                             else (config, [])
                 | None => (config, [])
                 end).
  destruct stored as [config' fx_key] eqn:Hstored.
  set (r1 := mkRegistry (JSMap.set (id config') config' (configurations r))
                        (defaultModelId r)).
  assert (Hwf1 : JSMap.wf (configurations r1)) by (apply wf_set; exact Hwf).
  destruct (isDefault config' || (JSMap.size (configurations r1) =? 1)%nat) eqn:Hbranch.
  - pose proof (setDefaultModel_invariant (id config') r1 Hwf1) as Hinv.
    destruct (setDefaultModel (id config') r1) as [[res r2] fx2]. cbn in *.
    apply Hinv. right. rewrite get_set_same. discriminate.
  - apply orb_false_iff in Hbranch as [Hflag _]. cbn.
    split; [exact Hwf1|]. count_form. subst r1. cbn [configurations].
    pose proof (count_set (id config') config' (configurations r)) as Hc.
    rewrite Hflag in Hc. lia.
Qed.

Lemma removeConfiguration_invariant : forall modelId r,
  invariant r -> invariant (snd (fst (removeConfiguration modelId r))).
Proof.
  intros modelId r [Hwf Hone]. unfold removeConfiguration.
  destruct (JSMap.get modelId (configurations r)); [|split; assumption].
  set (r1 := mkRegistry (JSMap.delete modelId (configurations r)) (defaultModelId r)).
  assert (Hwf1 : JSMap.wf (configurations r1)) by (apply wf_delete; exact Hwf).
  assert (Hone1 : (count_defaults (configurations r1) <= 1)%nat).
  { pose proof (count_delete modelId (configurations r)).
    count_form. subst r1. cbn [configurations]. lia. }
  assert (Hinv1 : invariant r1) by (split; assumption).
  destruct (defaultModelId r1) as [d|]; [|exact Hinv1].
  destruct (String.eqb d modelId); [|exact Hinv1].
  destruct (getAllConfigurations r1) as [|first rest].
  - split; assumption.
  - pose proof (setDefaultModel_invariant (id first) r1 Hwf1 (or_introl Hone1)) as Hinv.
    destruct (setDefaultModel (id first) r1) as [[res r2] fx2]. exact Hinv.
Qed.

Lemma apply_invariant : forall parsesAsURL op r,
  invariant r -> invariant (state_after parsesAsURL op r).
Proof.
  intros parsesAsURL [probe config|modelId|modelId] r Hinv; unfold state_after; cbn.
  - now apply addConfiguration_invariant.
  - now apply removeConfiguration_invariant.
  - destruct Hinv as [Hwf Hone]. apply setDefaultModel_invariant; [assumption|].
    left. count_form. assumption.
Qed.

(** C2.  From a registry with at most one configuration flagged as default
    (and, as in any [Map], distinct keys), every state observed before,
    between and after the operations of a finite run of addConfiguration,
    removeConfiguration and setDefaultModel calls, fulfilled or rejected,
    has at most one configuration with [isDefault = true]. *)
Theorem default_invariant_add_remove_setDefault :
  forall (parsesAsURL : string -> bool) (ops : list Operation) (init : Registry),
    JSMap.wf (configurations init) ->
    at_most_one_default init ->
    Forall at_most_one_default (observations parsesAsURL ops init).
Proof.
  intros parsesAsURL ops init Hwf Hone.
  assert (Hinv : invariant init) by (split; assumption). clear Hwf Hone.
  revert init Hinv.
  induction ops as [|op ops IH]; intros init Hinv; cbn [observations].
  - constructor; [apply Hinv|constructor].
  - constructor; [apply Hinv|]. apply IH. now apply apply_invariant.
Qed.

(** A run from the empty registry: two additions, a change of default, the
    removal of the default and a rejected setDefaultModel. *)
Lemma default_invariant_add_remove_setDefault_witness :
  Forall at_most_one_default (observations any_url sample_run emptyRegistry).
Proof.
  apply (default_invariant_add_remove_setDefault any_url sample_run emptyRegistry).
  - constructor.
  - unfold at_most_one_default. cbn. lia.
Defined.

(** C3 fails on the code.  With [a] the current default, updating [b] by
    [{ isDefault: true }] succeeds and leaves both [a] and [b] flagged as
    default: [updateConfiguration] stores the merged configuration without
    going through [setDefaultModel]. *)
Theorem updateConfiguration_second_default :
  at_most_one_default registry_ab
  /\ JSMap.wf (configurations registry_ab)
  /\ fst (fst (updateConfiguration any_url probe_ok "b" make_default registry_ab))
     = Fulfilled tt
  /\ map id (defaults (snd (fst (updateConfiguration any_url probe_ok "b" make_default
                                   registry_ab))))
     = ["a"; "b"]
  /\ ~ at_most_one_default
         (snd (fst (updateConfiguration any_url probe_ok "b" make_default registry_ab))).
Proof.
  split; [unfold at_most_one_default; cbn; lia|].
  split; [repeat constructor; cbn; intuition discriminate|].
  split; [reflexivity|]. split; [reflexivity|].
  unfold at_most_one_default. cbn. lia.
Qed.

End RegistryFacts.


(* ================================================================== *)
(** * Properties of the conversation flow *)
(* ================================================================== *)

Module FlowFacts.
Import AIErrors AIWorkflows FlowSamples JSMapFacts.

(** C5 (amended).  With [maxHistory = 2], on a conversation whose stored
    history is a first (system) message followed by four prior messages,
    [executeConversationFlow] appends the new user message first and trims
    afterwards: the backend is asked with the system message, the single
    most recent prior message and the new user message, and the history
    stored on success is these three followed by the assistant reply. *)
Theorem conversation_trim_after_append :
  forall (chat : list IAIMessage -> Settled Thrown IChatResponse)
         (conversationId message : string) (prompt : option string)
         (first t1 t2 t3 t4 : IAIMessage) (reply : IChatResponse)
         (memory : ConversationMemory),
    JSMap.get conversationId memory = Some [first; t1; t2; t3; t4] ->
    chat [first; t4; mkMessage user message] = Fulfilled reply ->
    let '(result, memory') :=
      executeConversationFlow chat conversationId message
        (Some (mkFlowContext (Some 2%Z) prompt)) memory in
    result = Fulfilled (response_content reply)
    /\ getConversationHistory conversationId memory'
       = [first; t4; mkMessage user message;
          mkMessage assistant (response_content reply)].
Proof.
  intros chat conversationId message prompt first t1 t2 t3 t4 reply memory Hget Hchat.
  unfold executeConversationFlow. rewrite Hget. cbn -[JSMap.set JSMap.get].
  change (skipn (Pos.to_nat 4) [first; t1; t2; t3; t4; mkMessage user message])
    with [t4; mkMessage user message].
  rewrite Hchat.
  split; [reflexivity|].
  unfold getConversationHistory. now rewrite get_set_same.
Qed.

Lemma conversation_trim_after_append_witness :
  let '(result, memory') :=
    executeConversationFlow chat_ok "c" "new question" maxHistory_2 memory_4_messages in
  result = Fulfilled "reply"
  /\ getConversationHistory "c" memory'
     = [sys; a2; mkMessage user "new question"; mkMessage assistant "reply"].
Proof.
  apply (conversation_trim_after_append chat_ok "c" "new question" None
           sys u1 a1 u2 a2 (mkChatResponse "reply") memory_4_messages);
    reflexivity.
Defined.

(** C5 as stated fails: the stored history does not keep the two most
    recent prior turns, whether a turn is read as one message or as one
    exchange of a user message and its answer. *)
Lemma stated_history_refuted :
  getConversationHistory "c"
    (snd (executeConversationFlow chat_ok "c" "new question" maxHistory_2
            memory_4_messages))
  <> stated_history [sys; u1; a1; u2; a2] 2 "new question" "reply"
  /\ getConversationHistory "c"
       (snd (executeConversationFlow chat_ok "c" "new question" maxHistory_2
               memory_4_exchanges))
     <> stated_history [sys; u1; a1; u2; a2; u3; a3; u4; a4] 4 "new question" "reply"
  /\ getConversationHistory "c"
       (snd (executeConversationFlow chat_ok "c" "new question" maxHistory_2
               memory_4_exchanges))
     = [sys; a4; mkMessage user "new question"; mkMessage assistant "reply"].
Proof.
  repeat split; vm_compute; discriminate.
Qed.

End FlowFacts.


(* ================================================================== *)
(** * Properties of the streaming adapter *)
(* ================================================================== *)

Module StreamFacts.
Import AIErrors JSString LocalModelService StreamSamples.


Lemma stream_lines_app : forall texts1 texts2,
  stream_lines (texts1 ++ texts2) = stream_lines texts1 ++ stream_lines texts2.
Proof. intros. unfold stream_lines. apply flat_map_app. Qed.



Lemma stream_lines_middle : forall texts1 texts2 text text',
  lines_of_text text = lines_of_text text' ->
  stream_lines (texts1 ++ text :: texts2) = stream_lines (texts1 ++ text' :: texts2).
Proof.
  intros texts1 texts2 text text' H.
  rewrite !stream_lines_app. f_equal. unfold stream_lines. cbn [flat_map].
  now rewrite H.
Qed.





End StreamFacts.


(* ================================================================== *)
(** * Properties of the vector store *)
(* ================================================================== *)

Module Binary64Facts.
Import JSNumber VectorSamples NumberOrder.

(** *** Zeros and NaN under the four operations *)

Lemma mul_zero_l : forall x y, is_zero x = true -> zero_or_nan (mul x y) = true.
Proof. intros [s| | |] y H; try discriminate. destruct y as [s'|s'| |s' m e]; reflexivity. Qed.

Lemma mul_zero_r : forall x y, is_zero y = true -> zero_or_nan (mul x y) = true.
Proof. intros x [s| | |] H; try discriminate. destruct x as [s'|s'| |s' m e]; reflexivity. Qed.

Lemma mul_zero_zero : forall x, is_zero x = true -> mul x x = zero.
Proof. intros [[]| | |] H; try discriminate; reflexivity. Qed.

Lemma mul_zero_or_nan_l : forall x y, zero_or_nan x = true -> zero_or_nan (mul x y) = true.
Proof.
  intros [s| | |] y H; try discriminate; destruct y as [s'|s'| |s' m e]; reflexivity.
Qed.

Lemma mul_zero_or_nan_r : forall x y, zero_or_nan y = true -> zero_or_nan (mul x y) = true.
Proof.
  intros x [s| | |] H; try discriminate; destruct x as [s'|s'| |s' m e]; reflexivity.
Qed.

Lemma add_zero_or_nan : forall x y,
  zero_or_nan x = true -> zero_or_nan y = true -> zero_or_nan (add x y) = true.
Proof.
  intros [[]| | |] [[]| | |] Hx Hy; try discriminate; reflexivity.
Qed.

Lemma add_zero_zero : add zero zero = zero.
Proof. reflexivity. Qed.

Lemma sqrt_zero : forall x, is_zero x = true -> is_zero (sqrt x) = true.
Proof. intros [s| | |] H; try discriminate. reflexivity. Qed.

Lemma div_zero_or_nan : forall x y,
  zero_or_nan x = true -> zero_or_nan y = true -> div x y = NaN.
Proof.
  intros [s| | |] [s'| | |] Hx Hy; try discriminate; reflexivity.
Qed.

(** *** A finite number divided by itself *)

Lemma div_self : forall s m e, div (S754_finite s m e) (S754_finite s m e) = one.
Proof.
  intros s m e. unfold div, SFdiv, SFdiv_core_binary.
  replace (Z.min (fexp prec emax (Zdigits2 (Z.pos m) + e - (Zdigits2 (Z.pos m) + e)))
                 (e - e)) with (-53)%Z
    by (rewrite !Z.sub_diag; reflexivity).
  replace (e - e - -53)%Z with 53%Z by lia.
  assert (Hq : Z.div_eucl (Z.shiftl (Z.pos m) 53) (Z.pos m) = (2 ^ 53, 0)%Z).
  { rewrite Z.shiftl_mul_pow2 by lia.
    pose proof (Z.div_eucl_eq (Z.pos m * 2 ^ 53) (Z.pos m) ltac:(lia)) as Heq.
    pose proof (Z.mod_pos_bound (Z.pos m * 2 ^ 53) (Z.pos m) ltac:(lia)) as Hb.
    unfold Z.modulo in Hb.
    destruct (Z.div_eucl (Z.pos m * 2 ^ 53) (Z.pos m)) as [q r].
    assert (r = 0 /\ q = 2 ^ 53)%Z as [-> ->]; [|reflexivity].
    assert (Z.pos m * (2 ^ 53 - q) = r)%Z by lia.
    assert (2 ^ 53 - q = 0)%Z by nia. split; nia. }
  rewrite Hq. unfold new_location, new_location_even, new_location_odd.
  destruct (Z.even (Z.pos m)), s; reflexivity.
Qed.

(** *** Rounding: shifts, signs and exponents *)

Section Rounding.
Local Open Scope Z_scope.

Lemma digits2_size : forall m, digits2_pos m = Pos.size m.
Proof. induction m; cbn; congruence. Qed.

Lemma digits2_lower : forall m, 2 ^ (Z.pos (digits2_pos m) - 1) <= Z.pos m.
Proof.
  intro m. rewrite digits2_size.
  pose proof (Pos.size_le m) as H.
  assert (2 ^ Z.pos (Pos.size m) <= 2 * Z.pos m).
  { change (2 * Z.pos m) with (Z.pos m~0). rewrite <- Pos2Z.inj_pow. 
    apply Pos2Z.pos_le_pos. exact H. }
  replace (Z.pos (Pos.size m)) with (Z.succ (Z.pos (Pos.size m) - 1)) in H0 by lia.
  rewrite Z.pow_succ_r in H0 by lia. lia.
Qed.

Lemma shr_1_div2 : forall mrs, 0 <= shr_m mrs -> shr_m (shr_1 mrs) = shr_m mrs / 2.
Proof.
  intros [m r s] H. cbn in *.
  destruct m as [|[p|p|]|p]; cbn; try lia.
  - rewrite Pos2Z.inj_xI. apply Z.div_unique with (r := 1); lia.
  - rewrite Pos2Z.inj_xO. apply Z.div_unique with (r := 0); lia.
Qed.

Lemma iter_shr_1 : forall p mrs, 0 <= shr_m mrs ->
  shr_m (SpecFloat.iter_pos shr_1 p mrs) = shr_m mrs / 2 ^ Z.pos p.
Proof.
  induction p as [p IH|p IH|]; intros mrs H; cbn [SpecFloat.iter_pos].
  - assert (H1 : 0 <= shr_m (shr_1 mrs)) by (rewrite shr_1_div2 by lia; apply Z.div_pos; lia).
    assert (H2 : 0 <= shr_m (SpecFloat.iter_pos shr_1 p (shr_1 mrs))) 
      by (rewrite IH by lia; apply Z.div_pos; lia).
    rewrite IH, IH, shr_1_div2 by lia.
    rewrite !Z.div_div by lia. f_equal.
    rewrite (Pos2Z.inj_xI p), Z.pow_add_r, Z.pow_twice_r by lia.
    change (2 ^ 1) with 2. ring.
  - assert (H2 : 0 <= shr_m (SpecFloat.iter_pos shr_1 p mrs)) 
      by (rewrite IH by lia; apply Z.div_pos; lia).
    rewrite IH, IH by lia.
    rewrite !Z.div_div by lia. f_equal.
    rewrite (Pos2Z.inj_xO p), Z.pow_twice_r. reflexivity.
  - rewrite shr_1_div2 by lia. reflexivity.
Qed.

Lemma fexp_emin : forall e, emin64 <= fexp prec emax e.
Proof. intro e. unfold fexp, emin64. lia. Qed.

Lemma shr_fexp_emin : forall m e l, emin64 <= snd (shr_fexp prec emax m e l).
Proof.
  intros m e l. unfold shr_fexp, shr.
  pose proof (fexp_emin (Zdigits2 m + e)) as H.
  destruct (fexp prec emax (Zdigits2 m + e) - e) eqn:E; cbn [snd]; lia.
Qed.

Lemma shr_m_of_loc : forall m l, shr_m (shr_record_of_loc m l) = m.
Proof. intros m [|[]]; reflexivity. Qed.

Lemma shr_fexp_pos : forall m e l,
  0 < m -> emin64 <= e -> 0 < shr_m (fst (shr_fexp prec emax m e l)).
Proof.
  intros m e l Hm He. unfold shr_fexp, shr.
  destruct m as [|p|p]; try lia. cbn [Zdigits2].
  destruct (fexp prec emax (Z.pos (digits2_pos p) + e) - e) as [|n|n] eqn:E;
    cbn [fst]; rewrite ?shr_m_of_loc; try lia.
  rewrite iter_shr_1 by (rewrite shr_m_of_loc; lia).
  rewrite shr_m_of_loc.
  pose proof (digits2_lower p) as Hd.
  unfold fexp, emin64, emin, prec, emax in *.
  assert (Hn : Z.pos n = Z.pos (digits2_pos p) - 53) by lia.
  apply Z.div_str_pos. split; [apply Z.pow_pos_nonneg; lia|].
  etransitivity; [|exact Hd]. apply Z.pow_le_mono_r; lia.
Qed.

Lemma round_nearest_even_ge : forall m l, m <= round_nearest_even m l.
Proof. intros m [|[]]; cbn; try lia. destruct (Z.even m); lia. Qed.

(** Rounding a positive mantissa gives a number of the given sign, never a zero or NaN. *)
Lemma binary_round_aux_sign : forall s m e l,
  0 < m -> emin64 <= e ->
  match binary_round_aux prec emax s m e l with
  | S754_finite s' _ e' => s' = s /\ emin64 <= e'
  | S754_infinity s' => s' = s
  | _ => False
  end.
Proof.
  intros s m e l Hm He. unfold binary_round_aux.
  pose proof (shr_fexp_pos m e l Hm He) as H1.
  pose proof (shr_fexp_emin m e l) as E1.
  destruct (shr_fexp prec emax m e l) as [mrs' e']. cbn [fst snd] in *.
  pose proof (round_nearest_even_ge (shr_m mrs') (loc_of_shr_record mrs')) as Hr.
  pose proof (shr_fexp_pos (round_nearest_even (shr_m mrs') (loc_of_shr_record mrs')) e'
                loc_Exact ltac:(lia) E1) as H2.
  pose proof (shr_fexp_emin (round_nearest_even (shr_m mrs') (loc_of_shr_record mrs')) e'
                loc_Exact) as E2.
  destruct (shr_fexp prec emax (round_nearest_even (shr_m mrs') (loc_of_shr_record mrs')) e'
              loc_Exact) as [mrs'' e'']. cbn [fst snd] in *.
  destruct (shr_m mrs''); try lia.
  destruct (e'' <=? emax - prec); auto.
Qed.

Lemma binary_round_aux_regular : forall s m e l,
  match binary_round_aux prec emax s m e l with
  | S754_finite _ _ e' => emin64 <= e'
  | _ => True
  end.
Proof.
  intros s m e l. unfold binary_round_aux.
  destruct (shr_fexp prec emax m e l) as [mrs' e'].
  pose proof (shr_fexp_emin (round_nearest_even (shr_m mrs') (loc_of_shr_record mrs')) e'
                loc_Exact) as E2.
  destruct (shr_fexp prec emax (round_nearest_even (shr_m mrs') (loc_of_shr_record mrs')) e'
              loc_Exact) as [mrs'' e'']. cbn [fst snd] in *.
  destruct (shr_m mrs''); auto.
  destruct (e'' <=? emax - prec); auto.
Qed.

Lemma shl_align_exp : forall m e e', 
  snd (shl_align m e e') = Z.min e e'.
Proof.
  intros m e e'. unfold shl_align. destruct (e' - e) eqn:E; cbn [snd]; lia.
Qed.

Lemma binary_round_sign : forall s m e,
  emin64 <= e ->
  match binary_round prec emax s m e with
  | S754_finite s' _ e' => s' = s /\ emin64 <= e'
  | S754_infinity s' => s' = s
  | _ => False
  end.
Proof.
  intros s m e He. unfold binary_round.
  pose proof (shl_align_exp m e (fexp prec emax (Z.pos (digits2_pos m) + e))) as Hs.
  pose proof (fexp_emin (Z.pos (digits2_pos m) + e)).
  destruct (shl_align m e (fexp prec emax (Z.pos (digits2_pos m) + e))) as [mz ez].
  cbn [snd] in Hs. apply binary_round_aux_sign; lia.
Qed.

Lemma binary_round_regular : forall s m e,
  match binary_round prec emax s m e with
  | S754_finite _ _ e' => emin64 <= e'
  | _ => True
  end.
Proof.
  intros s m e. unfold binary_round.
  destruct (shl_align m e (fexp prec emax (Z.pos (digits2_pos m) + e))) as [mz ez].
  apply binary_round_aux_regular.
Qed.

Lemma iter_xO : forall d m, Z.pos (Pos.iter xO m d) = Z.pos m * 2 ^ Z.pos d.
Proof.
  induction d as [|d IH] using Pos.peano_ind; intro m.
  - cbn. lia.
  - rewrite Pos.iter_succ, Pos2Z.inj_xO, IH, Pos2Z.inj_succ, Z.pow_succ_r by lia. ring.
Qed.

Lemma shl_align_value : forall m e e', e' <= e ->
  Z.pos (fst (shl_align m e e')) = Z.pos m * 2 ^ (e - e').
Proof.
  intros m e e' H. unfold shl_align.
  destruct (e' - e) eqn:E; cbn [fst].
  - replace (e - e') with 0 by lia. cbn. lia.
  - lia.
  - rewrite iter_xO. f_equal. f_equal. lia.
Qed.

Lemma is_pos_normalize : forall D e, emin64 <= e ->
  is_pos (binary_normalize prec emax D e false) = (0 <? D).
Proof.
  intros D e He. unfold binary_normalize. destruct D as [|p|p]; [reflexivity| |].
  - pose proof (binary_round_sign false p e He) as H.
    destruct (binary_round prec emax false p e) as [| s| |s m' e']; try contradiction.
    + subst. reflexivity.
    + destruct H as [-> _]. reflexivity.
  - pose proof (binary_round_sign true p e He) as H.
    destruct (binary_round prec emax true p e) as [| s| |s m' e']; try contradiction.
    + subst. reflexivity.
    + destruct H as [-> _]. reflexivity.
Qed.

Lemma aligned_value : forall s m e ez, emin64 <= ez -> ez <= e ->
  cond_Zopp s (Z.pos m) * 2 ^ (e - emin64)
  = cond_Zopp s (Z.pos (fst (shl_align m e ez))) * 2 ^ (ez - emin64).
Proof.
  intros s m e ez H1 H2. rewrite shl_align_value by lia.
  replace (e - emin64) with ((e - ez) + (ez - emin64)) by lia.
  rewrite Z.pow_add_r by lia. destruct s; cbn [cond_Zopp]; ring.
Qed.

Lemma sub_positive : forall x y, regular x -> regular y ->
  (is_pos (sub y x) = true <-> extended_lt (value x) (value y)).
Proof.
  intros x y Hx Hy.
  destruct x as [sx|sx| |sx mx ex], y as [sy|sy| |sy my ey]; try contradiction;
    cbn [regular] in Hx, Hy;
    try (destruct sx, sy; cbn; intuition (try discriminate; try lia); fail).
  - assert (0 < 2 ^ (ey - emin64)) by (apply Z.pow_pos_nonneg; lia).
    destruct sx, sy; cbn -[Z.mul Z.pow Z.opp emin64];
      intuition (try discriminate; try nia).
  - assert (0 < 2 ^ (ex - emin64)) by (apply Z.pow_pos_nonneg; lia).
    destruct sx, sy; cbn -[Z.mul Z.pow Z.opp emin64];
      intuition (try discriminate; try nia).
  - unfold sub, SFsub. rewrite is_pos_normalize by lia.
    cbn [value extended_lt].
    rewrite (aligned_value sx mx ex (Z.min ey ex)) by lia.
    rewrite (aligned_value sy my ey (Z.min ey ex)) by lia.
    assert (0 < 2 ^ (Z.min ey ex - emin64)) by (apply Z.pow_pos_nonneg; lia).
    rewrite Z.ltb_lt. nia.
Qed.

Lemma extended_le_trans : forall a b c, extended_le a b -> extended_le b c -> extended_le a c.
Proof. intros [|x|] [|y|] [|z|]; cbn; intros; try contradiction; auto; lia. Qed.

Lemma extended_lt_le : forall a b, extended_lt a b -> extended_le a b.
Proof. intros [|x|] [|y|]; cbn; intros; try contradiction; auto; lia. Qed.

Lemma extended_not_lt : forall a b, ~ extended_lt a b -> extended_le b a.
Proof. intros [|x|] [|y|]; cbn; intros; try contradiction; auto; try lia; tauto. Qed.

Lemma mul_regular : forall x y, regular_or_nan (mul x y).
Proof.
  intros [sx|sx| |sx mx ex] [sy|sy| |sy my ey]; try exact I.
  apply binary_round_aux_regular.
Qed.

Lemma add_regular : forall x y, regular_or_nan x -> regular_or_nan y -> regular_or_nan (add x y).
Proof.
  intros [sx|sx| |sx mx ex] [sy|sy| |sy my ey] Hx Hy; try exact I; try assumption.
  - destruct sx, sy; exact I.
  - destruct sx, sy; exact I.
  - unfold add, SFadd, binary_normalize.
    destruct (cond_Zopp sx (Z.pos (fst (shl_align mx ex (Z.min ex ey)))) +
      cond_Zopp sy (Z.pos (fst (shl_align my ey (Z.min ex ey))))); try exact I;
    apply binary_round_regular.
Qed.


(** *** Rounding: the relative error on normal numbers *)

Lemma digits2_upper : forall m, Z.pos m < 2 ^ Z.pos (digits2_pos m).
Proof.
  intro m. rewrite digits2_size. pose proof (Pos.size_gt m) as H.
  rewrite <- Pos2Z.inj_pow. apply Pos2Z.pos_lt_pos. exact H.
Qed.

Lemma digits2_unique : forall m k,
  2 ^ (k - 1) <= Z.pos m < 2 ^ k -> Z.pos (digits2_pos m) = k.
Proof.
  intros m k [Hl Hu].
  pose proof (digits2_lower m) as Dl. pose proof (digits2_upper m) as Du.
  assert (0 < k).
  { destruct (Z.ltb_spec 0 k); [assumption|].
    destruct (Z.eqb_spec k 0).
    + subst. cbn in Hu. lia. 
    + rewrite Z.pow_neg_r in Hu by lia. lia. }
  destruct (Z.lt_trichotomy (Z.pos (digits2_pos m)) k) as [Hlt|[Heq|Hgt]]; [|assumption|].
  - assert (2 ^ Z.pos (digits2_pos m) <= 2 ^ (k - 1)) by (apply Z.pow_le_mono_r; lia). lia.
  - assert (2 ^ k <= 2 ^ (Z.pos (digits2_pos m) - 1)) by (apply Z.pow_le_mono_r; lia). lia.
Qed.

Lemma round_nearest_even_le : forall m l, round_nearest_even m l <= m + 1.
Proof. intros m [|[]]; cbn; try lia. destruct (Z.even m); lia. Qed.

(** Rounding a mantissa of at least 53 digits, in the range of the normal
    numbers: the result is a normal number, one of the two neighbours of
    the mantissa cut to 53 digits. *)
Lemma binary_round_aux_normal : forall s p ex lx,
  let d := Z.pos (digits2_pos p) in
  53 <= d -> emin64 <= d + ex - 53 -> d + ex <= 1023 ->
  exists m' e',
    binary_round_aux prec emax s (Z.pos p) ex lx = S754_finite s m' e'
    /\ 2 ^ 52 <= Z.pos m' < 2 ^ 53
    /\ ex + d - 53 <= e' <= ex + d - 52
    /\ Z.pos m' * 2 ^ (e' - ex) - 2 ^ (d - 53) <= Z.pos p
    /\ Z.pos p + 1 <= Z.pos m' * 2 ^ (e' - ex) + 2 ^ (d - 53)
    /\ 2 ^ 52 * 2 ^ (d - 53) <= Z.pos m' * 2 ^ (e' - ex).
Proof.
  intros s p ex lx d Hd Hlo Hhi. unfold binary_round_aux.
  pose proof (digits2_lower p) as Dl. pose proof (digits2_upper p) as Du. fold d in Dl, Du.
  assert (Hn : 0 < 2 ^ (d - 53)) by (apply Z.pow_pos_nonneg; lia).
  assert (Hsplit : 2 ^ (d - 1) = 2 ^ 52 * 2 ^ (d - 53)).
  { rewrite <- Z.pow_add_r by lia. f_equal. lia. }
  assert (Hsplit' : 2 ^ d = 2 ^ 53 * 2 ^ (d - 53)).
  { rewrite <- Z.pow_add_r by lia. f_equal. lia. }
  set (m1 := Z.pos p / 2 ^ (d - 53)).
  assert (Hm1 : m1 * 2 ^ (d - 53) <= Z.pos p < (m1 + 1) * 2 ^ (d - 53)).
  { unfold m1. pose proof (Z.div_mod (Z.pos p) (2 ^ (d - 53)) ltac:(lia)) as E.
    pose proof (Z.mod_pos_bound (Z.pos p) (2 ^ (d - 53)) Hn). lia. }
  assert (Hm1r : 2 ^ 52 <= m1 < 2 ^ 53).
  { split.
    - unfold m1. apply Z.div_le_lower_bound; lia.
    - unfold m1. apply Z.div_lt_upper_bound; lia. }
  assert (Hfirst : shr_fexp prec emax (Z.pos p) ex lx
                   = (fst (shr_fexp prec emax (Z.pos p) ex lx), ex + d - 53)
                   /\ shr_m (fst (shr_fexp prec emax (Z.pos p) ex lx)) = m1).
  { unfold shr_fexp, shr. cbn [Zdigits2]. fold d.
    unfold fexp, emin64, emin, prec, emax in *.
    destruct (Z.max (d + ex - 53) (3 - 1024 - 53) - ex) as [|n|n] eqn:E; cbn [fst].
    - split; [f_equal; lia|]. rewrite shr_m_of_loc. unfold m1.
      replace (d - 53) with 0 by lia. now rewrite Z.div_1_r.
    - split; [f_equal; lia|]. rewrite iter_shr_1 by (rewrite shr_m_of_loc; lia).
      rewrite shr_m_of_loc. unfold m1. f_equal. f_equal. lia.
    - lia. }
  destruct Hfirst as [E1 Em1]. rewrite E1.
  set (mrs' := fst (shr_fexp prec emax (Z.pos p) ex lx)) in *.
  pose proof (round_nearest_even_ge (shr_m mrs') (loc_of_shr_record mrs')) as Rl.
  pose proof (round_nearest_even_le (shr_m mrs') (loc_of_shr_record mrs')) as Ru.
  rewrite Em1 in Rl at 1. rewrite Em1 in Ru at 2.
  destruct (round_nearest_even (shr_m mrs') (loc_of_shr_record mrs')) as [|r|r]; try lia.
  assert (Hval : Z.pos r * 2 ^ (d - 53) - 2 ^ (d - 53) <= Z.pos p
                 /\ Z.pos p + 1 <= Z.pos r * 2 ^ (d - 53) + 2 ^ (d - 53)) by nia.
  destruct (Z.eqb_spec (Z.pos r) (2 ^ 53)) as [Htop|Hnot].
  - (* the rounding carried to 2^53 *)
    assert (Dr : Z.pos (digits2_pos r) = 54).
    { apply digits2_unique. rewrite Htop. split; [reflexivity|].
      change (2 ^ 53 < 2 ^ 54). lia. }
    unfold shr_fexp, shr. cbn [Zdigits2]. rewrite Dr.
    unfold fexp, emin64, emin, prec, emax in *.
    replace (Z.max (54 + (ex + d - 53) - 53) (3 - 1024 - 53) - (ex + d - 53)) with 1 by lia.
    cbn [SpecFloat.iter_pos]. rewrite shr_1_div2 by (rewrite shr_m_of_loc; lia).
    rewrite shr_m_of_loc, Htop. change (2 ^ 53 / 2) with (Z.pos 4503599627370496).
    replace (ex + d - 53 + 1 <=? 1024 - 53) with true by (symmetry; apply Z.leb_le; lia).
    eexists _, _. split; [reflexivity|].
    split; [split; [reflexivity|reflexivity]|].
    split; [lia|].
    replace (ex + d - 53 + 1 - ex) with (1 + (d - 53)) by lia.
    rewrite Z.pow_add_r by lia. rewrite Htop in Hval.
    change (2 ^ 1) with 2. change (2 ^ 53) with 9007199254740992 in Hval.
    change (2 ^ 52) with 4503599627370496. lia.
  - assert (Dr : Z.pos (digits2_pos r) = 53) by (apply digits2_unique; lia).
    unfold shr_fexp, shr. cbn [Zdigits2]. rewrite Dr.
    unfold fexp, emin64, emin, prec, emax in *.
    replace (Z.max (53 + (ex + d - 53) - 53) (3 - 1024 - 53) - (ex + d - 53)) with 0 by lia.
    rewrite shr_m_of_loc.
    replace (ex + d - 53 <=? 1024 - 53) with true by (symmetry; apply Z.leb_le; lia).
    eexists _, _. split; [reflexivity|].
    split; [lia|]. split; [lia|].
    replace (ex + d - 53 - ex) with (d - 53) by lia.
    split; [apply Hval|]. split; [apply Hval|]. nia.
Qed.

Lemma digits2_between : forall m a b,
  0 <= a -> 2 ^ a <= Z.pos m < 2 ^ b -> a < Z.pos (digits2_pos m) <= b.
Proof.
  intros m a b Ha [Hl Hu].
  pose proof (digits2_lower m) as Dl. pose proof (digits2_upper m) as Du.
  split.
  - destruct (Z.ltb_spec a (Z.pos (digits2_pos m))); [assumption|].
    assert (2 ^ Z.pos (digits2_pos m) <= 2 ^ a) by (apply Z.pow_le_mono_r; lia). lia.
  - destruct (Z.leb_spec (Z.pos (digits2_pos m)) b); [assumption|].
    assert (0 <= b).
    { destruct (Z.leb_spec 0 b); [assumption|]. rewrite Z.pow_neg_r in Hu by lia. lia. }
    assert (2 ^ b <= 2 ^ (Z.pos (digits2_pos m) - 1)) by (apply Z.pow_le_mono_r; lia). lia.
Qed.

Local Open Scope R_scope.

Lemma pow2_pos : forall z, 0 < powerRZ 2 z.
Proof. intro z. apply powerRZ_lt. lra. Qed.

Lemma pow2_add : forall a b, powerRZ 2 (a + b) = powerRZ 2 a * powerRZ 2 b.
Proof. intros a b. apply powerRZ_add. lra. Qed.

Lemma IZR_pow2 : forall k, (0 <= k)%Z -> IZR (2 ^ k) = powerRZ 2 k.
Proof.
  intros k Hk. rewrite <- (Z2Nat.id k Hk) at 1 2.
  rewrite <- pow_IZR. now rewrite pow_powerRZ.
Qed.

Lemma binary_round_aux_real : forall s p ex lx (x : R),
  let d := Z.pos (digits2_pos p) in
  (53 <= d)%Z -> (emin64 <= d + ex - 53)%Z -> (d + ex <= 1023)%Z ->
  IZR (Z.pos p) * powerRZ 2 ex <= x <= IZR (Z.pos p + 1) * powerRZ 2 ex ->
  exists m' e',
    binary_round_aux prec emax s (Z.pos p) ex lx = S754_finite s m' e'
    /\ (2 ^ 52 <= Z.pos m' < 2 ^ 53)%Z
    /\ (ex + d - 53 <= e' <= ex + d - 52)%Z
    /\ IZR (Z.pos m') * powerRZ 2 e' * (1 - unit_roundoff) <= x
       <= IZR (Z.pos m') * powerRZ 2 e' * (1 + unit_roundoff).
Proof.
  intros s p ex lx x d Hd Hlo Hhi Hx.
  destruct (binary_round_aux_normal s p ex lx Hd Hlo Hhi)
    as (m' & e' & E & Hm & He & Hl & Hu & Hb).
  fold d in He, Hl, Hu, Hb.
  exists m', e'. repeat (split; [assumption|]).
  apply IZR_le in Hl, Hu, Hb.
  rewrite minus_IZR, mult_IZR, !IZR_pow2 in Hl by lia.
  rewrite !plus_IZR, mult_IZR, !IZR_pow2 in Hu by lia.
  rewrite !mult_IZR, (IZR_pow2 (d - 53)), (IZR_pow2 (e' - ex)) in Hb by lia.
  change (2 ^ 52)%Z with 4503599627370496%Z in Hb.
  assert (Hpow : powerRZ 2 e' = powerRZ 2 (e' - ex) * powerRZ 2 ex)
    by (rewrite <- pow2_add; f_equal; lia).
  rewrite Hpow, <- !Rmult_assoc.
  pose proof (pow2_pos ex) as Ex. pose proof (pow2_pos (d - 53)) as Xp.
  rewrite plus_IZR in Hx.
  set (V := IZR (Z.pos m') * powerRZ 2 (e' - ex)) in *.
  set (X := powerRZ 2 (d - 53)) in *. set (B := powerRZ 2 ex) in *.
  set (P := IZR (Z.pos p)) in *.
  unfold unit_roundoff.
  assert (H1 : X * B <= V * B * / 4503599627370496).
  { assert (4503599627370496 * X * B <= V * B) by (apply Rmult_le_compat_r; lra). lra. }
  assert (H2 : (V - X) * B <= P * B) by (apply Rmult_le_compat_r; lra).
  assert (H3 : (P + 1) * B <= (V + X) * B) by (apply Rmult_le_compat_r; lra).
  split; lra.
Qed.

Lemma pow2_neg : forall k, (0 <= k)%Z -> powerRZ 2 (- k) = / IZR (2 ^ k).
Proof.
  intros k Hk. rewrite IZR_pow2 by exact Hk. pose proof (pow2_pos k) as Hp.
  apply Rmult_eq_reg_r with (powerRZ 2 k); [|lra].
  rewrite <- pow2_add, Rinv_l by lra. replace (- k + k)%Z with 0%Z by lia. reflexivity.
Qed.


(** The product of two normal numbers, when it is in the range of the
    normal numbers. *)
Lemma mul_normal : forall m1 e1 m2 e2,
  (2 ^ 52 <= Z.pos m1 < 2 ^ 53)%Z -> (2 ^ 52 <= Z.pos m2 < 2 ^ 53)%Z ->
  (emin64 <= e1 + e2 + 52)%Z -> (e1 + e2 + 106 <= 1023)%Z ->
  exists m' e',
    mul (S754_finite false m1 e1) (S754_finite false m2 e2) = S754_finite false m' e'
    /\ (2 ^ 52 <= Z.pos m' < 2 ^ 53)%Z
    /\ (e1 + e2 + 52 <= e' <= e1 + e2 + 54)%Z
    /\ to_real (S754_finite false m' e') * (1 - unit_roundoff)
       <= to_real (S754_finite false m1 e1) * to_real (S754_finite false m2 e2)
       <= to_real (S754_finite false m' e') * (1 + unit_roundoff).
Proof.
  intros m1 e1 m2 e2 H1 H2 Hlo Hhi.
  assert (Hd : (104 < Z.pos (digits2_pos (m1 * m2)) <= 106)%Z).
  { apply digits2_between; [lia|]. rewrite Pos2Z.inj_mul.
    change (2 ^ 104)%Z with (2 ^ 52 * 2 ^ 52)%Z. change (2 ^ 106)%Z with (2 ^ 53 * 2 ^ 53)%Z.
    change (2 ^ 52)%Z with 4503599627370496%Z in *.
    change (2 ^ 53)%Z with 9007199254740992%Z in *. nia. }
  destruct (binary_round_aux_real false (m1 * m2) (e1 + e2) loc_Exact
              (IZR (Z.pos (m1 * m2)) * powerRZ 2 (e1 + e2)))
    as (m' & e' & E & Hm & He & Hv); try lia.
  { pose proof (pow2_pos (e1 + e2)). rewrite plus_IZR. split; [lra|nra]. }
  exists m', e'. split; [exact E|]. split; [exact Hm|]. split; [lia|].
  cbn [to_real cond_Zopp]. rewrite Pos2Z.inj_mul, mult_IZR, pow2_add in Hv.
  replace (IZR (Z.pos m1) * powerRZ 2 e1 * (IZR (Z.pos m2) * powerRZ 2 e2))
    with (IZR (Z.pos m1) * IZR (Z.pos m2) * (powerRZ 2 e1 * powerRZ 2 e2)) by ring.
  exact Hv.
Qed.

(** The square root of a normal number. *)
Lemma sqrt_normal : forall m e,
  (2 ^ 52 <= Z.pos m < 2 ^ 53)%Z -> (emin64 <= e <= 971)%Z ->
  exists m' e',
    sqrt (S754_finite false m e) = S754_finite false m' e'
    /\ (2 ^ 52 <= Z.pos m' < 2 ^ 53)%Z
    /\ (e - 53 <= 2 * e' <= e - 50)%Z
    /\ (to_real (S754_finite false m' e') * (1 - unit_roundoff))
       * (to_real (S754_finite false m' e') * (1 - unit_roundoff))
       <= to_real (S754_finite false m e)
       <= (to_real (S754_finite false m' e') * (1 + unit_roundoff))
          * (to_real (S754_finite false m' e') * (1 + unit_roundoff)).
Proof.
  intros m e Hm He.
  assert (Dm : Z.pos (digits2_pos m) = 53%Z) by (apply digits2_unique; exact Hm).
  unfold sqrt, SFsqrt, SFsqrt_core_binary. cbn [Zdigits2]. rewrite Dm, !Z.div2_div.
  assert (Hhalf : (2 * (e / 2) <= e <= 2 * (e / 2) + 1)%Z).
  { pose proof (Z.div_mod e 2 ltac:(lia)). pose proof (Z.mod_pos_bound e 2 ltac:(lia)). lia. }
  set (e0 := (e / 2 - 26)%Z).
  assert (Ee : Z.min (fexp prec emax ((53 + e + 1) / 2)) (e / 2) = e0).
  { replace (53 + e + 1)%Z with (e + 27 * 2)%Z by lia. rewrite Z.div_add by lia.
    unfold fexp, emin64, emin, prec, emax, e0 in *. lia. }
  rewrite Ee.
  assert (Hsh : (e - 2 * e0 = 52 \/ e - 2 * e0 = 53)%Z) by (unfold e0; lia).
  set (sh := (e - 2 * e0)%Z) in *.
  assert (Hm' : match sh with
                | 0%Z => Z.pos m
                | Z.pos _ => Z.shiftl (Z.pos m) sh
                | Z.neg _ => 0%Z
                end = (Z.pos m * 2 ^ sh)%Z).
  { destruct Hsh as [-> | ->]; rewrite Z.shiftl_mul_pow2; lia. }
  rewrite Hm'.
  assert (Hrange : (2 ^ 104 <= Z.pos m * 2 ^ sh < 2 ^ 106)%Z).
  { change (2 ^ 52)%Z with 4503599627370496%Z in Hm.
    change (2 ^ 53)%Z with 9007199254740992%Z in Hm.
    destruct Hsh as [-> | ->]; cbn -[Z.mul]; lia. }
  pose proof (Z.sqrtrem_spec (Z.pos m * 2 ^ sh) ltac:(lia)) as Hs.
  destruct (Z.sqrtrem (Z.pos m * 2 ^ sh)) as [q r]. destruct Hs as [Hq Hr].
  assert (Hqr : (2 ^ 52 <= q < 2 ^ 53)%Z).
  { change (2 ^ 104)%Z with (4503599627370496 * 4503599627370496)%Z in Hrange.
    change (2 ^ 106)%Z with (9007199254740992 * 9007199254740992)%Z in Hrange.
    change (2 ^ 52)%Z with 4503599627370496%Z.
    change (2 ^ 53)%Z with 9007199254740992%Z. nia. }
  destruct q as [|q|q]; try (change (2 ^ 52)%Z with 4503599627370496%Z in Hqr; lia).
  assert (Dq : Z.pos (digits2_pos q) = 53%Z) by (apply digits2_unique; exact Hqr).
  match goal with |- context [binary_round_aux _ _ _ _ _ ?l] => set (loc := l) end.
  destruct (binary_round_aux_normal false q e0 loc)
    as (m' & e' & E & Hm1 & He1 & Hl & Hu & Hb);
    try (rewrite Dq; unfold e0, emin64, emin, prec, emax in *; lia).
  rewrite Dq in He1, Hl, Hu, Hb.
  exists m', e'. split; [exact E|]. split; [exact Hm1|]. split; [unfold e0 in *; lia|].
  cbn [to_real cond_Zopp].
  change (2 ^ (53 - 53))%Z with 1%Z in *.
  (* in units of 2^e0 *)
  set (V := (Z.pos m' * 2 ^ (e' - e0))%Z) in *.
  assert (HV : IZR (Z.pos m') * powerRZ 2 e' = IZR V * powerRZ 2 e0).
  { unfold V. rewrite mult_IZR, IZR_pow2 by lia. rewrite Rmult_assoc, <- pow2_add.
    do 2 f_equal. lia. }
  assert (HS : IZR (Z.pos m) * powerRZ 2 e
               = IZR (Z.pos m * 2 ^ sh) * (powerRZ 2 e0 * powerRZ 2 e0)).
  { rewrite mult_IZR, IZR_pow2 by lia. rewrite <- pow2_add, Rmult_assoc, <- pow2_add.
    do 2 f_equal. unfold sh. lia. }
  rewrite HV, HS.
  pose proof (pow2_pos e0) as Bp.
  assert (Hlow : ((V - 1) * (V - 1) <= Z.pos m * 2 ^ sh)%Z) by nia.
  assert (Hupp : (Z.pos m * 2 ^ sh <= (V + 1) * (V + 1))%Z) by nia.
  apply IZR_le in Hlow, Hupp, Hb.
  set (S := IZR (Z.pos m * 2 ^ sh)) in *.
  rewrite mult_IZR, minus_IZR in Hlow. rewrite mult_IZR, plus_IZR in Hupp.
  change (2 ^ 52 * 1)%Z with 4503599627370496%Z in Hb.
  set (W := IZR V) in *.
  set (B := powerRZ 2 e0) in *. unfold unit_roundoff.
  assert (Hw1 : 0 <= W * (1 - / 4503599627370496) <= W - 1) by lra.
  assert (Hw2 : 0 <= W + 1 <= W * (1 + / 4503599627370496)) by lra.
  assert (HB : 0 < B * B) by nra.
  split.
  - replace (W * B * (1 - / 4503599627370496) * (W * B * (1 - / 4503599627370496)))
      with ((W * (1 - / 4503599627370496)) * (W * (1 - / 4503599627370496)) * (B * B)) by ring.
    apply Rmult_le_compat_r; [lra|].
    apply Rle_trans with ((W - 1) * (W - 1)); [|exact Hlow].
    apply Rmult_le_compat; lra.
  - replace (W * B * (1 + / 4503599627370496) * (W * B * (1 + / 4503599627370496)))
      with ((W * (1 + / 4503599627370496)) * (W * (1 + / 4503599627370496)) * (B * B)) by ring.
    apply Rmult_le_compat_r; [lra|].
    apply Rle_trans with ((W + 1) * (W + 1)); [exact Hupp|].
    apply Rmult_le_compat; lra.
Qed.

(** The quotient of two normal numbers, when it is in the range of the
    normal numbers. *)
Lemma div_normal : forall m1 e1 m2 e2,
  (2 ^ 52 <= Z.pos m1 < 2 ^ 53)%Z -> (2 ^ 52 <= Z.pos m2 < 2 ^ 53)%Z ->
  (emin64 <= e1 - e2 - 53)%Z -> (e1 - e2 <= 1022)%Z ->
  exists m' e',
    div (S754_finite false m1 e1) (S754_finite false m2 e2) = S754_finite false m' e'
    /\ (2 ^ 52 <= Z.pos m' < 2 ^ 53)%Z
    /\ (e1 - e2 - 53 <= e' <= e1 - e2 - 51)%Z
    /\ to_real (S754_finite false m' e') * (1 - unit_roundoff)
         * to_real (S754_finite false m2 e2)
       <= to_real (S754_finite false m1 e1)
       <= to_real (S754_finite false m' e') * (1 + unit_roundoff)
            * to_real (S754_finite false m2 e2).
Proof.
  intros m1 e1 m2 e2 H1 H2 Hlo Hhi.
  assert (D1 : Z.pos (digits2_pos m1) = 53%Z) by (apply digits2_unique; exact H1).
  assert (D2 : Z.pos (digits2_pos m2) = 53%Z) by (apply digits2_unique; exact H2).
  unfold div, SFdiv, SFdiv_core_binary. cbn [Zdigits2 xorb]. rewrite D1, D2.
  set (e0 := (e1 - e2 - 53)%Z).
  assert (Ee : Z.min (fexp prec emax (53 + e1 - (53 + e2))) (e1 - e2) = e0).
  { unfold fexp, emin64, emin, prec, emax, e0 in *. lia. }
  rewrite Ee. replace (e1 - e2 - e0)%Z with 53%Z by (unfold e0; lia).
  rewrite Z.shiftl_mul_pow2 by lia.
  pose proof (Z_div_mod (Z.pos m1 * 2 ^ 53) (Z.pos m2) ltac:(lia)) as Hdiv.
  destruct (Z.div_eucl (Z.pos m1 * 2 ^ 53) (Z.pos m2)) as [q r].
  destruct Hdiv as [Hq Hr].
  change (2 ^ 52)%Z with 4503599627370496%Z in *.
  change (2 ^ 53)%Z with 9007199254740992%Z in *.
  assert (Hqr : (4503599627370496 <= q < 18014398509481984)%Z) by nia.
  destruct q as [|q|q]; try lia.
  assert (Dq : (52 < Z.pos (digits2_pos q) <= 54)%Z).
  { apply digits2_between; [lia|]. change (2 ^ 52)%Z with 4503599627370496%Z.
    change (2 ^ 54)%Z with 18014398509481984%Z. lia. }
  pose proof (pow2_pos e0) as Bp. pose proof (pow2_pos e2) as B2.
  assert (Hm2 : 0 < IZR (Z.pos m2)) by (apply IZR_lt; lia).
  destruct (binary_round_aux_real false q e0 (new_location (Z.pos m2) r)
              (IZR (Z.pos m1 * 9007199254740992) / IZR (Z.pos m2) * powerRZ 2 e0))
    as (m' & e' & E & Hm & He & Hv);
    try (unfold e0, emin64, emin, prec, emax in *; lia).
  { rewrite Hq, !plus_IZR, mult_IZR.
    assert (0 <= IZR r < IZR (Z.pos m2)) by (split; [apply IZR_le|apply IZR_lt]; lia).
    replace ((IZR (Z.pos m2) * IZR (Z.pos q) + IZR r) / IZR (Z.pos m2))
      with (IZR (Z.pos q) + IZR r / IZR (Z.pos m2)) by (field; lra).
    assert (0 <= IZR r / IZR (Z.pos m2) < 1).
    { split; [apply Rmult_le_pos; [lra|left; apply Rinv_0_lt_compat; lra]|].
      apply Rmult_lt_reg_r with (IZR (Z.pos m2)); [lra|].
      unfold Rdiv. rewrite Rmult_assoc, Rinv_l by lra. lra. }
    split; apply Rmult_le_compat_r; lra. }
  exists m', e'. split; [exact E|]. split; [exact Hm|].
  split; [unfold e0 in *; lia|].
  cbn [to_real cond_Zopp].
  assert (HA : IZR (Z.pos m1) * powerRZ 2 e1
               = IZR (Z.pos m1 * 9007199254740992) / IZR (Z.pos m2) * powerRZ 2 e0
                 * (IZR (Z.pos m2) * powerRZ 2 e2)).
  { replace e1 with (53 + (e0 + e2))%Z at 1 by (unfold e0; lia).
    rewrite !pow2_add, mult_IZR.
    change (powerRZ 2 53) with (2 ^ 53). 
    replace (IZR 9007199254740992) with (2 ^ 53) by (simpl; lra).
    field. lra. }
  rewrite HA.
  assert (HB : 0 < IZR (Z.pos m2) * powerRZ 2 e2) by (apply Rmult_lt_0_compat; lra).
  destruct Hv as [Hv1 Hv2].
  split; apply Rmult_le_compat_r; lra.
Qed.

(** Comparison of two positive normal numbers follows their values. *)
Lemma SFleb_normal : forall m1 e1 m2 e2,
  (2 ^ 52 <= Z.pos m1 < 2 ^ 53)%Z -> (2 ^ 52 <= Z.pos m2 < 2 ^ 53)%Z ->
  to_real (S754_finite false m1 e1) <= to_real (S754_finite false m2 e2) ->
  SFleb (S754_finite false m1 e1) (S754_finite false m2 e2) = true.
Proof.
  intros m1 e1 m2 e2 H1 H2 H. unfold SFleb, SFcompare. cbn [to_real cond_Zopp] in H.
  destruct (Z.compare_spec e1 e2) as [->|Hlt|Hgt].
  - pose proof (pow2_pos e2) as Bp.
    apply Rmult_le_reg_r in H; [|exact Bp]. apply le_IZR in H.
    change (PosDef.Pos.compare_cont Eq m1 m2) with (Pos.compare m1 m2).
    destruct (Pos.compare_spec m1 m2); try reflexivity. lia.
  - reflexivity.
  - exfalso.
    assert (Hp : powerRZ 2 e1 = IZR (2 ^ (e1 - e2)) * powerRZ 2 e2).
    { rewrite IZR_pow2 by lia. rewrite <- pow2_add. f_equal. lia. }
    rewrite Hp, <- Rmult_assoc in H. pose proof (pow2_pos e2) as Bp.
    apply Rmult_le_reg_r in H; [|exact Bp]. rewrite <- mult_IZR in H. apply le_IZR in H.
    assert (2 ^ 1 <= 2 ^ (e1 - e2))%Z by (apply Z.pow_le_mono_r; lia).
    change (2 ^ 1)%Z with 2%Z in *.
    change (2 ^ 52)%Z with 4503599627370496%Z in *.
    change (2 ^ 53)%Z with 9007199254740992%Z in *. nia.
Qed.

(** [s / (sqrt s * sqrt s)] for a normal [s] away from the ends of the
    range is a normal number within [2^-49] of 1. *)
Lemma div_by_squared_sqrt : forall m e,
  (2 ^ 52 <= Z.pos m < 2 ^ 53)%Z -> (-1073 <= e <= 967)%Z ->
  let s := S754_finite false m e in
  exists mq eq,
    div s (mul (sqrt s) (sqrt s)) = S754_finite false mq eq
    /\ (2 ^ 52 <= Z.pos mq < 2 ^ 53)%Z
    /\ 1 - 8 * unit_roundoff <= to_real (S754_finite false mq eq) <= 1 + 8 * unit_roundoff.
Proof.
  intros m e Hm He s. unfold s.
  destruct (sqrt_normal m e Hm) as (mr & er & Er & Hmr & Her & Hr);
    [unfold emin64, emin, prec, emax; lia|].
  rewrite Er.
  destruct (mul_normal mr er mr er Hmr Hmr) as (mp & ep & Ep & Hmp & Hep & Hp);
    try (unfold emin64, emin, prec, emax; lia).
  rewrite Ep.
  destruct (div_normal m e mp ep Hm Hmp) as (mq & eq & Eq & Hmq & Heq & Hq);
    try (unfold emin64, emin, prec, emax; lia).
  exists mq, eq. split; [exact Eq|]. split; [exact Hmq|].
  assert (HP : 0 < to_real (S754_finite false mp ep)).
  { cbn [to_real cond_Zopp]. apply Rmult_lt_0_compat; [apply IZR_lt; lia|apply pow2_pos]. }
  set (Q := to_real (S754_finite false mq eq)) in *.
  set (P := to_real (S754_finite false mp ep)) in *.
  set (A := to_real (S754_finite false mr er)) in *.
  set (S := to_real (S754_finite false m e)) in *.
  unfold unit_roundoff in *.
  destruct Hr as [Hr1 Hr2], Hp as [Hp1 Hp2], Hq as [Hq1 Hq2].
  assert (Hup : Q * P * (1 - / 4503599627370496)
                <= P * ((1 + / 4503599627370496) * (1 + / 4503599627370496)
                        * (1 + / 4503599627370496))).
  { assert (A * A * ((1 + / 4503599627370496) * (1 + / 4503599627370496))
            <= P * (1 + / 4503599627370496)
               * ((1 + / 4503599627370496) * (1 + / 4503599627370496)))
      by (apply Rmult_le_compat_r; lra).
    lra. }
  assert (Hdn : P * ((1 - / 4503599627370496) * (1 - / 4503599627370496)
                     * (1 - / 4503599627370496))
                <= Q * P * (1 + / 4503599627370496)).
  { assert (P * (1 - / 4503599627370496)
               * ((1 - / 4503599627370496) * (1 - / 4503599627370496))
            <= A * A * ((1 - / 4503599627370496) * (1 - / 4503599627370496)))
      by (apply Rmult_le_compat_r; lra).
    lra. }
  split; apply Rmult_le_reg_r with P; try exact HP; lra.
Qed.

End Rounding.

End Binary64Facts.

Module CosineFacts.
Import JSNumber MemoryVectorStore NumberOrder VectorSamples Binary64Facts.

(** On a vector and itself the three accumulators stay equal. *)
Lemma accumulate_self :
  forall (num : Type) (arith : Arithmetic num) (v : list num) (acc : num),
    accumulate v v acc acc acc
    = (fold_left (fun acc x => num_add acc (num_mul x x)) v acc,
       fold_left (fun acc x => num_add acc (num_mul x x)) v acc,
       fold_left (fun acc x => num_add acc (num_mul x x)) v acc).
Proof.
  intros num arith. induction v as [|x v IH]; intro acc; cbn [accumulate fold_left].
  - reflexivity.
  - apply IH.
Qed.

Lemma cosineSimilarity_self :
  forall (num : Type) (arith : Arithmetic num) (v : list num),
    cosineSimilarity v v
    = num_div (sum_of_squares v)
              (num_mul (num_sqrt (sum_of_squares v)) (num_sqrt (sum_of_squares v))).
Proof.
  intros num arith v. unfold cosineSimilarity, sum_of_squares.
  rewrite Nat.eqb_refl. cbn [negb]. rewrite accumulate_self. reflexivity.
Qed.

Lemma cosineSimilarity_mismatch :
  forall (num : Type) (arith : Arithmetic num) (a b : list num),
    List.length a <> List.length b -> cosineSimilarity a b = num_zero.
Proof.
  intros num arith a b H. unfold cosineSimilarity.
  apply Nat.eqb_neq in H. now rewrite H.
Qed.

(** *** Exact arithmetic *)

Lemma squares_grow : forall (v : list R) (acc : R),
  (acc <= fold_left (fun acc x => acc + x * x) v acc)%R.
Proof.
  induction v as [|x v IH]; intro acc; cbn [fold_left]; [lra|].
  specialize (IH (acc + x * x)%R). nra.
Qed.

Lemma squares_positive : forall (v : list R) (acc : R),
  (0 <= acc)%R -> Exists (fun x => x <> 0%R) v ->
  (0 < fold_left (fun acc x => acc + x * x) v acc)%R.
Proof.
  induction v as [|x v IH]; intros acc Hacc Hex; inversion Hex; subst; cbn [fold_left].
  - pose proof (squares_grow v (acc + x * x)%R). nra.
  - apply IH; [nra|assumption].
Qed.

Lemma cosineSimilarity_self_exact : forall v : list R,
  Exists (fun x => x <> 0%R) v -> cosineSimilarity v v = 1%R.
Proof.
  intros v Hex. rewrite cosineSimilarity_self.
  unfold sum_of_squares. cbn [num_div num_mul num_sqrt num_add num_zero exact_reals].
  pose proof (squares_positive v 0%R ltac:(lra) Hex) as Hpos.
  rewrite sqrt_sqrt by lra. unfold Rdiv. apply Rinv_r. lra.
Qed.

(** *** Binary64: a zero vector *)

Lemma accumulate_zero_left : forall a b dotProduct normA normB,
  all_zero a = true -> zero_or_nan dotProduct = true -> normA = zero ->
  zero_or_nan (fst (fst (accumulate a b dotProduct normA normB))) = true
  /\ snd (fst (accumulate a b dotProduct normA normB)) = zero.
Proof.
  induction a as [|x a IH]; intros b dotProduct normA normB Ha Hd Hn;
    cbn [accumulate]; [now split|].
  destruct b as [|y b]; [now split|].
  cbn [all_zero forallb] in Ha. apply andb_true_iff in Ha as [Hx Ha].
  apply IH.
  - exact Ha.
  - apply add_zero_or_nan; [assumption|]. now apply mul_zero_l.
  - cbn [num_add num_mul binary64]. subst normA.
    rewrite (mul_zero_zero x Hx). reflexivity.
Qed.

Lemma accumulate_zero_right : forall a b dotProduct normA normB,
  all_zero b = true -> zero_or_nan dotProduct = true -> normB = zero ->
  zero_or_nan (fst (fst (accumulate a b dotProduct normA normB))) = true
  /\ snd (accumulate a b dotProduct normA normB) = zero.
Proof.
  induction a as [|x a IH]; intros b dotProduct normA normB Hb Hd Hn;
    cbn [accumulate]; [now split|].
  destruct b as [|y b]; [now split|].
  cbn [all_zero forallb] in Hb. apply andb_true_iff in Hb as [Hy Hb].
  apply IH.
  - exact Hb.
  - apply add_zero_or_nan; [assumption|]. now apply mul_zero_r.
  - cbn [num_add num_mul binary64]. subst normB.
    rewrite (mul_zero_zero y Hy). reflexivity.
Qed.

Lemma cosineSimilarity_zero_vector : forall a b : list number,
  List.length a = List.length b -> all_zero a = true \/ all_zero b = true ->
  cosineSimilarity a b = NaN.
Proof.
  intros a b Hlen Hzero. unfold cosineSimilarity.
  apply Nat.eqb_eq in Hlen. rewrite Hlen. cbn [negb].
  cbn [num_zero num_div num_mul num_sqrt binary64].
  destruct Hzero as [Ha|Hb].
  - destruct (accumulate_zero_left a b zero zero zero Ha eq_refl eq_refl) as [Hd Hn].
    destruct (accumulate a b zero zero zero) as [[dotProduct normA] normB].
    cbn [fst snd] in Hd, Hn. subst normA.
    apply div_zero_or_nan; [assumption|]. now apply mul_zero_or_nan_l.
  - destruct (accumulate_zero_right a b zero zero zero Hb eq_refl eq_refl) as [Hd Hn].
    destruct (accumulate a b zero zero zero) as [[dotProduct normA] normB].
    cbn [fst snd] in Hd, Hn. subst normB.
    apply div_zero_or_nan; [assumption|]. now apply mul_zero_or_nan_r.
Qed.

(** *** The sort keeps its elements *)

Lemma In_insert : forall (A : Type) (compareFn : A -> A -> number) (x y : A) (l : list A),
  In y (insert compareFn x l) <-> y = x \/ In y l.
Proof.
  intros A compareFn x y. induction l as [|z l IH]; cbn [insert].
  - cbn. intuition.
  - destruct (is_pos (compareFn x z)); cbn [In]; [rewrite IH|]; intuition.
Qed.

Lemma In_sort : forall (A : Type) (compareFn : A -> A -> number) (y : A) (l : list A),
  In y (sort compareFn l) <-> In y l.
Proof.
  intros A compareFn y. induction l as [|x l IH]; cbn [sort]; [reflexivity|].
  rewrite In_insert, IH. cbn. intuition.
Qed.

Lemma length_insert : forall (A : Type) (compareFn : A -> A -> number) (x : A) (l : list A),
  List.length (insert compareFn x l) = S (List.length l).
Proof.
  intros A compareFn x. induction l as [|z l IH]; cbn [insert]; [reflexivity|].
  destruct (is_pos (compareFn x z)); cbn [List.length]; [now rewrite IH|reflexivity].
Qed.

Lemma length_sort : forall (A : Type) (compareFn : A -> A -> number) (l : list A),
  List.length (sort compareFn l) = List.length l.
Proof.
  intros A compareFn. induction l as [|x l IH]; cbn [sort]; [reflexivity|].
  now rewrite length_insert, IH.
Qed.

Lemma slice_to_all : forall (A : Type) (l : list A) (last : Z),
  (Z.of_nat (List.length l) <= last)%Z -> slice_to last l = l.
Proof.
  intros A l last H. unfold slice_to.
  destruct (Z.ltb_spec last 0); [lia|]. apply firstn_all2. lia.
Qed.

(** *** Binary64: a computed norm of zero *)

Lemma accumulate_norms : forall (a b : list number) dotProduct normA normB,
  List.length a = List.length b ->
  snd (fst (accumulate a b dotProduct normA normB))
  = fold_left (fun acc x => add acc (mul x x)) a normA
  /\ snd (accumulate a b dotProduct normA normB)
     = fold_left (fun acc x => add acc (mul x x)) b normB.
Proof.
  induction a as [|x a IH]; intros [|y b] dotProduct normA normB Hlen;
    try discriminate; cbn [accumulate fold_left]; [now split|].
  apply IH. now injection Hlen.
Qed.

Lemma div_by_zero_or_nan : forall x y,
  zero_or_nan y = true -> div x y = NaN \/ exists s, div x y = S754_infinity s.
Proof.
  intros [sx|sx| |sx mx ex] [sy|sy| |sy my ey] Hy; try discriminate;
    try (now left); right; eexists; reflexivity.
Qed.

Lemma cosineSimilarity_zero_norm : forall a b : list number,
  List.length a = List.length b ->
  is_zero (sum_of_squares a) = true \/ is_zero (sum_of_squares b) = true ->
  cosineSimilarity a b = NaN \/ exists s, cosineSimilarity a b = S754_infinity s.
Proof.
  intros a b Hlen Hzero. unfold cosineSimilarity.
  pose proof (accumulate_norms a b zero zero zero Hlen) as [HA HB].
  apply Nat.eqb_eq in Hlen. rewrite Hlen. cbn [negb].
  cbn [num_zero num_div num_mul num_sqrt binary64].
  destruct (accumulate a b zero zero zero) as [[dotProduct normA] normB].
  cbn [fst snd] in HA, HB. apply div_by_zero_or_nan.
  unfold sum_of_squares in Hzero. cbn [num_zero num_add num_mul binary64] in Hzero.
  rewrite <- HA, <- HB in Hzero. destruct Hzero as [Hz|Hz].
  - apply mul_zero_l. now apply sqrt_zero.
  - apply mul_zero_r. now apply sqrt_zero.
Qed.

(** *** The sort under a query of zeros *)

Lemma sub_zero_or_nan : forall x y,
  zero_or_nan x = true -> zero_or_nan y = true -> is_pos (sub x y) = false.
Proof.
  intros [[]| | |] [[]| | |] Hx Hy; try discriminate; reflexivity.
Qed.

(** When every score is a zero or NaN, every comparison is one too, and
    the sort leaves the list as it is. *)
Lemma sort_unordered : forall l : list ISemanticSearchResult,
  Forall (fun r => zero_or_nan (score r) = true) l ->
  sort byScoreDescending l = l.
Proof.
  induction l as [|x l IH]; intro H; cbn [sort]; [reflexivity|].
  inversion H as [|? ? Hx Hl]; subst. rewrite (IH Hl).
  destruct l as [|y l]; cbn [insert]; [reflexivity|].
  inversion Hl as [|? ? Hy _]; subst.
  unfold byScoreDescending. now rewrite sub_zero_or_nan.
Qed.

Lemma scored_by_zero_query : forall (embedding : list number)
    (entry : string * ICategorizedContext),
  all_zero embedding = true ->
  zero_or_nan (score (scored embedding entry)) = true
  /\ (List.length (doc_embedding (snd entry)) = List.length embedding ->
      score (scored embedding entry) = NaN).
Proof.
  intros embedding entry Hzero. cbn [scored score].
  destruct (Nat.eq_dec (List.length embedding) (List.length (doc_embedding (snd entry))))
    as [Hlen|Hlen].
  - rewrite (cosineSimilarity_zero_vector _ _ Hlen (or_introl Hzero)). now split.
  - rewrite (cosineSimilarity_mismatch _ _ _ _ Hlen). split; [reflexivity|].
    intro H. now symmetry in H.
Qed.

Lemma similaritySearch_as_scored : forall embedding topK (documents : Documents),
  similaritySearch embedding topK documents
  = slice_to topK (sort byScoreDescending (map (scored embedding) documents)).
Proof.
  intros. unfold similaritySearch. do 2 f_equal. apply map_ext. now intros [k d].
Qed.

(** C10 (amended).  On two vectors of the same length of which one has a
    sum of squares that is computed as zero, [cosineSimilarity] divides by
    zero: it returns NaN or an infinity, neither a finite number nor an
    error, and it returns NaN when every component of one of the vectors
    is a zero.  A NaN score is stored and handed to the sort like any
    other.  For a query of zeros, every document whose embedding has the
    length of the query is scored NaN (the others 0), every comparison of
    the sort is NaN or 0, and [similaritySearch] returns the first [topK]
    documents in the order of their insertion.  For any query, a document
    whose embedding is a zero vector of the query's length is among the
    results with the score NaN when [topK] leaves no document out; so the
    query [1, 0] over the three documents of [three_documents] returns the
    document scored 1, then the one scored 0, then the one scored NaN. *)
Theorem zero_vector_similarity_is_NaN :
  (forall a b : list number,
     List.length a = List.length b ->
     is_zero (sum_of_squares a) = true \/ is_zero (sum_of_squares b) = true ->
     cosineSimilarity a b = NaN \/ exists s, cosineSimilarity a b = S754_infinity s)
  /\ (forall a b : list number,
        List.length a = List.length b -> all_zero a = true \/ all_zero b = true ->
        cosineSimilarity a b = NaN)
  /\ (forall (embedding : list number) (topK : Z) (documents : Documents),
        all_zero embedding = true ->
        (0 <= topK)%Z ->
        similaritySearch embedding topK documents
        = firstn (Z.to_nat topK) (map (scored embedding) documents)
        /\ sort byScoreDescending (map (scored embedding) documents)
           = map (scored embedding) documents
        /\ (forall entry, In entry documents ->
              List.length (doc_embedding (snd entry)) = List.length embedding ->
              score (scored embedding entry) = NaN))
  /\ (forall (documents : Documents) (embedding : list number) (topK : Z)
             (key : string) (doc : ICategorizedContext),
        In (key, doc) documents ->
        all_zero (doc_embedding doc) = true ->
        List.length (doc_embedding doc) = List.length embedding ->
        (Z.of_nat (List.length documents) <= topK)%Z ->
        exists result,
          In result (similaritySearch embedding topK documents)
          /\ id result = key /\ score result = NaN)
  /\ similaritySearch [ofZ 1; zero] 3 three_documents
     = [mkResult "along" "along" one [ofZ 1; zero];
        mkResult "across" "across" zero [zero; ofZ 1];
        mkResult "null" "null" NaN [zero; zero]].
Proof.
  split; [exact cosineSimilarity_zero_norm|].
  split; [exact cosineSimilarity_zero_vector|].
  split; [|split; [|vm_compute; reflexivity]].
  - intros embedding topK documents Hzero HtopK.
    assert (Hsort : sort byScoreDescending (map (scored embedding) documents)
                    = map (scored embedding) documents).
    { apply sort_unordered, Forall_forall. intros r Hr.
      apply in_map_iff in Hr as (entry & <- & _).
      now apply scored_by_zero_query. }
    split; [|split; [exact Hsort|]].
    { rewrite similaritySearch_as_scored, Hsort. unfold slice_to.
      destruct (Z.ltb_spec topK 0); [lia|reflexivity]. }
    intros entry _. now apply scored_by_zero_query.
  - intros documents embedding topK key doc Hin Hzero Hlen Htop.
    exists (mkResult key (doc_content doc) NaN (doc_embedding doc)).
    split; [|split; reflexivity].
    unfold similaritySearch. rewrite slice_to_all.
    + apply In_sort. apply in_map_iff. exists (key, doc). split; [|assumption].
      cbn. f_equal. apply cosineSimilarity_zero_vector; [now symmetry|now right].
    + now rewrite length_sort, length_map.
Qed.

(** The zero vector against [1, 0]; a search with the zero vector over
    three documents, which come back in the order of their insertion, each
    with the score NaN; and a search with [1, 0] over a store whose only
    document has a zero embedding. *)
Lemma zero_vector_similarity_is_NaN_witness :
  cosineSimilarity [zero; zero] [ofZ 1; zero] = NaN
  /\ similaritySearch [zero; zero] 2 three_documents
     = [mkResult "across" "across" NaN [zero; ofZ 1];
        mkResult "along" "along" NaN [ofZ 1; zero]]
  /\ exists result,
       In result (similaritySearch [ofZ 1; zero] 10 zero_document)
       /\ id result = "doc_z" /\ score result = NaN.
Proof.
  destruct zero_vector_similarity_is_NaN as (_ & Hnan & Hquery & Hdoc & _).
  split; [apply Hnan; [reflexivity|now left]|].
  split.
  - destruct (Hquery [zero; zero] 2%Z three_documents eq_refl ltac:(lia)) as [-> _].
    vm_compute. reflexivity.
  - apply (Hdoc zero_document [ofZ 1; zero] 10%Z "doc_z"
             (mkDocument "code_context" "empty file" [zero; zero])).
    + now left.
    + reflexivity.
    + reflexivity.
    + cbn. lia.
Defined.

(** C10 as stated fails: a zero norm does not always give NaN.  The sum of
    squares of the vector [2^-600] underflows to zero, so that its norm is
    computed as zero, and against [1], a vector of the same length, its
    similarity is Infinity. *)
Lemma zero_norm_similarity_is_Infinity :
  List.length tiny = List.length [ofZ 1]
  /\ is_zero (sum_of_squares tiny) = true
  /\ is_zero (sqrt (sum_of_squares tiny)) = true
  /\ cosineSimilarity tiny [ofZ 1] = Infinity
  /\ isNaN (cosineSimilarity tiny [ofZ 1]) = false.
Proof. repeat split; vm_compute; reflexivity. Qed.

(** *** Binary64: a vector against itself *)

Local Open Scope R_scope.

Lemma close_to_one_normal : forall mq eq,
  (2 ^ 52 <= Z.pos mq < 2 ^ 53)%Z ->
  1 - 8 * unit_roundoff <= to_real (S754_finite false mq eq) <= 1 + 8 * unit_roundoff ->
  close_to_one (S754_finite false mq eq) = true.
Proof.
  intros mq eq Hm [Hl Hu]. unfold close_to_one, unit_roundoff in *.
  apply andb_true_intro. split.
  - let c := eval vm_compute in (decimal 999999 1000000) in
    change (decimal 999999 1000000) with c.
    apply SFleb_normal; [vm_compute; split; [discriminate|reflexivity]|exact Hm|].
    eapply Rle_trans; [|exact Hl]. cbn [to_real cond_Zopp].
    assert (H53 : powerRZ 2 (-53) = / 9007199254740992) by exact (pow2_neg 53 ltac:(lia)).
    rewrite H53. lra.
  - let c := eval vm_compute in (decimal 1000001 1000000) in
    change (decimal 1000001 1000000) with c.
    apply SFleb_normal; [exact Hm|vm_compute; split; [discriminate|reflexivity]|].
    eapply Rle_trans; [exact Hu|]. cbn [to_real cond_Zopp].
    assert (H52 : powerRZ 2 (-52) = / 4503599627370496) by exact (pow2_neg 52 ltac:(lia)).
    rewrite H52. lra.
Qed.

Lemma cosineSimilarity_self_close : forall (v : list number) m e,
  sum_of_squares v = S754_finite false m e ->
  (2 ^ 52 <= Z.pos m < 2 ^ 53)%Z -> (-1073 <= e <= 967)%Z ->
  close_to_one (cosineSimilarity v v) = true
  /\ 1 - 8 * unit_roundoff <= to_real (cosineSimilarity v v) <= 1 + 8 * unit_roundoff.
Proof.
  intros v m e Hs Hm He. rewrite cosineSimilarity_self.
  cbn [num_div num_mul num_sqrt binary64]. rewrite Hs.
  destruct (div_by_squared_sqrt m e Hm He) as (mq & eq & E & Hmq & Hq).
  rewrite E. split; [now apply close_to_one_normal|exact Hq].
Qed.

Local Close Scope R_scope.

(** C8 (amended).  Vectors of different lengths have similarity 0, with
    no error.  The similarity of a vector with itself is within
    floating tolerance of 1 (within [2^-49], and so within a millionth)
    whenever the sum of its squares, as accumulated in binary64, is a
    normal number from [2^-1021] up to [2^1020], which leaves out the zero
    vector and the vectors whose squares overflow or underflow; and in
    exact arithmetic it is 1 for every non-zero vector. *)
Theorem cosine_similarity_laws :
  (forall a b : list number,
     List.length a <> List.length b -> cosineSimilarity a b = zero)
  /\ (forall v : list number,
        moderate (sum_of_squares v) = true ->
        close_to_one (cosineSimilarity v v) = true
        /\ (1 - 8 * unit_roundoff <= to_real (cosineSimilarity v v)
            <= 1 + 8 * unit_roundoff)%R)
  /\ (forall v : list R,
        Exists (fun x => x <> 0%R) v -> cosineSimilarity v v = 1%R).
Proof.
  split; [intros a b H; now apply cosineSimilarity_mismatch|].
  split; [|exact cosineSimilarity_self_exact].
  intros v H. unfold moderate in H.
  destruct (sum_of_squares v) as [| | |[|] m e] eqn:Hs; try discriminate.
  apply andb_prop in H. destruct H as [H He2].
  apply andb_prop in H. destruct H as [H He1].
  apply andb_prop in H. destruct H as [Hm1 Hm2].
  apply Z.leb_le in Hm1, He1, He2. apply Z.ltb_lt in Hm2.
  apply (cosineSimilarity_self_close v m e Hs); lia.
Qed.

(** Lengths 2 and 1; the vector [0.1, 0.2, 0.3], whose sum of squares is
    about 0.14; and the vector [3, 4] over the reals. *)
Lemma cosine_similarity_laws_witness :
  cosineSimilarity [ofZ 1; ofZ 2] [ofZ 1] = zero
  /\ close_to_one (cosineSimilarity [decimal 1 10; decimal 2 10; decimal 3 10]
                                    [decimal 1 10; decimal 2 10; decimal 3 10]) = true
  /\ cosineSimilarity [3; 4]%R [3; 4]%R = 1%R.
Proof.
  destruct cosine_similarity_laws as (Hmismatch & Hclose & Hexact).
  split; [apply Hmismatch; cbn; lia|].
  split.
  - apply (Hclose [decimal 1 10; decimal 2 10; decimal 3 10]). vm_compute. reflexivity.
  - apply Hexact. constructor. lra.
Defined.

(** C8 as stated fails: the vector [1e200] is not zero, yet its similarity
    with itself is NaN (the sum of squares overflows to Infinity), which is
    within no tolerance of 1. *)
Lemma self_similarity_overflow :
  all_zero huge = false
  /\ cosineSimilarity huge huge = NaN
  /\ close_to_one (cosineSimilarity huge huge) = false.
Proof.
  repeat split; vm_compute; reflexivity.
Qed.

End CosineFacts.

Module HybridFacts.
Import JSNumber MemoryVectorStore NumberOrder VectorSamples HybridSamples.
Import JSMapFacts Binary64Facts CosineFacts.

(** *** The sort orders by value *)

Lemma insert_descending : forall x l,
  regular (score x) -> Forall (fun r => regular (score r)) l ->
  StronglySorted descending l ->
  StronglySorted descending (insert byScoreDescending x l).
Proof.
  intros x l Hx. induction l as [|z l IH]; intros Hl Hs; cbn [insert].
  - constructor; constructor.
  - inversion Hl as [|? ? Hz Hl']; subst. inversion Hs as [|? ? Hs' Hzl]; subst.
    pose proof (sub_positive (score x) (score z) Hx Hz) as Hpos.
    unfold byScoreDescending at 1.
    destruct (is_pos (sub (score z) (score x))).
    + constructor; [now apply IH|].
      apply Forall_forall. intros w Hw. apply In_insert in Hw as [->|Hw].
      * apply extended_lt_le. now apply Hpos.
      * rewrite Forall_forall in Hzl. now apply Hzl.
    + assert (Hxz : descending x z).
      { apply extended_not_lt. intro Hlt. apply Hpos in Hlt. discriminate. }
      constructor; [assumption|].
      constructor; [assumption|].
      rewrite Forall_forall in Hzl |- *. intros w Hw.
      unfold descending, number_le in *.
      eapply extended_le_trans; [apply Hzl; exact Hw|exact Hxz].
Qed.

Lemma sort_descending : forall l,
  Forall (fun r => regular (score r)) l ->
  StronglySorted descending (sort byScoreDescending l).
Proof.
  induction l as [|x l IH]; intros Hl; cbn [sort]; [constructor|].
  inversion Hl as [|? ? Hx Hl']; subst.
  apply insert_descending; [assumption| |now apply IH].
  apply Forall_forall. intros w Hw. apply In_sort in Hw.
  rewrite Forall_forall in Hl'. now apply Hl'.
Qed.

(** *** The sort is a permutation *)

Lemma insert_permutation : forall (A : Type) (compareFn : A -> A -> number) x l,
  Permutation (insert compareFn x l) (x :: l).
Proof.
  intros A compareFn x. induction l as [|z l IH]; cbn [insert]; [reflexivity|].
  destruct (is_pos (compareFn x z)); [|reflexivity].
  rewrite IH. apply perm_swap.
Qed.

Lemma sort_permutation : forall (A : Type) (compareFn : A -> A -> number) l,
  Permutation (sort compareFn l) l.
Proof.
  intros A compareFn. induction l as [|x l IH]; cbn [sort]; [reflexivity|].
  rewrite insert_permutation. now constructor.
Qed.

(** *** Looking a result up by its id *)

Lemma find_result_none : forall key l,
  ~ In key (map id l) -> find_result key l = None.
Proof.
  intros key. induction l as [|r l IH]; cbn; intros H; [reflexivity|].
  destruct (String.eqb_spec (id r) key) as [E|E]; [exfalso; auto|].
  apply IH. intro. apply H. now right.
Qed.

Lemma find_result_permutation : forall key l l',
  Permutation l l' -> NoDup (map id l) -> find_result key l = find_result key l'.
Proof.
  intros key l l' Hp. induction Hp as [|x l l' Hp IH|x y l|l l' l'' Hp1 IH1 Hp2 IH2];
    intros Hnd.
  - reflexivity.
  - cbn in *. inversion Hnd; subst. destruct (String.eqb (id x) key); auto.
  - cbn in *. inversion Hnd as [|? ? Hy Hnd']; subst. inversion Hnd'; subst.
    destruct (String.eqb_spec (id y) key) as [Ey|Ey],
             (String.eqb_spec (id x) key) as [Ex|Ex]; try reflexivity.
    exfalso. apply Hy. left. congruence.
  - rewrite IH1 by assumption. apply IH2.
    eapply Permutation_NoDup; [|exact Hnd]. now apply Permutation_map.
Qed.

Lemma find_result_values : forall key (m : JSMap.t ISemanticSearchResult),
  keyed m -> find_result key (JSMap.values m) = JSMap.get key m.
Proof.
  intros key. induction m as [|[k r] m IH]; intros Hk; [reflexivity|].
  inversion Hk as [|? ? Hr Hk']; subst. cbn in Hr. cbn. rewrite Hr.
  destruct (String.eqb k key); [reflexivity|]. now apply IH.
Qed.

Lemma keyed_ids : forall m : JSMap.t ISemanticSearchResult,
  keyed m -> map id (JSMap.values m) = JSMap.keys m.
Proof.
  induction m as [|[k r] m IH]; intros Hk; [reflexivity|].
  inversion Hk as [|? ? Hr Hk']; subst. cbn in *. rewrite Hr. f_equal. now apply IH.
Qed.

Lemma keyed_set : forall k r (m : JSMap.t ISemanticSearchResult),
  id r = k -> keyed m -> keyed (JSMap.set k r m).
Proof.
  intros k r m Hr Hk. apply Forall_forall. intros entry Hin.
  apply In_set in Hin as [->|Hin]; [exact Hr|].
  unfold keyed in Hk. rewrite Forall_forall in Hk. now apply Hk.
Qed.

Lemma keyed_get : forall k r (m : JSMap.t ISemanticSearchResult),
  keyed m -> JSMap.get k m = Some r -> id r = k.
Proof.
  intros k r m Hk Hget. apply get_In in Hget.
  unfold keyed in Hk. rewrite Forall_forall in Hk. exact (Hk _ Hget).
Qed.

Lemma regular_set : forall k r (m : JSMap.t ISemanticSearchResult),
  regular_or_nan (score r) -> scores_regular_or_nan m ->
  scores_regular_or_nan (JSMap.set k r m).
Proof.
  intros k r m Hr Hm. apply Forall_forall. intros entry Hin.
  apply In_set in Hin as [->|Hin]; [exact Hr|].
  unfold scores_regular_or_nan in Hm. rewrite Forall_forall in Hm. now apply Hm.
Qed.

(** *** The two passes over the result sets *)

Lemma addTextResult_ok : forall weights m r,
  combined_ok m -> combined_ok (addTextResult weights m r).
Proof.
  intros weights m r (Hwf & Hk & Hr). unfold addTextResult. repeat split.
  - now apply wf_set.
  - now apply keyed_set.
  - apply regular_set; [apply mul_regular|assumption].
Qed.

Lemma addSemanticResult_ok : forall weights m r,
  combined_ok m -> combined_ok (addSemanticResult weights m r).
Proof.
  intros weights m r (Hwf & Hk & Hr). unfold addSemanticResult.
  destruct (JSMap.get (id r) m) as [existing|] eqn:Hget; repeat split.
  - now apply wf_set.
  - apply keyed_set; [|assumption]. cbn. eapply keyed_get; eassumption.
  - apply regular_set; [|assumption]. cbn. apply add_regular; [|apply mul_regular].
    apply get_In in Hget. unfold scores_regular_or_nan in Hr.
    rewrite Forall_forall in Hr. exact (Hr _ Hget).
  - now apply wf_set.
  - now apply keyed_set.
  - apply regular_set; [apply mul_regular|assumption].
Qed.

Lemma fold_ok : forall (step : JSMap.t ISemanticSearchResult -> ISemanticSearchResult
                               -> JSMap.t ISemanticSearchResult),
  (forall m r, combined_ok m -> combined_ok (step m r)) ->
  forall results m, combined_ok m -> combined_ok (fold_left step results m).
Proof.
  intros step Hstep. induction results as [|r results IH]; intros m Hm; cbn; auto.
Qed.

Lemma get_after_text : forall weights key textResults m,
  NoDup (map id textResults) ->
  JSMap.get key (fold_left (addTextResult weights) textResults m)
  = match find_result key textResults with
    | Some t => Some (set_score (mul (score t) (w_text weights)) t)
    | None => JSMap.get key m
    end.
Proof.
  intros weights key. induction textResults as [|t results IH]; intros m Hnd;
    [reflexivity|].
  inversion Hnd as [|? ? Hnotin Hnd']; subst.
  cbn [fold_left]. rewrite IH by assumption. cbn [find_result find].
  unfold addTextResult at 1.
  destruct (String.eqb_spec (id t) key) as [E|E].
  - subst key. rewrite (find_result_none (id t) results Hnotin).
    now rewrite get_set_same.
  - fold (find_result key results).
    destruct (find_result key results); [reflexivity|].
    now rewrite get_set_other.
Qed.

Lemma get_after_semantic : forall weights key semanticResults m,
  NoDup (map id semanticResults) ->
  JSMap.get key (fold_left (addSemanticResult weights) semanticResults m)
  = match find_result key semanticResults with
    | Some s =>
        match JSMap.get key m with
        | Some existing =>
            Some (set_score (add (score existing) (mul (score s) (w_semantic weights)))
                            existing)
        | None => Some (set_score (mul (score s) (w_semantic weights)) s)
        end
    | None => JSMap.get key m
    end.
Proof.
  intros weights key. induction semanticResults as [|s results IH]; intros m Hnd;
    [reflexivity|].
  inversion Hnd as [|? ? Hnotin Hnd']; subst.
  cbn [fold_left]. rewrite IH by assumption. cbn [find_result find].
  destruct (String.eqb_spec (id s) key) as [E|E].
  - subst key. rewrite (find_result_none (id s) results Hnotin).
    unfold addSemanticResult.
    destruct (JSMap.get (id s) m); now rewrite get_set_same.
  - fold (find_result key results).
    assert (Hsame : JSMap.get key (addSemanticResult weights m s) = JSMap.get key m).
    { unfold addSemanticResult.
      destruct (JSMap.get (id s) m); now rewrite get_set_other. }
    now rewrite Hsame.
Qed.

Lemma combined_empty : combined_ok [].
Proof. repeat split; constructor. Qed.

(** *** The result sets of the two searches have distinct ids *)

Lemma NoDup_firstn : forall (A : Type) (n : nat) (l : list A),
  NoDup l -> NoDup (firstn n l).
Proof.
  intros A. induction n as [|n IH]; intros [|x l] H; cbn; try constructor.
  - inversion H as [|? ? Hx Hl]; subst. intro Hin. apply Hx.
    rewrite <- (firstn_skipn n l). apply in_or_app. now left.
  - inversion H; subst. now apply IH.
Qed.

Lemma NoDup_slice_to : forall (last : Z) (l : list ISemanticSearchResult),
  NoDup (map id l) -> NoDup (map id (slice_to last l)).
Proof.
  intros last l H. unfold slice_to.
  destruct (last <? 0)%Z; rewrite <- firstn_map; now apply NoDup_firstn.
Qed.

Lemma search_ids : forall query maxResults (documents : Documents),
  JSMap.wf documents -> NoDup (map id (search query maxResults documents)).
Proof.
  intros query maxResults documents Hwf. unfold search. apply NoDup_slice_to.
  unfold JSMap.wf in Hwf.
  assert (Hsub : forall (m : Documents) key,
            In key (map id (flat_map (fun entry : string * ICategorizedContext =>
              let '(id, doc) := entry in
              if includes (toLowerCase query) (toLowerCase (doc_content doc))
              then [mkResult id (doc_content doc) (decimal 8 10) (doc_embedding doc)]
              else []) m)) -> In key (JSMap.keys m)).
  { induction m as [|[k d] m IH]; cbn; intros key H; [assumption|].
    destruct (includes (toLowerCase query) (toLowerCase (doc_content d))); cbn in H.
    - destruct H as [<-|H]; auto.
    - right. now apply IH. }
  induction documents as [|[k d] m IH]; cbn; [constructor|].
  inversion Hwf as [|? ? Hk Hm]; subst.
  destruct (includes (toLowerCase query) (toLowerCase (doc_content d))); cbn.
  - constructor; [|now apply IH]. intro Hin. apply Hk. now apply Hsub.
  - now apply IH.
Qed.

Lemma similaritySearch_ids : forall embedding topK (documents : Documents),
  JSMap.wf documents -> NoDup (map id (similaritySearch embedding topK documents)).
Proof.
  intros embedding topK documents Hwf. unfold similaritySearch.
  apply NoDup_slice_to.
  eapply Permutation_NoDup.
  - apply Permutation_map. symmetry. apply sort_permutation.
  - rewrite map_map. unfold JSMap.wf, JSMap.keys in Hwf.
    erewrite map_ext; [exact Hwf|]. intros [k d]. reflexivity.
Qed.

(** C4 (amended).  For result sets with distinct ids and any weights, the
    merge of [hybridSearch] holds each id once; an id of both sets has the
    score [textScore * w_text + semanticScore * w_semantic], an id of one
    set that set's score times its weight; and, when no merged score is
    NaN, the list is sorted by descending score.  The two searches that
    [hybridSearch] runs on a store return such result sets.  On the example
    of the specification the result is id1 with 1.4, then id2 with 0.5. *)
Theorem hybrid_merge_scores_and_order :
  (forall (textResults semanticResults : list ISemanticSearchResult) (weights : Weights),
     NoDup (map id textResults) ->
     NoDup (map id semanticResults) ->
     let merged := combine textResults semanticResults weights in
     (forall key,
        option_map score (find_result key merged)
        = stated_score textResults semanticResults weights key)
     /\ NoDup (map id merged)
     /\ (Forall (fun r => isNaN (score r) = false) merged ->
         StronglySorted descending merged))
  /\ (forall (textQuery : string) (embedding : list number) (weights : Weights)
             (documents : Documents),
        JSMap.wf documents ->
        hybridSearch textQuery embedding weights documents
        = combine (search textQuery 100 documents)
                  (similaritySearch embedding 100 documents) weights
        /\ NoDup (map id (search textQuery 100 documents))
        /\ NoDup (map id (similaritySearch embedding 100 documents)))
  /\ map (fun r => (id r, score r)) (combine example_text example_semantic unit_weights)
     = [("id1", decimal 14 10); ("id2", decimal 5 10)].
Proof.
  split; [|split].
  2: { intros textQuery embedding weights documents Hwf.
       split; [reflexivity|]. split; [now apply search_ids|now apply similaritySearch_ids]. }
  2: { vm_compute. reflexivity. }
  intros textResults semanticResults weights Hnt Hns merged.
  set (afterText := fold_left (addTextResult weights) textResults []).
  set (combined := fold_left (addSemanticResult weights) semanticResults afterText).
  assert (Hok : combined_ok combined).
  { apply fold_ok; [apply addSemanticResult_ok|].
    apply fold_ok; [apply addTextResult_ok|apply combined_empty]. }
  destruct Hok as (Hwf & Hkeyed & Hregular).
  assert (Hnd : NoDup (map id (JSMap.values combined)))
    by (rewrite keyed_ids by assumption; exact Hwf).
  assert (Hperm : Permutation merged (JSMap.values combined))
    by apply sort_permutation.
  split; [|split].
  - intro key.
    rewrite (find_result_permutation key merged (JSMap.values combined) Hperm).
    + rewrite find_result_values by assumption.
      unfold combined. rewrite get_after_semantic by assumption.
      unfold afterText. rewrite get_after_text by assumption.
      unfold stated_score.
      destruct (find_result key semanticResults), (find_result key textResults);
        reflexivity.
    + eapply Permutation_NoDup; [|exact Hnd].
      apply Permutation_map. now symmetry.
  - eapply Permutation_NoDup; [|exact Hnd]. apply Permutation_map. now symmetry.
  - intros Hnan. apply sort_descending.
    apply Forall_forall. intros r Hr.
    assert (Hreg : regular_or_nan (score r)).
    { unfold scores_regular_or_nan in Hregular. rewrite Forall_forall in Hregular.
      unfold JSMap.values in Hr. apply in_map_iff in Hr as (entry & <- & Hentry).
      now apply Hregular. }
    rewrite Forall_forall in Hnan.
    assert (Hr' : In r merged) by (apply In_sort; exact Hr).
    specialize (Hnan r Hr').
    destruct (score r); try exact I; [discriminate|exact Hreg].
Qed.

(** The example of the specification, by way of a store: the text search
    returns [{(id1, 0.8)}], the similarity search [{(id1, 0.6), (id2,
    0.5)}], and the merged list is sorted, id1 with 1.4 before id2 with
    0.5. *)
Lemma hybrid_merge_scores_and_order_witness :
  map (fun r => (id r, score r)) (search "foo" 100 example_documents)
  = [("id1", decimal 8 10)]
  /\ map (fun r => (id r, score r)) (similaritySearch example_embedding 100 example_documents)
     = [("id1", decimal 6 10); ("id2", decimal 5 10)]
  /\ map (fun r => (id r, score r))
         (hybridSearch "foo" example_embedding unit_weights example_documents)
     = [("id1", decimal 14 10); ("id2", decimal 5 10)]
  /\ StronglySorted descending
       (hybridSearch "foo" example_embedding unit_weights example_documents).
Proof.
  split; [vm_compute; reflexivity|]. split; [vm_compute; reflexivity|].
  split; [vm_compute; reflexivity|].
  destruct hybrid_merge_scores_and_order as (Hmerge & Hstore & _).
  destruct (Hstore "foo" example_embedding unit_weights example_documents)
    as (Heq & Hnt & Hns).
  { repeat constructor; cbn; intuition discriminate. }
  rewrite Heq.
  destruct (Hmerge _ _ unit_weights Hnt Hns) as (_ & _ & Hsorted).
  apply Hsorted. vm_compute. repeat constructor.
Defined.

(** C4 as stated fails.  On a store whose second document has a zero
    embedding, and a text query that matches nothing, [hybridSearch]
    returns A (score 0.707...), B (score NaN), C (score 1) in this order:
    the list is not sorted by descending score, A standing before C. *)
Lemma hybrid_order_broken_by_NaN :
  map id (hybridSearch "zzz" [ofZ 1; zero] unit_weights documents_with_zero)
  = ["A"; "B"; "C"]
  /\ map (fun r => isNaN (score r))
         (hybridSearch "zzz" [ofZ 1; zero] unit_weights documents_with_zero)
     = [false; true; false]
  /\ ~ StronglySorted descending
         (hybridSearch "zzz" [ofZ 1; zero] unit_weights documents_with_zero).
Proof.
  split; [vm_compute; reflexivity|]. split; [vm_compute; reflexivity|].
  intro Hsorted.
  assert (Heq : hybridSearch "zzz" [ofZ 1; zero] unit_weights documents_with_zero
                = [mkResult "A" "alpha" (S754_finite false 6369051672525772 (-53))
                     [ofZ 1; ofZ 1];
                   mkResult "B" "beta" NaN [zero; zero];
                   mkResult "C" "gamma" (S754_finite false 4503599627370496 (-52))
                     [ofZ 1; zero]])
    by (vm_compute; reflexivity).
  rewrite Heq in Hsorted.
  inversion Hsorted as [|? ? _ Hfirst]; subst.
  inversion Hfirst as [|? ? _ Hrest]; subst.
  inversion Hrest as [|? ? Hac _]; subst.
  unfold descending, number_le in Hac. cbn [score value extended_le] in Hac.
  apply Z.leb_le in Hac. vm_compute in Hac. discriminate.
Qed.

End HybridFacts.


(* ================================================================== *)
(** * Further properties of the retry wrapper and the service facade *)
(* ================================================================== *)

Module RetryMoreFacts.
Import AIErrors AIServiceManager RetrySamples RequestSamples RetryFacts.

Lemma attempts_invoked : forall fx, attempts fx = List.length (invoked fx).
Proof.
  unfold attempts, invoked. induction fx as [|e fx IH]; [reflexivity|].
  destruct e; cbn; congruence.
Qed.

(** The shape of every trace of the loop. *)
Lemma retryLoop_shape :
  forall (T : Type) (operation : nat -> Settled Thrown T) token maxRetries fuel attempt last,
    (attempt + fuel = maxRetries)%nat ->
    let fx := snd (retryLoop operation token maxRetries fuel attempt last) in
    invoked fx = seq attempt (List.length (invoked fx))
    /\ (List.length (invoked fx) <= fuel)%nat
    /\ (List.length (delays fx) <= fuel - 1)%nat
    /\ (List.length (delays fx) <= List.length (invoked fx))%nat
    /\ forallb call_or_sleep fx = true.
Proof.
  intros T operation token maxRetries.
  induction fuel as [|fuel IH]; intros attempt last Hsum; cbn [retryLoop].
  - cbn. repeat split; lia.
  - destruct (cancellationRequested token attempt); [cbn; repeat split; lia|].
    destruct (operation attempt) as [v|error]; [cbn; repeat split; lia|].
    destruct (handleError error) as [a|t]; [|cbn; repeat split; lia].
    destruct (Nat.eqb_spec attempt (maxRetries - 1)) as [Hlast|Hlast].
    { rewrite orb_true_r. cbn. repeat split; lia. }
    rewrite orb_false_r. destruct (negb (shouldRetry a)); [cbn; repeat split; lia|].
    specialize (IH (S attempt) error ltac:(lia)).
    destruct (retryLoop operation token maxRetries fuel (S attempt) error) as [res fx].
    cbn [snd] in *. destruct IH as (Hseq & Hinv & Hdel & Hle & Hall).
    cbn [invoked delays flat_map app List.length forallb call_or_sleep andb seq].
    fold (invoked fx). fold (delays fx).
    repeat split; try lia; try assumption.
    f_equal. exact Hseq.
Qed.

(** X1.  Whatever the operation and the token do, the retry wrapper calls
    the operation at most [maxRetries] times, on attempts 0, 1, 2, ... in
    turn, sleeps at most [maxRetries - 1] times and never more often than
    it calls, and does nothing else; with [maxRetries = 0] it calls
    nothing and rejects with the [TypeError] of reading [code] of
    undefined. *)
Theorem executeWithRetry_bounds :
  forall (T : Type) (operation : nat -> Settled Thrown T) (token : CancellationToken)
         (maxRetries : nat),
    let fx := snd (executeWithRetry operation token maxRetries) in
    invoked fx = seq 0 (attempts fx)
    /\ (attempts fx <= maxRetries)%nat
    /\ (List.length (delays fx) <= maxRetries - 1)%nat
    /\ (List.length (delays fx) <= attempts fx)%nat
    /\ forallb call_or_sleep fx = true
    /\ executeWithRetry operation token 0 = (Rejected typeErrorOfNullish, []).
Proof.
  intros T operation token maxRetries fx.
  destruct (retryLoop_shape T operation token maxRetries maxRetries 0 ThrownNullish eq_refl)
    as (Hseq & Hinv & Hdel & Hle & Hall).
  fold (executeWithRetry operation token maxRetries) in Hseq, Hinv, Hdel, Hle, Hall.
  fold fx in Hseq, Hinv, Hdel, Hle, Hall.
  rewrite attempts_invoked. repeat split; assumption.
Qed.

Section FirstFinalOutcome.

Context {T : Type}.
Variable operation : nat -> Settled Thrown T.
Variable token : CancellationToken.
Variable maxRetries : nat.
Variable classified : nat -> AIError.
(** The attempt that ends the loop. *)
Variable j : nat.

Hypothesis in_range : (j < maxRetries)%nat.
Hypothesis fails_before :
  forall i, (i < j)%nat ->
    exists error, operation i = Rejected error
                  /\ handleError error = Fulfilled (classified i)
                  /\ retryable (classified i) = true.
Hypothesis not_cancelled :
  forall i, (i <= j)%nat -> cancellationRequested token i = false.

Lemma retryLoop_succeeds :
  forall v n attempt fuel last,
    operation j = Fulfilled v ->
    (attempt + n = j)%nat -> (attempt + fuel = maxRetries)%nat ->
    retryLoop operation token maxRetries fuel attempt last
    = (Fulfilled v, retried classified n attempt).
Proof.
  intros v. induction n as [|n IH]; intros attempt fuel last Hv Hn Hfuel;
    (destruct fuel as [|fuel]; [lia|]); rewrite retryLoop_step, not_cancelled by lia.
  - replace attempt with j by lia. rewrite Hv. reflexivity.
  - destruct (fails_before attempt ltac:(lia)) as (error & Hop & Hcls & Hretry).
    rewrite Hop, Hcls. unfold shouldRetry. rewrite Hretry.
    replace (attempt =? maxRetries - 1)%nat with false
      by (symmetry; apply Nat.eqb_neq; lia).
    cbn [negb orb]. rewrite (IH (S attempt) fuel error Hv) by lia. reflexivity.
Qed.

Lemma retryLoop_gives_up :
  forall error aiError n attempt fuel last,
    operation j = Rejected error -> handleError error = Fulfilled aiError ->
    retryable aiError = false ->
    (attempt + n = j)%nat -> (attempt + fuel = maxRetries)%nat ->
    retryLoop operation token maxRetries fuel attempt last
    = (Rejected (ThrownAIError aiError), retried classified n attempt).
Proof.
  intros error aiError. induction n as [|n IH]; intros attempt fuel last He Ha Hr Hn Hfuel;
    (destruct fuel as [|fuel]; [lia|]); rewrite retryLoop_step, not_cancelled by lia.
  - replace attempt with j by lia. rewrite He, Ha. unfold shouldRetry. rewrite Hr.
    reflexivity.
  - destruct (fails_before attempt ltac:(lia)) as (error' & Hop & Hcls & Hretry).
    rewrite Hop, Hcls. unfold shouldRetry. rewrite Hretry.
    replace (attempt =? maxRetries - 1)%nat with false
      by (symmetry; apply Nat.eqb_neq; lia).
    cbn [negb orb]. rewrite (IH (S attempt) fuel error' He Ha Hr) by lia. reflexivity.
Qed.

End FirstFinalOutcome.

Lemma attempts_retried : forall classified n attempt,
  attempts (retried classified n attempt) = S n.
Proof.
  intros classified. induction n as [|n IH]; intro attempt; [reflexivity|].
  cbn [retried]. unfold attempts in *. cbn [filter List.length]. now rewrite IH.
Qed.

Lemma delays_retried : forall classified n attempt,
  delays (retried classified n attempt)
  = map (fun i => getRetryDelay (classified i) i) (seq attempt n).
Proof.
  intros classified. induction n as [|n IH]; intro attempt; [reflexivity|].
  cbn [retried delays flat_map app seq map]. f_equal. apply IH.
Qed.

(** X2.  When the attempts before attempt [j] fail with retryable errors
    and attempt [j] succeeds, within [maxRetries] and without
    cancellation, the wrapper returns that result after exactly [j + 1]
    calls, having slept once after each failure for the delay of that
    failure. *)
Theorem executeWithRetry_first_success :
  forall (T : Type) (operation : nat -> Settled Thrown T) (token : CancellationToken)
         (maxRetries : nat) (classified : nat -> AIError) (j : nat) (v : T),
    (j < maxRetries)%nat ->
    (forall i, (i < j)%nat ->
       exists error, operation i = Rejected error
                     /\ handleError error = Fulfilled (classified i)
                     /\ retryable (classified i) = true) ->
    (forall i, (i <= j)%nat -> cancellationRequested token i = false) ->
    operation j = Fulfilled v ->
    executeWithRetry operation token maxRetries = (Fulfilled v, retried classified j 0)
    /\ attempts (retried classified j 0) = S j
    /\ delays (retried classified j 0)
       = map (fun i => getRetryDelay (classified i) i) (seq 0 j).
Proof.
  intros T operation token maxRetries classified j v Hj Hfail Hcancel Hv.
  split; [|split; [apply attempts_retried|apply delays_retried]].
  unfold executeWithRetry.
  apply (retryLoop_succeeds operation token maxRetries classified j Hj Hfail Hcancel);
    [assumption|lia|lia].
Qed.

(** Two connection failures, then an answer: three calls, sleeps of 5000
    and 10000 ms. *)
Lemma executeWithRetry_first_success_witness :
  executeWithRetry (answers_third sample_answer) None 3
  = (Fulfilled sample_answer,
     [Invoke 0; Delay 5000; Invoke 1; Delay 10000; Invoke 2]).
Proof.
  apply (executeWithRetry_first_success IAIResponse (answers_third sample_answer) None 3
           (fun _ => connectionFailed NoDetails) 2 sample_answer).
  - lia.
  - intros i Hi. exists (ThrownAIError (connectionFailed NoDetails)).
    unfold answers_third. replace (i <? 2)%nat with true by (symmetry; apply Nat.ltb_lt; lia).
    repeat split.
  - intros i _. reflexivity.
  - reflexivity.
Defined.

(** X3.  The wrapper gives up at the first failure that is not retryable:
    when the attempts before attempt [j] fail with retryable errors and
    attempt [j] fails with an error classified as not retryable, the
    wrapper rejects with that classified error after exactly [j + 1]
    calls, however many attempts remain. *)
Theorem executeWithRetry_stops_when_not_retryable :
  forall (T : Type) (operation : nat -> Settled Thrown T) (token : CancellationToken)
         (maxRetries : nat) (classified : nat -> AIError) (j : nat)
         (error : Thrown) (aiError : AIError),
    (j < maxRetries)%nat ->
    (forall i, (i < j)%nat ->
       exists error, operation i = Rejected error
                     /\ handleError error = Fulfilled (classified i)
                     /\ retryable (classified i) = true) ->
    (forall i, (i <= j)%nat -> cancellationRequested token i = false) ->
    operation j = Rejected error ->
    handleError error = Fulfilled aiError ->
    retryable aiError = false ->
    executeWithRetry operation token maxRetries
    = (Rejected (ThrownAIError aiError), retried classified j 0)
    /\ attempts (retried classified j 0) = S j.
Proof.
  intros T operation token maxRetries classified j error aiError Hj Hfail Hcancel He Ha Hr.
  split; [|apply attempts_retried].
  unfold executeWithRetry.
  apply (retryLoop_gives_up operation token maxRetries classified j Hj Hfail Hcancel
           error aiError); try assumption; lia.
Qed.

(** A model that is not found, with ten attempts allowed: one call. *)
Lemma executeWithRetry_stops_when_not_retryable_witness :
  executeWithRetry (fun _ => Rejected (ThrownAIError (modelNotFound "m")) : Settled Thrown unit)
    None 10
  = (Rejected (ThrownAIError (modelNotFound "m")), [Invoke 0]).
Proof.
  apply (executeWithRetry_stops_when_not_retryable unit _ None 10
           (fun _ => modelNotFound "m") 0 (ThrownAIError (modelNotFound "m"))
           (modelNotFound "m")).
  - lia.
  - intros i Hi. lia.
  - intros i _. reflexivity.
  - reflexivity.
  - reflexivity.
  - reflexivity.
Defined.

Lemma handleError_rejects_nullish : forall error t,
  handleError error = Rejected t -> error = ThrownNullish.
Proof.
  intros [e|r|] t H; cbn in H; [discriminate| |reflexivity].
  destruct (_ || _); [discriminate|]. destruct (optional_string_is _ _); discriminate.
Qed.

Lemma retryLoop_rejects_with_AIError :
  forall (T : Type) (operation : nat -> Settled Thrown T) token maxRetries,
    (forall i, (i < maxRetries)%nat -> operation i <> Rejected ThrownNullish) ->
    forall fuel attempt last t fx,
      (attempt + S fuel = maxRetries)%nat ->
      retryLoop operation token maxRetries (S fuel) attempt last = (Rejected t, fx) ->
      exists aiError, t = ThrownAIError aiError.
Proof.
  intros T operation token maxRetries Hop.
  induction fuel as [|fuel IH]; intros attempt last t fx Hsum H;
    rewrite retryLoop_step in H;
    (destruct (cancellationRequested token attempt);
       [injection H as <- _; eexists; reflexivity|]);
    pose proof (Hop attempt ltac:(lia)) as Hnot;
    (destruct (operation attempt) as [v|error]; [discriminate|]);
    (destruct (handleError error) as [a|t'] eqn:Hh;
       [|apply handleError_rejects_nullish in Hh; subst error; contradiction]);
    (destruct (negb (shouldRetry a) || (attempt =? maxRetries - 1)%nat) eqn:Hb;
       [injection H as <- _; eexists; reflexivity|]);
    apply orb_false_elim in Hb as [_ Hb]; apply Nat.eqb_neq in Hb.
  - lia.
  - destruct (retryLoop operation token maxRetries (S fuel) (S attempt) error)
      as [res fx'] eqn:Hrec.
    injection H as -> _. eapply (IH (S attempt)); [lia|exact Hrec].
Qed.

(** X4.  With at least one attempt allowed and an operation that never
    throws [undefined] or [null], whatever the retry wrapper rejects with
    is an [AIError]: the classified error of an attempt, or the TIMEOUT
    error of a cancellation. *)
Theorem executeWithRetry_rejects_with_AIError :
  forall (T : Type) (operation : nat -> Settled Thrown T) (token : CancellationToken)
         (maxRetries : nat) (t : Thrown) (fx : list Effect),
    (1 <= maxRetries)%nat ->
    (forall i, (i < maxRetries)%nat -> operation i <> Rejected ThrownNullish) ->
    executeWithRetry operation token maxRetries = (Rejected t, fx) ->
    exists aiError, t = ThrownAIError aiError.
Proof.
  intros T operation token maxRetries t fx Hpos Hop H. unfold executeWithRetry in H.
  destruct maxRetries as [|fuel]; [lia|].
  eapply retryLoop_rejects_with_AIError; [exact Hop| |exact H]. lia.
Qed.

(** A failure that is no [AIError]: what comes out is one. *)
Lemma executeWithRetry_rejects_with_AIError_witness :
  exists aiError,
    ThrownAIError (mkAIError INTERNAL_ERROR "boom" (DetailsOfError plain_failure) false None)
    = ThrownAIError aiError.
Proof.
  apply (executeWithRetry_rejects_with_AIError unit
           (fun _ => Rejected (ThrownObject plain_failure)) None 3 _ [Invoke 0]).
  - lia.
  - intros i _ H. discriminate H.
  - reflexivity.
Defined.

(** X5.  For an error whose [retryAfter] is absent or a whole number of
    milliseconds that is not negative, the delay of every attempt is
    between 1 and 30000 ms, it never decreases from one attempt to the
    next, and from attempt 15 on it is 30000 ms.  (On whole numbers the
    arithmetic of the source is that of the integers: a product below
    2^53 is exact, and a larger one is cut to 30000 by [Math.min] either
    way.  A fraction such as 0.5 is outside the statement: its first
    delay is 0.5 ms.) *)
Theorem getRetryDelay_bounds :
  forall (error : AIError) (attempt : nat),
    (forall r, retryAfter error = Some r -> (0 <= r)%Z) ->
    (1 <= getRetryDelay error attempt <= 30000)%Z
    /\ (getRetryDelay error attempt <= getRetryDelay error (S attempt))%Z
    /\ ((15 <= attempt)%nat -> getRetryDelay error attempt = 30000%Z).
Proof.
  intros error attempt H. unfold getRetryDelay.
  assert (Hbase : (1 <= baseDelay error)%Z).
  { unfold baseDelay. destruct (retryAfter error) as [r|]; [|lia].
    specialize (H r eq_refl). destruct (Z.eqb_spec r 0); lia. }
  assert (Hpow : (1 <= 2 ^ Z.of_nat attempt)%Z)
    by (apply (Z.pow_le_mono_r 2 0 (Z.of_nat attempt)); lia).
  assert (Hnext : (2 ^ Z.of_nat (S attempt) = 2 * 2 ^ Z.of_nat attempt)%Z)
    by (rewrite Nat2Z.inj_succ, Z.pow_succ_r by lia; reflexivity).
  rewrite Hnext. split; [|split].
  - nia.
  - nia.
  - intro Hbig.
    assert ((2 ^ 15 <= 2 ^ Z.of_nat attempt)%Z) by (apply Z.pow_le_mono_r; lia).
    change (2 ^ 15)%Z with 32768%Z in *. nia.
Qed.

(** A rate limit with [retryAfter = 4000]: 4000, 8000, 16000, 30000. *)
Lemma getRetryDelay_bounds_witness :
  (1 <= getRetryDelay (rateLimited (Some 4000%Z)) 3 <= 30000)%Z
  /\ (getRetryDelay (rateLimited (Some 4000%Z)) 3
      <= getRetryDelay (rateLimited (Some 4000%Z)) 4)%Z
  /\ ((15 <= 3)%nat -> getRetryDelay (rateLimited (Some 4000%Z)) 3 = 30000%Z).
Proof.
  apply (getRetryDelay_bounds (rateLimited (Some 4000%Z)) 3).
  intros r H. injection H as <-. lia.
Defined.

(** X6.  A failure that is not an [AIError] and whose [code] is none of
    ECONNREFUSED, ENOTFOUND and ETIMEDOUT is never retried by the service
    manager: one call, then the rejection with an INTERNAL_ERROR that is
    not retryable and carries the failure as its details. *)
Theorem unknown_failure_is_not_retried :
  forall (T : Type) (operation : nat -> Settled Thrown T) (token : CancellationToken)
         (maxRetries : nat) (r : RawError),
    (1 <= maxRetries)%nat ->
    cancellationRequested token 0 = false ->
    operation 0 = Rejected (ThrownObject r) ->
    network_code r = false ->
    executeWithRetry operation token maxRetries
    = (Rejected (ThrownAIError
         (mkAIError INTERNAL_ERROR (string_or (raw_message r) "Unknown error")
            (DetailsOfError r) false None)),
       [Invoke 0]).
Proof.
  intros T operation token maxRetries r Hpos Hc Hop Hcode.
  assert (Hh : handleError (ThrownObject r)
               = Fulfilled (mkAIError INTERNAL_ERROR
                              (string_or (raw_message r) "Unknown error")
                              (DetailsOfError r) false None)).
  { unfold network_code in Hcode. apply orb_false_elim in Hcode as [Hcode Ht].
    cbn [handleError]. now rewrite Hcode, Ht. }
  assert (Hbefore : forall i, (i < 0)%nat ->
            exists error, operation i = Rejected error
                          /\ handleError error = Fulfilled (connectionFailed NoDetails)
                          /\ retryable (connectionFailed NoDetails) = true)
    by (intros i Hi; lia).
  assert (Hcancel : forall i, (i <= 0)%nat -> cancellationRequested token i = false)
    by (intros i Hi; replace i with 0%nat by lia; exact Hc).
  unfold executeWithRetry.
  apply (retryLoop_gives_up operation token maxRetries (fun _ => connectionFailed NoDetails)
           0 Hpos Hbefore Hcancel (ThrownObject r) _ 0 0 maxRetries ThrownNullish Hop Hh);
    [reflexivity|lia|lia].
Qed.

Lemma unknown_failure_is_not_retried_witness :
  executeWithRetry (fun _ => Rejected (ThrownObject plain_failure) : Settled Thrown unit)
    None 3
  = (Rejected (ThrownAIError
       (mkAIError INTERNAL_ERROR "boom" (DetailsOfError plain_failure) false None)),
     [Invoke 0]).
Proof.
  apply (unknown_failure_is_not_retried unit _ None 3 plain_failure);
    [lia|reflexivity|reflexivity|reflexivity].
Defined.

(** X7.  A request to a local model fails before it is sent.  The
    class [LocalModelService] declares a field and a method under the name
    [isHealthy]; the field hides the method, so the call [this.isHealthy()]
    in [ensureHealthy] throws a [TypeError], ahead of the [try] block of
    [sendRequest] and of [sendStreamRequest].  [sendRequest] rejects with
    that error whatever the network would answer, and the service manager,
    for which it is an unknown failure, calls the provider once and rejects
    with an INTERNAL_ERROR that is not retryable; [sendStreamRequest]
    yields nothing and rejects with the same error when the provider
    streams, and with a CONFIGURATION_ERROR when it does not. *)
Theorem local_requests_fail_unretried :
  forall (Response : Type) (JSON_parse : JSString.jsstring -> option JSON.value)
         (numberToString : Z -> string) (notAFunction : string)
         (this : LocalModelService.Service)
         (prepared : nat -> Settled Thrown unit) (answered : nat -> Settled Thrown Response)
         (response : Settled Thrown LocalModelService.IRequestContext)
         (token : CancellationToken) (streamToken : LocalModelService.CancellationToken)
         (maxRetries : nat),
    (1 <= maxRetries)%nat ->
    cancellationRequested token 0 = false ->
    let failure := mkRawError None (Some notAFunction) in
    let request attempt :=
      LocalModelService.sendRequest notAFunction this (prepared attempt)
        (answered attempt) in
    (forall attempt, request attempt = Rejected (ThrownObject failure))
    /\ executeWithRetry request token maxRetries
       = (Rejected (ThrownAIError
            (mkAIError INTERNAL_ERROR (string_or (Some notAFunction) "Unknown error")
               (DetailsOfError failure) false None)),
          [Invoke 0])
    /\ LocalModelService.sendStreamRequest JSON_parse numberToString notAFunction this
         response streamToken
       = LocalModelService.mkGenerated []
           (Rejected
              (if LocalModelService.streamingSupported (LocalModelService.provider this)
               then ThrownObject failure
               else ThrownAIError
                      (newAIError CONFIGURATION_ERROR
                         "Streaming not supported by this provider"))).
Proof.
  intros Response JSON_parse numberToString notAFunction this prepared answered response
         token streamToken maxRetries Hpos Hc failure request.
  assert (Hrequest : forall attempt, request attempt = Rejected (ThrownObject failure))
    by reflexivity.
  split; [exact Hrequest|]. split.
  - assert (Hh : handleError (ThrownObject failure)
                 = Fulfilled (mkAIError INTERNAL_ERROR
                                (string_or (Some notAFunction) "Unknown error")
                                (DetailsOfError failure) false None))
      by reflexivity.
    assert (Hbefore : forall i, (i < 0)%nat ->
              exists error, request i = Rejected error
                            /\ handleError error = Fulfilled (connectionFailed NoDetails)
                            /\ retryable (connectionFailed NoDetails) = true)
      by (intros i Hi; lia).
    assert (Hcancel : forall i, (i <= 0)%nat -> cancellationRequested token i = false)
      by (intros i Hi; replace i with 0%nat by lia; exact Hc).
    unfold executeWithRetry.
    apply (retryLoop_gives_up request token maxRetries (fun _ => connectionFailed NoDetails)
             0 Hpos Hbefore Hcancel (ThrownObject failure) _ 0 0 maxRetries ThrownNullish
             (Hrequest 0%nat) Hh);
      [reflexivity|lia|lia].
  - unfold LocalModelService.sendStreamRequest.
    destruct (LocalModelService.streamingSupported (LocalModelService.provider this));
      reflexivity.
Qed.

Lemma local_requests_fail_unretried_witness :
  let failure := mkRawError None (Some "this.isHealthy is not a function") in
  let request (attempt : nat) :=
    LocalModelService.sendRequest "this.isHealthy is not a function"
      StreamSamples.llama_service (Fulfilled tt) (Fulfilled "an answer") in
  (forall attempt, request attempt = Rejected (ThrownObject failure))
  /\ executeWithRetry request None 3
     = (Rejected (ThrownAIError
          (mkAIError INTERNAL_ERROR
             (string_or (Some "this.isHealthy is not a function") "Unknown error")
             (DetailsOfError failure) false None)),
        [Invoke 0])
  /\ LocalModelService.sendStreamRequest JSON.parse (fun _ => "200")
       "this.isHealthy is not a function" StreamSamples.llama_service
       (StreamSamples.ok_response [StreamSamples.early_text]) None
     = LocalModelService.mkGenerated []
         (Rejected
            (if LocalModelService.streamingSupported
                  (LocalModelService.provider StreamSamples.llama_service)
             then ThrownObject failure
             else ThrownAIError
                    (newAIError CONFIGURATION_ERROR
                       "Streaming not supported by this provider"))).
Proof.
  apply (local_requests_fail_unretried string JSON.parse (fun _ => "200")
           "this.isHealthy is not a function" StreamSamples.llama_service
           (fun _ => Fulfilled tt) (fun _ => Fulfilled "an answer")
           (StreamSamples.ok_response [StreamSamples.early_text]) None None 3);
    [lia|reflexivity].
Defined.

End RetryMoreFacts.

Module JSMapMoreFacts.

Lemma get_delete_same : forall (V : Type) k (m : JSMap.t V),
  JSMap.wf m -> JSMap.get k (JSMap.delete k m) = None.
Proof.
  unfold JSMap.wf. induction m as [|[k0 v0] m IH]; cbn; intro Hwf; [reflexivity|].
  inversion Hwf as [|? ? Hnotin Hnd]; subst.
  destruct (String.eqb_spec k0 k) as [->|Hne]; cbn.
  - destruct (JSMap.get k m) as [v|] eqn:Hg; [|reflexivity].
    exfalso. apply Hnotin. apply JSMapFacts.get_In in Hg.
    unfold JSMap.keys. apply in_map_iff. now exists (k, v).
  - destruct (String.eqb_spec k0 k); [contradiction|]. now apply IH.
Qed.

Lemma get_delete_other : forall (V : Type) k k' (m : JSMap.t V),
  k <> k' -> JSMap.get k' (JSMap.delete k m) = JSMap.get k' m.
Proof.
  intros V k k' m Hne. induction m as [|[k0 v0] m IH]; cbn; [reflexivity|].
  destruct (String.eqb_spec k0 k) as [->|Hk0]; cbn.
  - destruct (String.eqb_spec k k'); [contradiction|reflexivity].
  - destruct (String.eqb k0 k'); [reflexivity|assumption].
Qed.

Lemma get_none_keys : forall (V : Type) k (m : JSMap.t V),
  JSMap.get k m = None <-> ~ In k (JSMap.keys m).
Proof.
  induction m as [|[k0 v0] m IH]; cbn; [tauto|].
  destruct (String.eqb_spec k0 k) as [->|Hne].
  - split; [discriminate|]. intro H. exfalso. apply H. now left.
  - rewrite IH. split; [intros H [?|?]; auto|intros H ?; apply H; now right].
Qed.

Lemma set_absent : forall (V : Type) k (v : V) m,
  JSMap.get k m = None -> JSMap.set k v m = m ++ [(k, v)].
Proof.
  induction m as [|[k0 v0] m IH]; cbn; intro H; [reflexivity|].
  destruct (String.eqb k0 k); [discriminate|]. now rewrite IH.
Qed.

Lemma keys_set_present : forall (V : Type) k (v : V) m,
  JSMap.get k m <> None -> JSMap.keys (JSMap.set k v m) = JSMap.keys m.
Proof.
  induction m as [|[k0 v0] m IH]; cbn; intro H; [contradiction|].
  destruct (String.eqb_spec k0 k) as [->|Hne]; cbn; [reflexivity|].
  f_equal. now apply IH.
Qed.

Lemma get_some_keys : forall (V : Type) k (m : JSMap.t V),
  JSMap.get k m <> None <-> In k (JSMap.keys m).
Proof.
  induction m as [|[k0 v0] m IH]; cbn; [tauto|].
  destruct (String.eqb_spec k0 k) as [->|Hne].
  - split; [now left|discriminate].
  - rewrite IH. split; [now right|intros [?|?]; [contradiction|assumption]].
Qed.

(** Two facts about lists. *)

Lemma In_firstn_elim : forall (A : Type) (n : nat) (l : list A) (x : A),
  In x (firstn n l) -> In x l.
Proof.
  intros A n l x H. rewrite <- (firstn_skipn n l). apply in_or_app. now left.
Qed.

Lemma In_skipn_elim : forall (A : Type) (n : nat) (l : list A) (x : A),
  In x (skipn n l) -> In x l.
Proof.
  intros A n l x H. rewrite <- (firstn_skipn n l). apply in_or_app. now right.
Qed.

End JSMapMoreFacts.

(* ================================================================== *)
(** * Further properties of the service facade *)
(* ================================================================== *)

Module FacadeFacts.
Import AIErrors AIServiceManager AIServiceRequests RetrySamples RequestSamples.
Import ManagerSamples RetryFacts RetryMoreFacts ServiceManagerFacts JSMapFacts JSMapMoreFacts.








(** X9.  [getActiveProvider] resolves to the provider registered under
    the provider name of the active model's configuration.  With an active
    model set it changes nothing and fires nothing; with none set (or the
    empty id) it first activates the default model, which fires the
    active-model event.  When it rejects, it is with a CONFIGURATION_ERROR,
    MODEL_NOT_FOUND or SERVICE_UNAVAILABLE error, the manager is as it
    was and no event was fired. *)
Theorem getActiveProvider_resolution :
  forall (ICodeContext : Type) (registry : MCS.Registry) (m : Manager ICodeContext),
    let '(res, m1, fx) := getActiveProvider ICodeContext registry m in
    match res with
    | Fulfilled provider =>
        exists modelId config,
          activeModelId ICodeContext m1 = Some modelId
          /\ MCS.getConfiguration modelId registry = Some config
          /\ JSMap.get (MCS.provider config) (providers ICodeContext m) = Some provider
          /\ ((falsy_id (activeModelId ICodeContext m) = false /\ m1 = m /\ fx = [])
              \/ (falsy_id (activeModelId ICodeContext m) = true
                  /\ m1 = set_activeModelId ICodeContext (Some modelId) m
                  /\ fx = [FireDidChangeActiveModel modelId]
                  /\ exists defaultModel,
                       MCS.getDefaultModel registry = Some defaultModel
                       /\ modelId = MCS.id defaultModel))
    | Rejected t =>
        m1 = m /\ fx = []
        /\ exists aiError, t = ThrownAIError aiError /\ resolution_code (code aiError) = true
    end.
Proof.
  intros ICodeContext registry m. unfold getActiveProvider.
  destruct (falsy_id (activeModelId ICodeContext m)) eqn:Hfalsy.
  - destruct (MCS.getDefaultModel registry) as [defaultModel|] eqn:Hdef.
    + unfold switchModel.
      destruct (MCS.getConfiguration (MCS.id defaultModel) registry) as [config|] eqn:Hcfg.
      * destruct (JSMap.get (MCS.provider config) (providers ICodeContext m))
          as [provider|] eqn:Hprov.
        -- unfold lookup_active. cbn [set_activeModelId activeModelId providers].
           rewrite Hcfg, Hprov.
           exists (MCS.id defaultModel), config. repeat split; try assumption.
           right. repeat split. exists defaultModel. split; reflexivity.
        -- repeat split. eexists. split; reflexivity.
      * repeat split. eexists. split; reflexivity.
    + repeat split. eexists. split; reflexivity.
  - unfold lookup_active.
    destruct (activeModelId ICodeContext m) as [modelId|] eqn:Hact; [|discriminate].
    destruct (MCS.getConfiguration modelId registry) as [config|] eqn:Hcfg.
    + destruct (JSMap.get (MCS.provider config) (providers ICodeContext m))
        as [provider|] eqn:Hprov.
      * exists modelId, config. repeat split; try assumption. left. repeat split.
      * repeat split. eexists. split; reflexivity.
    + repeat split. eexists. split; reflexivity.
Qed.

(** X10.  A model can be activated exactly while the provider its
    configuration names is registered: after [unregisterProvider],
    [switchModel] to a model of that provider rejects with
    SERVICE_UNAVAILABLE and leaves the active model as it was; after
    [registerProvider] of a provider with that id it succeeds. *)
Theorem switchModel_follows_registration :
  forall (ICodeContext : Type) (registry : MCS.Registry) (m : Manager ICodeContext)
         (modelId : string) (config : MCS.IModelConfiguration)
         (provider : IAIServiceProvider),
    JSMap.wf (providers ICodeContext m) ->
    MCS.getConfiguration modelId registry = Some config ->
    provider_id provider = MCS.provider config ->
    (let m' := unregisterProvider ICodeContext (MCS.provider config) m in
     switchModel ICodeContext registry modelId m'
     = (Rejected (ThrownAIError
          (newAIError SERVICE_UNAVAILABLE
             ("Provider " ++ MCS.provider config ++ " not available"))), m', [])
     /\ activeModelId ICodeContext m' = activeModelId ICodeContext m)
    /\ (let m' := registerProvider ICodeContext provider m in
        switchModel ICodeContext registry modelId m'
        = (Fulfilled tt, set_activeModelId ICodeContext (Some modelId) m',
           [FireDidChangeActiveModel modelId])).
Proof.
  intros ICodeContext registry m modelId config provider Hwf Hcfg Hid. split.
  - cbv zeta. unfold switchModel, unregisterProvider. rewrite Hcfg.
    destruct (JSMap.get (MCS.provider config) (providers ICodeContext m)) as [p|] eqn:Hget.
    + cbn [providers activeModelId]. rewrite get_delete_same by assumption.
      split; reflexivity.
    + rewrite Hget. split; reflexivity.
  - cbv zeta. unfold switchModel, registerProvider. rewrite Hcfg.
    cbn [providers]. rewrite Hid, get_set_same. reflexivity.
Qed.

Lemma switchModel_follows_registration_witness :
  (let m' := unregisterProvider unit "ollama" sample_manager in
   switchModel unit sample_registry "m1" m'
   = (Rejected (ThrownAIError
        (newAIError SERVICE_UNAVAILABLE "Provider ollama not available")), m', [])
   /\ activeModelId unit m' = Some "m1")
  /\ (let m' := registerProvider unit sample_provider sample_manager in
      switchModel unit sample_registry "m1" m'
      = (Fulfilled tt, set_activeModelId unit (Some "m1") m',
         [FireDidChangeActiveModel "m1"])).
Proof.
  apply (switchModel_follows_registration unit sample_registry sample_manager "m1"
           sample_config sample_provider).
  - repeat constructor. intros [].
  - reflexivity.
  - reflexivity.
Defined.

(** X11.  [createConversation] stores an empty conversation under the
    generated id, tagged with the active model (or the empty string), and
    leaves the conversations under other ids alone; when the id is new it
    comes last in [getConversations].  After [deleteConversation] the
    conversation is gone and the others are as before. *)
Theorem conversation_round_trip :
  forall (ICodeContext : Type) (generatedId : string) (created updated : Z)
         (m : Manager ICodeContext) (conversations : Conversations ICodeContext),
    JSMap.wf conversations ->
    let '(id, stored) :=
      createConversation ICodeContext generatedId created updated m conversations in
    let fresh :=
      mkConversation ICodeContext generatedId []
        (string_or (activeModelId ICodeContext m) "") created updated in
    id = generatedId
    /\ getConversation ICodeContext id stored = Some fresh
    /\ (forall other, other <> id ->
          getConversation ICodeContext other stored
          = getConversation ICodeContext other conversations)
    /\ (getConversation ICodeContext id conversations = None ->
        getConversations ICodeContext stored
        = getConversations ICodeContext conversations ++ [fresh])
    /\ getConversation ICodeContext id (deleteConversation ICodeContext id stored) = None
    /\ (forall other, other <> id ->
          getConversation ICodeContext other (deleteConversation ICodeContext id stored)
          = getConversation ICodeContext other conversations).
Proof.
  intros ICodeContext generatedId created updated m conversations Hwf.
  unfold createConversation, getConversation, deleteConversation, getConversations.
  split; [reflexivity|]. split; [apply get_set_same|].
  split; [intros other Hne; apply get_set_other; congruence|].
  split.
  { intro Hnone. rewrite (set_absent _ _ _ _ Hnone). unfold JSMap.values.
    now rewrite map_app. }
  split; [apply get_delete_same; now apply wf_set|].
  intros other Hne. rewrite get_delete_other by congruence.
  apply get_set_other. congruence.
Qed.

Lemma conversation_round_trip_witness :
  let '(id, stored) := createConversation unit "abc" 10 11 sample_manager [] in
  let fresh := mkConversation unit "abc" [] "m1" 10 11 in
  id = "abc"
  /\ getConversation unit id stored = Some fresh
  /\ (forall other, other <> id ->
        getConversation unit other stored = getConversation unit other [])
  /\ (getConversation unit id [] = None ->
      getConversations unit stored = getConversations unit [] ++ [fresh])
  /\ getConversation unit id (deleteConversation unit id stored) = None
  /\ (forall other, other <> id ->
        getConversation unit other (deleteConversation unit id stored)
        = getConversation unit other []).
Proof.
  apply (conversation_round_trip unit "abc" 10 11 sample_manager []). constructor.
Defined.

End FacadeFacts.


(* ================================================================== *)
(** * Further properties of the model configuration registry *)
(* ================================================================== *)

Module RegistryMoreFacts.
Import AIErrors ModelConfigurationService ModelConnectionTest.
Import RegistrySamples RegistryMoreSamples JSMapFacts JSMapMoreFacts RegistryFacts.

(** The map after the loop of [setDefaultModel]. *)
#[local] Abbreviation flagged modelId m :=
  (map (fun kc => (fst kc, set_isDefault (String.eqb (fst kc) modelId) (snd kc))) m).

Lemma get_flagged : forall modelId k (m : JSMap.t IModelConfiguration),
  JSMap.get k (flagged modelId m)
  = option_map (set_isDefault (String.eqb k modelId)) (JSMap.get k m).
Proof.
  intros modelId k. induction m as [|[k0 v0] m IH]; cbn; [reflexivity|].
  destruct (String.eqb_spec k0 k) as [->|Hne]; [reflexivity|exact IH].
Qed.

Lemma defaults_flagged_absent : forall modelId (m : JSMap.t IModelConfiguration),
  ~ In modelId (JSMap.keys m) ->
  filter isDefault (JSMap.values (flagged modelId m)) = [].
Proof.
  intros modelId. induction m as [|[k0 v0] m IH]; cbn; intro Hnotin; [reflexivity|].
  destruct (String.eqb_spec k0 modelId) as [->|Hne]; [exfalso; auto|].
  cbn. apply IH. intro Hin. apply Hnotin. now right.
Qed.

Lemma defaults_flagged : forall modelId c (m : JSMap.t IModelConfiguration),
  JSMap.wf m -> JSMap.get modelId m = Some c ->
  filter isDefault (JSMap.values (flagged modelId m)) = [set_isDefault true c].
Proof.
  unfold JSMap.wf. intros modelId c.
  induction m as [|[k0 v0] m IH]; cbn; intros Hwf Hget; [discriminate|].
  inversion Hwf as [|? ? Hnotin Hnd]; subst.
  destruct (String.eqb_spec k0 modelId) as [->|Hne]; cbn.
  - injection Hget as ->. f_equal. now apply defaults_flagged_absent.
  - now apply IH.
Qed.

Lemma setDefaultModel_present : forall modelId c r,
  JSMap.get modelId (configurations r) = Some c ->
  setDefaultModel modelId r
  = (Fulfilled tt, mkRegistry (flagged modelId (configurations r)) (Some modelId),
     [StoreDefaultModel modelId;
      SaveConfigurations (JSMap.values (flagged modelId (configurations r)));
      FireDidChangeDefaultModel modelId]).
Proof. intros modelId c r H. unfold setDefaultModel. now rewrite H. Qed.

(** X19.  On a registered id, [setDefaultModel] succeeds and leaves
    exactly one configuration flagged as default, the one stored under that
    id, which [defaultModelId] then names; every other configuration is
    unflagged and otherwise unchanged, and the keys are as before. *)
Theorem setDefaultModel_exactly_one :
  forall (modelId : string) (c : IModelConfiguration) (r : Registry),
    JSMap.wf (configurations r) ->
    getConfiguration modelId r = Some c ->
    let '(res, r', fx) := setDefaultModel modelId r in
    res = Fulfilled tt
    /\ defaults r' = [set_isDefault true c]
    /\ defaultModelId r' = Some modelId
    /\ getConfiguration modelId r' = Some (set_isDefault true c)
    /\ (forall k, k <> modelId ->
          getConfiguration k r' = option_map (set_isDefault false) (getConfiguration k r))
    /\ JSMap.keys (configurations r') = JSMap.keys (configurations r).
Proof.
  intros modelId c r Hwf Hget. unfold getConfiguration in *.
  rewrite (setDefaultModel_present modelId c r Hget).
  unfold defaults. cbn [configurations defaultModelId].
  split; [reflexivity|]. split; [now apply defaults_flagged|]. split; [reflexivity|].
  split; [rewrite get_flagged, Hget, String.eqb_refl; reflexivity|].
  split; [|apply keys_flagged].
  intros k Hne. rewrite get_flagged.
  destruct (String.eqb_spec k modelId); [contradiction|reflexivity].
Qed.

Lemma setDefaultModel_exactly_one_witness :
  let '(res, r', fx) := setDefaultModel "b" registry_ab in
  res = Fulfilled tt
  /\ defaults r' = [set_isDefault true config_b]
  /\ defaultModelId r' = Some "b"
  /\ getConfiguration "b" r' = Some (set_isDefault true config_b)
  /\ (forall k, k <> "b" ->
        getConfiguration k r'
        = option_map (set_isDefault false) (getConfiguration k registry_ab))
  /\ JSMap.keys (configurations r') = JSMap.keys (configurations registry_ab).
Proof.
  apply (setDefaultModel_exactly_one "b" config_b registry_ab).
  - repeat constructor; cbn; intuition discriminate.
  - reflexivity.
Defined.

(** *** What a fulfilled [addConfiguration] leaves *)

Lemma add_fulfilled : forall parsesAsURL probe config r,
  isValid (validateConfiguration parsesAsURL probe config) = true ->
  fst (addConfiguration parsesAsURL probe config r)
  = (Fulfilled tt,
     let m1 := JSMap.set (id config) (stripped config) (configurations r) in
     if isDefault config || (JSMap.size m1 =? 1)%nat
     then mkRegistry (flagged (id config) m1) (Some (id config))
     else mkRegistry m1 (defaultModelId r)).
Proof.
  intros parsesAsURL probe config r Hvalid.
  unfold addConfiguration, stripped. rewrite Hvalid. cbn [negb].
  destruct (apiKey config) as [k|]; [destruct (truthy_string k)|];
    cbn [id isDefault set_apiKey configurations defaultModelId];
    match goal with
    | |- context [JSMap.set ?k ?v ?m] =>
        rewrite (setDefaultModel_present k v (mkRegistry (JSMap.set k v m) (defaultModelId r))
                   (get_set_same _ k v m))
    end;
    cbn [configurations];
    match goal with |- context [if ?b then _ else _] => destruct b end; reflexivity.
Qed.

Lemma add_rejected : forall parsesAsURL probe config r,
  isValid (validateConfiguration parsesAsURL probe config) = false ->
  addConfiguration parsesAsURL probe config r
  = (Rejected (newAIError CONFIGURATION_ERROR
                 (string_or (error (validateConfiguration parsesAsURL probe config))
                            "Invalid configuration")), r, []).
Proof.
  intros parsesAsURL probe config r Hvalid. unfold addConfiguration.
  now rewrite Hvalid.
Qed.

(** X12.  A rejected [addConfiguration], [updateConfiguration] or
    [setDefaultModel] changes nothing: the registry is the one it was called
    on, and nothing is written to the secret store or the storage service
    and no event is fired. *)
Theorem rejected_mutation_changes_nothing :
  forall (parsesAsURL : string -> bool) (op : Mutation) (r r' : Registry)
         (e : AIError) (fx : list Effect),
    is_remove op = false ->
    mutate parsesAsURL op r = (Rejected e, r', fx) ->
    r' = r /\ fx = []
    /\ (code e = CONFIGURATION_ERROR \/ code e = MODEL_NOT_FOUND).
Proof.
  intros parsesAsURL op r r' e fx Hop H.
  destruct op as [probe config|probe modelId updates|modelId|modelId];
    cbn in Hop; try discriminate; cbn [mutate] in H.
  - destruct (isValid (validateConfiguration parsesAsURL probe config)) eqn:Hvalid.
    + pose proof (add_fulfilled parsesAsURL probe config r Hvalid) as Hf.
      rewrite H in Hf. discriminate.
    + rewrite (add_rejected _ _ _ _ Hvalid) in H. injection H as <- <- <-.
      cbn. auto.
  - unfold updateConfiguration in H.
    destruct (JSMap.get modelId (configurations r)) as [existing|].
    + destruct (isValid (validateConfiguration parsesAsURL probe (spread existing updates))).
      * cbn [negb] in H. destruct (p_apiKey updates); discriminate.
      * cbn [negb] in H. injection H as <- <- <-. cbn. auto.
    + injection H as <- <- <-. cbn. auto.
  - unfold setDefaultModel in H.
    destruct (JSMap.get modelId (configurations r)); [discriminate|].
    injection H as <- <- <-. cbn. auto.
Qed.

Lemma rejected_mutation_changes_nothing_witness :
  registry_ab = registry_ab /\ @nil Effect = []
  /\ (code (modelNotFound "missing") = CONFIGURATION_ERROR
      \/ code (modelNotFound "missing") = MODEL_NOT_FOUND).
Proof.
  apply (rejected_mutation_changes_nothing any_url (MutSetDefault "missing")
           registry_ab registry_ab (modelNotFound "missing") []); reflexivity.
Defined.

(** X13.  A valid configuration is stored by [addConfiguration] under its
    id without its API key, the key going to the secret store.  It becomes
    the default when it asks for it or when it is the only configuration;
    the others then lose their flag, and are otherwise left as they were. *)
Theorem addConfiguration_stores :
  forall (parsesAsURL : string -> bool) (probe : ProbeResult)
         (config : IModelConfiguration) (r : Registry),
    isValid (validateConfiguration parsesAsURL probe config) = true ->
    let '(res, r', fx) := addConfiguration parsesAsURL probe config r in
    let becomes_default :=
      isDefault config
      || (JSMap.size (JSMap.set (id config) config (configurations r)) =? 1)%nat in
    res = Fulfilled tt
    /\ getConfiguration (id config) r'
       = Some (set_isDefault becomes_default (set_apiKey
                 (match apiKey config with
                  | Some k => if truthy_string k then None else Some k
                  | None => None
                  end) config))
    /\ (forall k, k <> id config ->
          getConfiguration k r'
          = option_map (fun c => if becomes_default then set_isDefault false c else c)
                       (getConfiguration k r))
    /\ defaultModelId r' = (if becomes_default then Some (id config) else defaultModelId r)
    /\ (forall k, apiKey config = Some k -> truthy_string k = true ->
          In (SecretSet (id config) k) fx).
Proof.
  intros parsesAsURL probe config r Hvalid.
  pose proof (add_fulfilled parsesAsURL probe config r Hvalid) as Hf.
  assert (Hfx : forall k, apiKey config = Some k -> truthy_string k = true ->
                  In (SecretSet (id config) k)
                     (snd (addConfiguration parsesAsURL probe config r))).
  { intros k Hk Ht. unfold addConfiguration. rewrite Hvalid, Hk, Ht. cbn [negb].
    cbn [id isDefault set_apiKey configurations defaultModelId].
    match goal with
    | |- context [setDefaultModel ?i ?r1] => destruct (setDefaultModel i r1) as [[? ?] ?]
    end.
    match goal with |- context [if ?b then _ else _] => destruct b end; cbn; auto. }
  destruct (addConfiguration parsesAsURL probe config r) as [[res r'] fx].
  cbn [fst snd] in Hf, Hfx. injection Hf as -> ->.
  assert (Hsize : forall v, JSMap.size (JSMap.set (id config) v (configurations r))
                            = JSMap.size (JSMap.set (id config) config (configurations r))).
  { intro v. unfold JSMap.size. generalize (configurations r) as m.
    induction m as [|[k0 v0] m IH]; cbn; [reflexivity|].
    destruct (String.eqb k0 (id config)); cbn; [reflexivity|now rewrite IH]. }
  cbv zeta. rewrite Hsize.
  set (b := isDefault config || _).
  assert (Hstored : stripped config
                    = set_apiKey (match apiKey config with
                                  | Some k => if truthy_string k then None else Some k
                                  | None => None
                                  end) config).
  { unfold stripped. destruct config as [i n t p e [k|] m d en]; cbn;
      [destruct (truthy_string k)|]; reflexivity. }
  split; [reflexivity|]. unfold getConfiguration.
  destruct b eqn:Hb; cbn [configurations defaultModelId].
  - split; [rewrite get_flagged, get_set_same, String.eqb_refl, Hstored; reflexivity|].
    split; [|split; [reflexivity|exact Hfx]].
    intros k Hne. rewrite get_flagged, get_set_other by congruence.
    destruct (String.eqb_spec k (id config)); [contradiction|reflexivity].
  - split.
    + rewrite get_set_same, Hstored. f_equal.
      unfold b in Hb. apply orb_false_elim in Hb as [Hd _].
      destruct config; cbn in *. now rewrite Hd.
    + split; [|split; [reflexivity|exact Hfx]].
      intros k Hne. rewrite get_set_other by congruence.
      now destruct (JSMap.get k (configurations r)).
Qed.

Lemma addConfiguration_stores_witness :
  let '(res, r', fx) := addConfiguration any_url probe_ok config_with_key registry_ab in
  let becomes_default :=
    isDefault config_with_key
    || (JSMap.size (JSMap.set (id config_with_key) config_with_key
                      (configurations registry_ab)) =? 1)%nat in
  res = Fulfilled tt
  /\ getConfiguration (id config_with_key) r'
     = Some (set_isDefault becomes_default (set_apiKey
               (match apiKey config_with_key with
                | Some k => if truthy_string k then None else Some k
                | None => None
                end) config_with_key))
  /\ (forall k, k <> id config_with_key ->
        getConfiguration k r'
        = option_map (fun c => if becomes_default then set_isDefault false c else c)
                     (getConfiguration k registry_ab))
  /\ defaultModelId r'
     = (if becomes_default then Some (id config_with_key) else defaultModelId registry_ab)
  /\ (forall k, apiKey config_with_key = Some k -> truthy_string k = true ->
        In (SecretSet (id config_with_key) k) fx).
Proof.
  apply (addConfiguration_stores any_url probe_ok config_with_key registry_ab).
  reflexivity.
Defined.

(** *** Properties of every stored configuration *)

Section AllValues.
Variable P : IModelConfiguration -> bool.

Lemma all_set : forall k v (m : JSMap.t IModelConfiguration),
  P v = true -> forallb P (JSMap.values m) = true ->
  forallb P (JSMap.values (JSMap.set k v m)) = true.
Proof.
  intros k v. induction m as [|[k0 v0] m IH]; cbn; intros Hv H.
  - now rewrite Hv.
  - apply andb_prop in H as [H0 H]. destruct (String.eqb k0 k); cbn.
    + now rewrite Hv.
    + rewrite H0. now apply IH.
Qed.

Lemma all_delete : forall k (m : JSMap.t IModelConfiguration),
  forallb P (JSMap.values m) = true ->
  forallb P (JSMap.values (JSMap.delete k m)) = true.
Proof.
  intros k. induction m as [|[k0 v0] m IH]; cbn; intros H; [reflexivity|].
  apply andb_prop in H as [H0 H]. destruct (String.eqb k0 k); cbn; [assumption|].
  rewrite H0. now apply IH.
Qed.

Lemma all_get : forall k c (m : JSMap.t IModelConfiguration),
  forallb P (JSMap.values m) = true -> JSMap.get k m = Some c -> P c = true.
Proof.
  intros k c. induction m as [|[k0 v0] m IH]; cbn; intros H Hget; [discriminate|].
  apply andb_prop in H as [H0 H]. destruct (String.eqb k0 k).
  - now injection Hget as <-.
  - now apply IH.
Qed.

Hypothesis P_flag : forall b c, P (set_isDefault b c) = P c.

Lemma all_flagged : forall modelId (m : JSMap.t IModelConfiguration),
  forallb P (JSMap.values m) = true ->
  forallb P (JSMap.values (flagged modelId m)) = true.
Proof.
  intros modelId. induction m as [|[k0 v0] m IH]; cbn; intros H; [reflexivity|].
  apply andb_prop in H as [H0 H]. rewrite P_flag, H0. now apply IH.
Qed.

Lemma all_setDefaultModel : forall modelId r,
  forallb P (JSMap.values (configurations r)) = true ->
  forallb P (JSMap.values (configurations (snd (fst (setDefaultModel modelId r))))) = true.
Proof.
  intros modelId r H. unfold setDefaultModel.
  destruct (JSMap.get modelId (configurations r)); cbn [fst snd configurations];
    [now apply all_flagged|assumption].
Qed.

Lemma all_removeConfiguration : forall modelId r,
  forallb P (JSMap.values (configurations r)) = true ->
  forallb P (JSMap.values (configurations (snd (fst (removeConfiguration modelId r))))) = true.
Proof.
  intros modelId r H. unfold removeConfiguration.
  destruct (JSMap.get modelId (configurations r)); cbn [fst snd]; [|assumption].
  cbn [defaultModelId]. destruct (defaultModelId r) as [d|]; cbn [fst snd configurations];
    [|exact (all_delete modelId _ H)].
  destruct (String.eqb d modelId); cbn [fst snd configurations];
    [|exact (all_delete modelId _ H)].
  unfold getAllConfigurations. cbn [configurations].
  destruct (JSMap.values (JSMap.delete modelId (configurations r))) as [|first rest] eqn:Hv;
    cbn [fst snd configurations].
  - exact (all_delete modelId _ H).
  - pose proof (all_setDefaultModel (id first)
                  (mkRegistry (JSMap.delete modelId (configurations r)) (Some d))
                  (all_delete modelId _ H)) as Hs.
    destruct (setDefaultModel (id first) _) as [[? ?] ?]. exact Hs.
Qed.

End AllValues.

Lemma no_plain_key_stripped : forall config, no_plain_key (stripped config) = true.
Proof.
  intros [i n t p e [k|] m d en]; unfold stripped, no_plain_key; cbn; [|reflexivity].
  destruct (truthy_string k) eqn:Hk; cbn; [reflexivity|now rewrite Hk].
Qed.

Lemma run_invariant : forall (parsesAsURL : string -> bool) (P : Registry -> Prop)
    (ok : Mutation -> bool),
  (forall op r, ok op = true -> P r -> P (snd (fst (mutate parsesAsURL op r)))) ->
  forall ops r, forallb ok ops = true -> P r -> P (run parsesAsURL ops r).
Proof.
  intros parsesAsURL P ok Hstep. unfold run.
  induction ops as [|op ops IH]; cbn; intros r Hok HP; [assumption|].
  apply andb_prop in Hok as [H0 Hok]. apply IH; [assumption|]. now apply Hstep.
Qed.

Lemma no_plain_keys_step : forall parsesAsURL op r,
  no_plain_keys r = true -> no_plain_keys (snd (fst (mutate parsesAsURL op r))) = true.
Proof.
  unfold no_plain_keys. intros parsesAsURL op r H.
  assert (Hflag : forall b c, no_plain_key (set_isDefault b c) = no_plain_key c)
    by reflexivity.
  destruct op as [probe config|probe modelId updates|modelId|modelId]; cbn [mutate].
  - destruct (isValid (validateConfiguration parsesAsURL probe config)) eqn:Hvalid.
    + pose proof (add_fulfilled parsesAsURL probe config r Hvalid) as Hf.
      destruct (addConfiguration parsesAsURL probe config r) as [[res r'] fx].
      cbn [fst snd] in *. injection Hf as _ ->. cbv zeta.
      pose proof (all_set no_plain_key (id config) (stripped config) _
                    (no_plain_key_stripped config) H) as Hs.
      destruct (isDefault config || _); cbn [configurations];
        [now apply all_flagged|assumption].
    + now rewrite (add_rejected _ _ _ _ Hvalid).
  - unfold updateConfiguration.
    destruct (JSMap.get modelId (configurations r)) as [existing|] eqn:Hget;
      [|assumption].
    destruct (isValid (validateConfiguration parsesAsURL probe (spread existing updates)));
      cbn [negb fst snd]; [|assumption].
    destruct (p_apiKey updates) as [k|] eqn:Hk; cbn [fst snd configurations].
    + apply all_set; [reflexivity|assumption].
    + apply all_set; [|assumption].
      pose proof (all_get no_plain_key modelId existing _ H Hget) as He.
      unfold no_plain_key, spread in *. cbn. now rewrite Hk.
  - now apply all_removeConfiguration.
  - now apply all_setDefaultModel.
Qed.

(** X14.  The registry never holds an API key in plain text: from a
    registry without one, no sequence of [addConfiguration],
    [updateConfiguration], [removeConfiguration] and [setDefaultModel],
    fulfilled or rejected, leads to a stored configuration with a
    non-empty [apiKey], so [getAllConfigurations] and what is saved to
    storage never contain one. *)
Theorem registry_never_stores_api_keys :
  forall (parsesAsURL : string -> bool) (ops : list Mutation) (r : Registry),
    no_plain_keys r = true ->
    no_plain_keys (run parsesAsURL ops r) = true
    /\ (forall c, In c (getAllConfigurations (run parsesAsURL ops r)) ->
          apiKey c = None \/ apiKey c = Some "").
Proof.
  intros parsesAsURL ops r H.
  assert (Hrun : no_plain_keys (run parsesAsURL ops r) = true).
  { apply (run_invariant parsesAsURL (fun r => no_plain_keys r = true) (fun _ => true));
      [intros; now apply no_plain_keys_step| |assumption].
    now induction ops. }
  split; [assumption|].
  intros c Hin. unfold no_plain_keys, getAllConfigurations in *.
  rewrite forallb_forall in Hrun. specialize (Hrun c Hin).
  unfold no_plain_key in Hrun. destruct (apiKey c) as [[|a k]|]; auto.
  discriminate.
Qed.

Lemma registry_never_stores_api_keys_witness :
  no_plain_keys (run any_url sample_mutations registry_a) = true
  /\ (forall c, In c (getAllConfigurations (run any_url sample_mutations registry_a)) ->
        apiKey c = None \/ apiKey c = Some "").
Proof.
  apply (registry_never_stores_api_keys any_url sample_mutations registry_a).
  reflexivity.
Defined.

(** *** The default model is tracked *)

Lemma keys_set_incl : forall (V : Type) k (v : V) m k',
  In k' (JSMap.keys m) -> In k' (JSMap.keys (JSMap.set k v m)).
Proof.
  intros V k v m k' H. apply get_some_keys.
  destruct (String.eqb_spec k k') as [->|Hne].
  - now rewrite get_set_same.
  - rewrite get_set_other by assumption. now apply get_some_keys.
Qed.

Lemma keys_set_self : forall (V : Type) k (v : V) m, In k (JSMap.keys (JSMap.set k v m)).
Proof. intros. apply get_some_keys. now rewrite get_set_same. Qed.

Lemma keys_delete_other : forall (V : Type) k (m : JSMap.t V) k',
  k' <> k -> In k' (JSMap.keys m) -> In k' (JSMap.keys (JSMap.delete k m)).
Proof.
  intros V k m k' Hne H. apply get_some_keys.
  rewrite get_delete_other by congruence. now apply get_some_keys.
Qed.

Lemma Forall_set : forall (V : Type) (Q : string * V -> Prop) k v (m : JSMap.t V),
  Q (k, v) -> Forall Q m -> Forall Q (JSMap.set k v m).
Proof.
  intros V Q k v m Hv H. apply Forall_forall. intros entry Hin.
  apply In_set in Hin as [->|Hin]; [assumption|].
  rewrite Forall_forall in H. now apply H.
Qed.

Lemma Forall_delete : forall (V : Type) (Q : string * V -> Prop) k (m : JSMap.t V),
  Forall Q m -> Forall Q (JSMap.delete k m).
Proof.
  intros V Q k. induction m as [|[k0 v0] m IH]; cbn; intro H; [constructor|].
  inversion H; subst. destruct (String.eqb k0 k); [assumption|].
  constructor; [assumption|now apply IH].
Qed.

Lemma well_keyed_set : forall k v m,
  id v = k -> truthy_string k = true -> well_keyed m -> well_keyed (JSMap.set k v m).
Proof.
  intros k v m Hid Hk (Hwf & Hkeyed & Htruthy). repeat split.
  - now apply wf_set.
  - now apply Forall_set.
  - apply Forall_forall. intros k' Hin. apply keys_set in Hin as [->|Hin]; [assumption|].
    rewrite Forall_forall in Htruthy. now apply Htruthy.
Qed.

Lemma well_keyed_delete : forall k m, well_keyed m -> well_keyed (JSMap.delete k m).
Proof.
  intros k m (Hwf & Hkeyed & Htruthy). repeat split.
  - now apply wf_delete.
  - now apply Forall_delete.
  - apply Forall_forall. intros k' Hin. apply keys_delete in Hin.
    rewrite Forall_forall in Htruthy. now apply Htruthy.
Qed.

Lemma well_keyed_flagged : forall modelId m, well_keyed m -> well_keyed (flagged modelId m).
Proof.
  intros modelId m (Hwf & Hkeyed & Htruthy). unfold well_keyed, JSMap.wf.
  rewrite keys_flagged. repeat split; try assumption.
  clear Hwf Htruthy. induction Hkeyed as [|[k0 v0] m H0 H IH]; cbn; constructor; assumption.
Qed.

Lemma tracks_default_intro : forall m d,
  well_keyed m ->
  match d with Some k => In k (JSMap.keys m) | None => m = [] end ->
  tracks_default (mkRegistry m d).
Proof. intros m d (Hwf & Hkeyed & Htruthy) Hd. repeat split; assumption. Qed.

Lemma tracks_default_elim : forall r,
  tracks_default r ->
  well_keyed (configurations r)
  /\ match defaultModelId r with
     | Some d => In d (JSMap.keys (configurations r))
     | None => configurations r = []
     end.
Proof. intros r (Hwf & Hkeyed & Htruthy & Hd). repeat split; assumption. Qed.

Lemma setDefaultModel_tracks : forall modelId r,
  tracks_default r -> tracks_default (snd (fst (setDefaultModel modelId r))).
Proof.
  intros modelId r H. unfold setDefaultModel.
  destruct (JSMap.get modelId (configurations r)) as [c|] eqn:Hget; cbn [fst snd];
    [|assumption].
  apply tracks_default_elim in H as [Hk _].
  apply tracks_default_intro; [now apply well_keyed_flagged|].
  rewrite keys_flagged. apply get_some_keys. now rewrite Hget.
Qed.

Lemma removeConfiguration_tracks : forall modelId r,
  tracks_default r ->
  tracks_default (snd (fst (removeConfiguration modelId r)))
  /\ fst (fst (removeConfiguration modelId r)) = Fulfilled tt.
Proof.
  intros modelId r H. unfold removeConfiguration.
  destruct (JSMap.get modelId (configurations r)) as [c|] eqn:Hget; cbn [fst snd];
    [|split; [assumption|reflexivity]].
  apply tracks_default_elim in H as [Hk Hd].
  pose proof (well_keyed_delete modelId _ Hk) as Hk1.
  cbn [defaultModelId]. destruct (defaultModelId r) as [d|].
  - destruct (String.eqb_spec d modelId) as [->|Hne].
    + unfold getAllConfigurations. cbn [configurations].
      destruct (JSMap.delete modelId (configurations r)) as [|[k first] rest] eqn:Hdel;
        cbn [JSMap.values map snd fst].
      * split; [|reflexivity]. apply tracks_default_intro; [assumption|reflexivity].
      * assert (Hid : id first = k).
        { destruct Hk1 as (_ & Hkeyed & _). now inversion Hkeyed. }
        rewrite Hid.
        rewrite (setDefaultModel_present k first
                   (mkRegistry ((k, first) :: rest) (Some modelId)))
          by (cbn; now rewrite String.eqb_refl).
        cbn [fst snd configurations]. split; [|reflexivity].
        apply tracks_default_intro; [now apply well_keyed_flagged|].
        rewrite keys_flagged. now left.
    + cbn [fst snd]. split; [|reflexivity].
      apply tracks_default_intro; [assumption|]. now apply keys_delete_other.
  - rewrite Hd in Hget. discriminate.
Qed.

Lemma mutate_tracks : forall parsesAsURL op r,
  keeps_id op = true -> tracks_default r ->
  tracks_default (snd (fst (mutate parsesAsURL op r))).
Proof.
  intros parsesAsURL op r Hop H.
  destruct op as [probe config|probe modelId updates|modelId|modelId]; cbn [mutate].
  - destruct (isValid (validateConfiguration parsesAsURL probe config)) eqn:Hvalid.
    + pose proof (add_fulfilled parsesAsURL probe config r Hvalid) as Hf.
      destruct (addConfiguration parsesAsURL probe config r) as [[res r'] fx].
      cbn [fst snd] in *. injection Hf as _ ->. cbv zeta.
      apply tracks_default_elim in H as [Hk Hd].
      assert (Hid : truthy_string (id config) = true).
      { unfold validateConfiguration in Hvalid.
        destruct (truthy_string (id config)); [reflexivity|]. cbn in Hvalid. discriminate. }
      assert (Hsid : id (stripped config) = id config).
      { unfold stripped. destruct (apiKey config) as [k|]; [destruct (truthy_string k)|];
          reflexivity. }
      pose proof (well_keyed_set (id config) (stripped config) _ Hsid Hid Hk) as Hk1.
      destruct (isDefault config || _) eqn:Hb.
      * apply tracks_default_intro; [now apply well_keyed_flagged|].
        rewrite keys_flagged. apply keys_set_self.
      * apply tracks_default_intro; [assumption|].
        destruct (defaultModelId r) as [d|]; [now apply keys_set_incl|].
        rewrite Hd in Hb. cbn in Hb. rewrite orb_true_r in Hb. discriminate.
    + now rewrite (add_rejected _ _ _ _ Hvalid).
  - unfold updateConfiguration.
    destruct (JSMap.get modelId (configurations r)) as [existing|] eqn:Hget;
      [|assumption].
    destruct (isValid (validateConfiguration parsesAsURL probe (spread existing updates)));
      cbn [negb fst snd]; [|assumption].
    apply tracks_default_elim in H as [Hk Hd].
    assert (Hin : In modelId (JSMap.keys (configurations r)))
      by (apply get_some_keys; now rewrite Hget).
    assert (Hid : id (spread existing updates) = modelId).
    { destruct Hk as (_ & Hkeyed & _). rewrite Forall_forall in Hkeyed.
      specialize (Hkeyed _ (get_In _ _ _ _ Hget)). cbn in Hkeyed.
      unfold spread, override. cbn [id keeps_id] in *.
      destruct (p_id updates) as [i|]; [|assumption].
      now apply String.eqb_eq in Hop. }
    assert (Htruthy : truthy_string modelId = true).
    { destruct Hk as (_ & _ & Ht). rewrite Forall_forall in Ht. now apply Ht. }
    assert (Hkeys : forall v, JSMap.keys (JSMap.set modelId v (configurations r))
                              = JSMap.keys (configurations r))
      by (intro v; apply keys_set_present; now rewrite Hget).
    destruct (p_apiKey updates) as [k|]; cbn [fst snd];
      (apply tracks_default_intro;
       [apply well_keyed_set; [exact Hid|assumption|assumption]|]);
      rewrite Hkeys; (destruct (defaultModelId r); [assumption|]);
      rewrite Hd in Hget; discriminate.
  - now apply removeConfiguration_tracks.
  - now apply setDefaultModel_tracks.
Qed.

(** X15.  While configurations are mutated through the service (with
    updates that leave the id alone), the default model stays defined: the
    keys are distinct, non-empty and the ids of what they store, and as
    long as one configuration is registered [getDefaultModel] returns a
    registered configuration; with none registered it returns
    [undefined]. *)
Theorem default_model_is_tracked :
  forall (parsesAsURL : string -> bool) (ops : list Mutation) (r : Registry),
    tracks_default r ->
    forallb keeps_id ops = true ->
    let r' := run parsesAsURL ops r in
    tracks_default r'
    /\ (getAllConfigurations r' = [] -> getDefaultModel r' = None)
    /\ (getAllConfigurations r' <> [] ->
          exists d c, defaultModelId r' = Some d
                      /\ getDefaultModel r' = Some c
                      /\ getConfiguration d r' = Some c /\ id c = d).
Proof.
  intros parsesAsURL ops r H Hops r'.
  assert (Hr' : tracks_default r').
  { apply (run_invariant parsesAsURL tracks_default keeps_id); try assumption.
    intros; now apply mutate_tracks. }
  split; [assumption|].
  apply tracks_default_elim in Hr' as [(Hwf & Hkeyed & Htruthy) Hd].
  unfold getAllConfigurations, getDefaultModel, getConfiguration. split.
  - intro Hnil. destruct (configurations r'); [|discriminate].
    destruct (defaultModelId r') as [d|]; [|reflexivity]. now destruct (truthy_string d).
  - intro Hne. destruct (defaultModelId r') as [d|].
    + rewrite Forall_forall in Htruthy. rewrite (Htruthy d Hd).
      apply get_some_keys in Hd.
      destruct (JSMap.get d (configurations r')) as [c|] eqn:Hget; [|contradiction].
      rewrite Forall_forall in Hkeyed. pose proof (Hkeyed _ (get_In _ _ _ _ Hget)) as Hid.
      exists d, c. repeat split; assumption.
    + rewrite Hd in Hne. contradiction.
Qed.

Lemma default_model_is_tracked_witness :
  let r' := run any_url sample_mutations registry_a in
  tracks_default r'
  /\ (getAllConfigurations r' = [] -> getDefaultModel r' = None)
  /\ (getAllConfigurations r' <> [] ->
        exists d c, defaultModelId r' = Some d
                    /\ getDefaultModel r' = Some c
                    /\ getConfiguration d r' = Some c /\ id c = d).
Proof.
  apply (default_model_is_tracked any_url sample_mutations registry_a).
  - repeat split; cbn.
    + repeat constructor. intros [].
    + repeat constructor.
    + repeat constructor.
    + now left.
  - reflexivity.
Defined.

(** X16.  In a registry whose default is tracked (every configuration is
    stored under its own id, no id is the empty string, and the default
    id names a stored configuration whenever one is stored),
    [removeConfiguration] on a registered id never rejects and forgets the
    configuration and its secret.  When the removed configuration was the
    default, the oldest remaining configuration becomes the one default;
    when none remains, the registry is empty and the stored default is
    removed.  Another default is left alone. *)
Theorem removeConfiguration_promotes_oldest :
  forall (modelId : string) (c : IModelConfiguration) (r : Registry),
    tracks_default r ->
    getConfiguration modelId r = Some c ->
    let '(res, r', fx) := removeConfiguration modelId r in
    let remaining := JSMap.delete modelId (configurations r) in
    res = Fulfilled tt
    /\ getConfiguration modelId r' = None
    /\ JSMap.keys (configurations r') = JSMap.keys remaining
    /\ In (SecretDelete modelId) fx
    /\ (defaultModelId r <> Some modelId -> r' = mkRegistry remaining (defaultModelId r))
    /\ (defaultModelId r = Some modelId ->
          match remaining with
          | [] => r' = emptyRegistry /\ In RemoveDefaultModel fx
          | (k, first) :: _ =>
              defaultModelId r' = Some k
              /\ getDefaultModel r' = Some (set_isDefault true first)
              /\ defaults r' = [set_isDefault true first]
          end).
Proof.
  intros modelId c r H Hget. unfold getConfiguration in Hget.
  apply tracks_default_elim in H as [Hk Hd].
  pose proof (well_keyed_delete modelId _ Hk) as Hk1.
  assert (Hgone : JSMap.get modelId (JSMap.delete modelId (configurations r)) = None)
    by (apply get_delete_same; apply Hk).
  unfold removeConfiguration. rewrite Hget. cbn [defaultModelId].
  destruct (defaultModelId r) as [d|]; [|rewrite Hd in Hget; discriminate].
  destruct (String.eqb_spec d modelId) as [->|Hne].
  - unfold getAllConfigurations. cbn [configurations].
    destruct (JSMap.delete modelId (configurations r)) as [|[k first] rest] eqn:Hdel;
      cbn [JSMap.values map snd fst].
    + cbv zeta. unfold getConfiguration. cbn.
      repeat split; auto; congruence.
    + assert (Hid : id first = k).
      { destruct Hk1 as (_ & Hkeyed & _). now inversion Hkeyed. }
      assert (Htruthy : truthy_string k = true).
      { destruct Hk1 as (_ & _ & Ht). now inversion Ht. }
      assert (Hfirst : JSMap.get k ((k, first) :: rest) = Some first)
        by (cbn; now rewrite String.eqb_refl).
      rewrite Hid.
      rewrite (setDefaultModel_present k first
                 (mkRegistry ((k, first) :: rest) (Some modelId)) Hfirst).
      cbv zeta. unfold getConfiguration, getDefaultModel, defaults.
      cbn [configurations defaultModelId].
      split; [reflexivity|].
      split; [now rewrite get_flagged, Hgone|].
      split; [apply keys_flagged|].
      split; [cbn; auto|].
      split; [congruence|]. intros _.
      split; [reflexivity|]. rewrite Htruthy.
      split; [now rewrite get_flagged, Hfirst, String.eqb_refl|].
      apply defaults_flagged; [apply Hk1|assumption].
  - cbv zeta. unfold getConfiguration. cbn [configurations defaultModelId].
    repeat split; auto; try (cbn; now auto).
    intro Heq. congruence.
Qed.

Lemma removeConfiguration_promotes_oldest_witness :
  let '(res, r', fx) := removeConfiguration "a" registry_ab in
  let remaining := JSMap.delete "a" (configurations registry_ab) in
  res = Fulfilled tt
  /\ getConfiguration "a" r' = None
  /\ JSMap.keys (configurations r') = JSMap.keys remaining
  /\ In (SecretDelete "a") fx
  /\ (defaultModelId registry_ab <> Some "a"
      -> r' = mkRegistry remaining (defaultModelId registry_ab))
  /\ (defaultModelId registry_ab = Some "a" ->
        match remaining with
        | [] => r' = emptyRegistry /\ In RemoveDefaultModel fx
        | (k, first) :: _ =>
            defaultModelId r' = Some k
            /\ getDefaultModel r' = Some (set_isDefault true first)
            /\ defaults r' = [set_isDefault true first]
        end).
Proof.
  apply (removeConfiguration_promotes_oldest "a" config_a registry_ab).
  - repeat split; cbn.
    + repeat constructor; cbn; intuition discriminate.
    + repeat constructor.
    + repeat constructor.
    + now left.
  - reflexivity.
Defined.

(** X17.  A configuration whose provider the connection test has no
    request for (any other than ollama, lmstudio, openai and anthropic),
    or whose API key has no entry in the secret store under the key's own
    text, cannot be added: [addConfiguration] rejects with a configuration
    error whatever the endpoint would answer, and leaves the registry as
    it was. *)
Theorem untestable_configuration_is_rejected :
  forall (parsesAsURL : string -> bool) (numberToString : Z -> string)
         (secrets : SecretStore) (config : IModelConfiguration) (r : Registry),
    supported_provider (provider config) = false
    \/ (exists k e, apiKey config = Some k /\ truthy_string k = true
                    /\ decryptApiKey secrets k = Rejected e) ->
    exists msg,
      In msg ["Missing required fields: id, name, endpoint, or model";
              "Invalid endpoint URL"; "API key not found"; "Unsupported provider"]
      /\ forall fetch : string -> FetchOutcome,
           addConfigurationTested parsesAsURL numberToString secrets fetch config r
           = (Rejected (newAIError CONFIGURATION_ERROR msg), r, []).
Proof.
  intros parsesAsURL numberToString secrets config r H.
  assert (Hprobe : exists m, In m ["API key not found"; "Unsupported provider"]
                     /\ truthy_string m = true
                     /\ forall fetch, testModelConnection numberToString secrets fetch config
                                      = mkProbe false (Some m)).
  { unfold testModelConnection.
    destruct (apiKey config) as [k|] eqn:Hk.
    - destruct (truthy_string k) eqn:Ht.
      + destruct (decryptApiKey secrets k) as [key|e] eqn:Hdec.
        * destruct H as [H|(k' & e & Hk' & _ & Hrej)]; [|congruence].
          exists "Unsupported provider". rewrite H. cbn. auto.
        * exists "API key not found". split; [cbn; auto|]. split; [reflexivity|].
          intros _. unfold decryptApiKey in Hdec.
          destruct (secrets k) as [v|]; [destruct (truthy_string v)|];
            try discriminate; now injection Hdec as <-.
      + destruct H as [H|(k' & e & Hk' & Ht' & _)]; [|congruence].
        exists "Unsupported provider". rewrite H. cbn. auto.
    - destruct H as [H|(k' & e & Hk' & _)]; [|congruence].
      exists "Unsupported provider". rewrite H. cbn. auto. }
  destruct Hprobe as (m & Hin & Hm & Hprobe).
  unfold addConfigurationTested, addConfiguration, validateConfiguration.
  destruct (negb (truthy_string (id config)) || negb (truthy_string (name config))
            || negb (truthy_string (endpoint config))
            || negb (truthy_string (model config))).
  - eexists. split; [|intros fetch; cbn; reflexivity]. cbn. auto.
  - destruct (negb (parsesAsURL (endpoint config))).
    + eexists. split; [|intros fetch; cbn; reflexivity]. cbn. auto.
    + exists m. split; [cbn in *; tauto|]. intros fetch. rewrite Hprobe. cbn.
      destruct m; [discriminate|reflexivity].
Qed.

Lemma untestable_configuration_is_rejected_witness :
  exists msg,
    In msg ["Missing required fields: id, name, endpoint, or model";
            "Invalid endpoint URL"; "API key not found"; "Unsupported provider"]
    /\ forall fetch : string -> FetchOutcome,
         addConfigurationTested any_url (fun _ => "200") no_secrets fetch config_llamacpp
           registry_ab
         = (Rejected (newAIError CONFIGURATION_ERROR msg), registry_ab, []).
Proof.
  apply (untestable_configuration_is_rejected any_url (fun _ => "200") no_secrets
           config_llamacpp registry_ab).
  left. reflexivity.
Defined.

(** X18.  [updateConfiguration] touches one entry only: the keys and
    their order, the default model id and every other configuration are
    what they were, whether the update is fulfilled or rejected.  A
    fulfilled update stores the merged configuration under the same key
    without an API key of the update. *)
Theorem updateConfiguration_touches_one_entry :
  forall (parsesAsURL : string -> bool) (probe : ProbeResult) (modelId : string)
         (updates : PartialConfiguration) (r : Registry),
    let '(res, r', fx) := updateConfiguration parsesAsURL probe modelId updates r in
    JSMap.keys (configurations r') = JSMap.keys (configurations r)
    /\ defaultModelId r' = defaultModelId r
    /\ (forall k, k <> modelId -> getConfiguration k r' = getConfiguration k r)
    /\ (res = Fulfilled tt ->
          exists existing,
            getConfiguration modelId r = Some existing
            /\ isValid (validateConfiguration parsesAsURL probe (spread existing updates))
               = true
            /\ getConfiguration modelId r'
               = Some (set_apiKey (match p_apiKey updates with
                                   | Some _ => None
                                   | None => apiKey existing
                                   end) (spread existing updates))).
Proof.
  intros parsesAsURL probe modelId updates r.
  unfold updateConfiguration, getConfiguration.
  destruct (JSMap.get modelId (configurations r)) as [existing|] eqn:Hget.
  - destruct (isValid (validateConfiguration parsesAsURL probe (spread existing updates)))
      eqn:Hvalid; cbn [negb].
    + assert (Hkeys : forall v, JSMap.keys (JSMap.set modelId v (configurations r))
                                = JSMap.keys (configurations r))
        by (intro v; apply keys_set_present; now rewrite Hget).
      destruct (p_apiKey updates) as [k|] eqn:Hk; cbn [configurations defaultModelId];
        (split; [apply Hkeys|]); (split; [reflexivity|]);
        (split; [intros k' Hne; apply get_set_other; congruence|]);
        intros _; exists existing; (split; [reflexivity|]); (split; [exact Hvalid|]);
        rewrite get_set_same; f_equal.
      unfold spread, set_apiKey. cbn. now rewrite Hk.
    + repeat split; try reflexivity. discriminate.
  - repeat split; try reflexivity. discriminate.
Qed.

End RegistryMoreFacts.


(* ================================================================== *)
(** * Further properties of the workflows *)
(* ================================================================== *)

Module WorkflowFacts.
Import AIErrors AIWorkflows AIServiceWorkflows FlowSamples WorkflowSamples.
Import JSMapFacts JSMapMoreFacts.

Lemma skipn_app_le : forall (A : Type) (n : nat) (l1 l2 : list A),
  (n <= List.length l1)%nat -> skipn n (l1 ++ l2) = skipn n l1 ++ l2.
Proof.
  intros A n l1 l2 H. rewrite skipn_app.
  replace (n - List.length l1)%nat with 0%nat by lia. reflexivity.
Qed.

Lemma window_sent : forall conversationId message context memory history,
  (1 <= effective_maxHistory context)%Z ->
  history = prior conversationId context memory ++ [mkMessage user message] ->
  (if (effective_maxHistory context + 1 <? Z.of_nat (List.length history))%Z
   then firstn 1 history ++ slice_from (- effective_maxHistory context) history
   else history)
  = window conversationId message context memory.
Proof.
  intros conversationId message context memory history Hm ->. unfold window.
  set (m := effective_maxHistory context) in *.
  assert (Hne : prior conversationId context memory <> []).
  { unfold prior. destruct (getConversationHistory conversationId memory); discriminate. }
  destruct (prior conversationId context memory) as [|first rest]; [contradiction|].
  cbn [tl firstn app List.length]. rewrite length_app. cbn [List.length].
  unfold last_n.
  destruct (Z.ltb_spec (m + 1) (Z.of_nat (S (List.length rest + 1)))) as [Hlt|Hge].
  - f_equal. unfold slice_from.
    destruct (Z.ltb_spec (- m) 0) as [_|Hbad]; [|lia].
    cbn [List.length]. rewrite length_app. cbn [List.length].
    replace (Z.to_nat (Z.max (Z.of_nat (S (List.length rest + 1)) + - m) 0))
      with (S (List.length rest - (Z.to_nat m - 1))) by lia.
    cbn [skipn]. apply skipn_app_le. lia.
  - f_equal. replace (List.length rest - (Z.to_nat m - 1))%nat with 0%nat by lia.
    reflexivity.
Qed.

(** X20.  With a positive limit [maxHistory] (10 when none or 0 is given),
    [executeConversationFlow] asks the backend with the first message of
    the conversation (the system prompt when the conversation is new), the
    most recent [maxHistory - 1] messages after it and the new user
    message: at most [maxHistory + 1] messages.  On success it stores these
    followed by the reply, and returns the reply; on failure it rejects
    with the error of the backend. *)
Theorem conversation_window :
  forall (chat : list IAIMessage -> Settled Thrown IChatResponse)
         (conversationId message : string) (context : option FlowContext)
         (memory : ConversationMemory),
    (1 <= effective_maxHistory context)%Z ->
    let sent := window conversationId message context memory in
    let '(result, memory') :=
      executeConversationFlow chat conversationId message context memory in
    (2 <= List.length sent <= Z.to_nat (effective_maxHistory context) + 1)%nat
    /\ match chat sent with
       | Fulfilled reply =>
           result = Fulfilled (response_content reply)
           /\ getConversationHistory conversationId memory'
              = sent ++ [mkMessage assistant (response_content reply)]
       | Rejected e => result = Rejected e
       end.
Proof.
  intros chat conversationId message context memory Hm sent.
  assert (Hlen : (2 <= List.length sent <= Z.to_nat (effective_maxHistory context) + 1)%nat).
  { unfold sent, window, last_n.
    assert (Hne : prior conversationId context memory <> []).
    { unfold prior. destruct (getConversationHistory conversationId memory); discriminate. }
    destruct (prior conversationId context memory) as [|first rest]; [contradiction|].
    cbn [tl firstn]. rewrite !length_app, length_skipn. cbn [List.length]. lia. }
  unfold executeConversationFlow.
  fold (effective_maxHistory context).
  pose proof (window_sent conversationId message context memory _ Hm eq_refl) as Hw.
  unfold prior, getConversationHistory, opening in Hw.
  destruct (JSMap.get conversationId memory) as [[|first rest]|] eqn:Hget;
    cbn [List.length Nat.eqb app] in *; rewrite Hw; fold sent;
    destruct (chat sent) as [reply|e]; (split; [exact Hlen|]); try reflexivity;
    (split; [reflexivity|]); unfold getConversationHistory; now rewrite get_set_same.
Qed.

Lemma conversation_window_witness :
  let sent := window "c" "new question" maxHistory_2 memory_4_exchanges in
  let '(result, memory') :=
    executeConversationFlow chat_ok "c" "new question" maxHistory_2 memory_4_exchanges in
  (2 <= List.length sent <= Z.to_nat (effective_maxHistory maxHistory_2) + 1)%nat
  /\ match chat_ok sent with
     | Fulfilled reply =>
         result = Fulfilled (response_content reply)
         /\ getConversationHistory "c" memory'
            = sent ++ [mkMessage assistant (response_content reply)]
     | Rejected e => result = Rejected e
     end.
Proof.
  apply (conversation_window chat_ok "c" "new question" maxHistory_2 memory_4_exchanges).
  cbn. lia.
Defined.

(** X21.  [executeConversationFlow] leaves every other conversation as
    it was.  When the backend fails, the flow rejects with the backend's
    error after it has added the user message: an existing conversation
    keeps the message (untrimmed, and after the system prompt when the
    stored history was empty), while for a new conversation nothing is
    stored. *)
Theorem failed_flow_keeps_the_question :
  forall (chat : list IAIMessage -> Settled Thrown IChatResponse)
         (conversationId message : string) (context : option FlowContext)
         (memory : ConversationMemory),
    let '(result, memory') :=
      executeConversationFlow chat conversationId message context memory in
    (forall other, other <> conversationId ->
       JSMap.get other memory' = JSMap.get other memory)
    /\ (forall e, result = Rejected e ->
          (exists sent, chat sent = Rejected e)
          /\ match JSMap.get conversationId memory with
             | Some stored =>
                 JSMap.get conversationId memory'
                 = Some (prior conversationId context memory ++ [mkMessage user message])
             | None => JSMap.get conversationId memory' = None
             end).
Proof.
  intros chat conversationId message context memory.
  unfold executeConversationFlow, prior, getConversationHistory, opening.
  set (m := number_or _ 10). set (prompt := string_or _ _).
  destruct (JSMap.get conversationId memory) as [stored|] eqn:Hget.
  - set (history := if (List.length stored =? 0)%nat then _ else _).
    match goal with |- context [chat ?h] => destruct (chat h) as [reply|e] eqn:Hchat end.
    + split; [intros other Hne; now rewrite !get_set_other by congruence|].
      discriminate.
    + split; [intros other Hne; now rewrite get_set_other by congruence|].
      intros e' [= <-]. split; [eexists; exact Hchat|].
      rewrite get_set_same. subst history. now destruct stored.
  - cbn [List.length Nat.eqb app].
    match goal with |- context [chat ?h] => destruct (chat h) as [reply|e] eqn:Hchat end.
    + split; [intros other Hne; now rewrite get_set_other by congruence|].
      discriminate.
    + split; [reflexivity|]. intros e' [= <-]. split; [eexists; exact Hchat|exact Hget].
Qed.

(** X22.  [clearConversationMemory] forgets one conversation and leaves
    the others; the next message of that conversation starts it over: the
    backend is asked with the system prompt and the message alone, and a
    failed first message leaves nothing stored. *)
Theorem clearConversationMemory_starts_over :
  forall (chat : list IAIMessage -> Settled Thrown IChatResponse)
         (conversationId message : string) (context : option FlowContext)
         (memory : ConversationMemory),
    JSMap.wf memory ->
    (1 <= effective_maxHistory context)%Z ->
    let cleared := clearConversationMemory conversationId memory in
    getConversationHistory conversationId cleared = []
    /\ (forall other, other <> conversationId ->
          getConversationHistory other cleared = getConversationHistory other memory)
    /\ let '(result, memory') :=
         executeConversationFlow chat conversationId message context cleared in
       match chat [opening context; mkMessage user message] with
       | Fulfilled reply =>
           result = Fulfilled (response_content reply)
           /\ getConversationHistory conversationId memory'
              = [opening context; mkMessage user message;
                 mkMessage assistant (response_content reply)]
       | Rejected e =>
           result = Rejected e /\ getConversationHistory conversationId memory' = []
       end.
Proof.
  intros chat conversationId message context memory Hwf Hm cleared.
  assert (Hgone : JSMap.get conversationId cleared = None)
    by (apply get_delete_same; assumption).
  unfold getConversationHistory. rewrite Hgone.
  split; [reflexivity|].
  split; [intros other Hne; unfold cleared, clearConversationMemory;
          now rewrite get_delete_other by congruence|].
  unfold executeConversationFlow. fold (effective_maxHistory context).
  rewrite Hgone. cbn [List.length Nat.eqb app]. fold (opening context).
  destruct (Z.ltb_spec (effective_maxHistory context + 1) (Z.of_nat 2)) as [Hbad|_];
    [lia|].
  destruct (chat [opening context; mkMessage user message]) as [reply|e].
  - split; [reflexivity|]. now rewrite get_set_same.
  - split; [reflexivity|]. now rewrite Hgone.
Qed.

Lemma clearConversationMemory_starts_over_witness :
  let cleared := clearConversationMemory "c" memory_4_exchanges in
  getConversationHistory "c" cleared = []
  /\ (forall other, other <> "c" ->
        getConversationHistory other cleared
        = getConversationHistory other memory_4_exchanges)
  /\ let '(result, memory') :=
       executeConversationFlow chat_ok "c" "hello" maxHistory_2 cleared in
     match chat_ok [opening maxHistory_2; mkMessage user "hello"] with
     | Fulfilled reply =>
         result = Fulfilled (response_content reply)
         /\ getConversationHistory "c" memory'
            = [opening maxHistory_2; mkMessage user "hello";
               mkMessage assistant (response_content reply)]
     | Rejected e =>
         result = Rejected e /\ getConversationHistory "c" memory' = []
     end.
Proof.
  apply (clearConversationMemory_starts_over chat_ok "c" "hello" maxHistory_2
           memory_4_exchanges).
  - repeat constructor. intros [].
  - cbn. lia.
Defined.

(** *** The human-in-the-loop workflow *)

Section Reviews.
Variable chat : nat -> list IAIMessage -> Settled Thrown IChatResponse.
Variable humanCallback : string -> nat -> Settled Thrown HumanDecision.
Variable task : string.

Ltac rejected_trace :=
  cbn [reviews chats List.length map snd seq]; repeat split; try lia; discriminate.

Lemma reviewLoop_bounds : forall remaining attempts calls currentResponse,
  (attempts + remaining = maxAttempts)%nat ->
  let '(result, fx) :=
    reviewLoop chat humanCallback task remaining attempts calls currentResponse in
  (List.length (reviews fx) <= remaining)%nat
  /\ map snd (reviews fx) = seq (attempts + 1) (List.length (reviews fx))
  /\ (chats fx <= maxAttempts - 1 - attempts)%nat
  /\ (forall content, result = Fulfilled content ->
        (remaining = 0%nat /\ content = response_content currentResponse)
        \/ exists k decision,
             In (content, k) (reviews fx)
             /\ humanCallback content k = Fulfilled decision
             /\ (approved decision = true
                 \/ (approved decision = false /\ k = maxAttempts))).
Proof.
  unfold maxAttempts.
  induction remaining as [|remaining IH]; intros attempts calls currentResponse Hsum.
  - cbn. repeat split; try lia. intros content [= <-]. now left.
  - cbn [reviewLoop]. unfold maxAttempts.
    destruct (humanCallback (response_content currentResponse) (attempts + 1))
      as [decision|t] eqn:Hhuman;
      [|rejected_trace].
    destruct (approved decision) eqn:Happroved.
    { cbn [reviews chats List.length map snd seq]. repeat split; try lia.
      intros content [= <-]. right.
      exists (attempts + 1)%nat, decision. split; [now left|]. split; auto. }
    match goal with
    | |- context [match ?refine with Some _ => _ | None => _ end] =>
        destruct refine as [messages|] eqn:Hrefine
    end.
    + assert (Hlt : (attempts < 3 - 1)%nat).
      { destruct (feedback decision) as [f|]; [|discriminate].
        destruct (Nat.ltb_spec attempts (3 - 1)); [assumption|].
        rewrite andb_false_r in Hrefine. discriminate. }
      destruct (chat calls messages) as [refined|t] eqn:Hchat;
        [|rejected_trace].
      specialize (IH (S attempts) (S calls) refined ltac:(lia)).
      destruct (reviewLoop chat humanCallback task remaining (S attempts) (S calls) refined)
        as [result fx].
      destruct IH as (Hlen & Hseq & Hchats & Hres).
      cbn [reviews chats List.length map snd]. split; [lia|].
      split; [rewrite Hseq; reflexivity|].
      split; [lia|].
      intros content Hc. right.
      destruct (Hres content Hc) as [[Hzero _]|(k & d & Hin & Hd & Hk)]; [lia|].
      exists k, d. split; [now right|]. split; assumption.
    + specialize (IH (S attempts) calls currentResponse ltac:(lia)).
      destruct (reviewLoop chat humanCallback task remaining (S attempts) calls
                  currentResponse) as [result fx].
      destruct IH as (Hlen & Hseq & Hchats & Hres).
      cbn [reviews chats List.length map snd]. split; [lia|].
      split; [rewrite Hseq; reflexivity|].
      split; [lia|].
      intros content Hc. right.
      destruct (Hres content Hc) as [[-> ->]|(k & d & Hin & Hd & Hk)].
      * exists (attempts + 1)%nat, decision. split; [now left|]. split; [assumption|].
        right. split; [assumption|lia].
      * exists k, d. split; [now right|]. split; assumption.
Qed.

End Reviews.

(** X23.  [executeHITLWorkflow] asks the backend at most three times and
    the human at most three times, with the attempt numbers 1, 2, 3 in
    turn.  What it returns has always been shown to the human: it is the
    response the human approved, or, after three reviews without approval,
    the response of the third review, which the human turned down. *)
Theorem executeHITLWorkflow_reviews :
  forall (chat : nat -> list IAIMessage -> Settled Thrown IChatResponse)
         (humanCallback : string -> nat -> Settled Thrown HumanDecision) (task : string),
    let '(result, fx) := executeHITLWorkflow chat humanCallback task in
    (1 <= chats fx <= 3)%nat
    /\ (List.length (reviews fx) <= 3)%nat
    /\ map snd (reviews fx) = seq 1 (List.length (reviews fx))
    /\ (forall content, result = Fulfilled content ->
          exists k decision,
            In (content, k) (reviews fx)
            /\ humanCallback content k = Fulfilled decision
            /\ (approved decision = true \/ (approved decision = false /\ k = 3%nat))).
Proof.
  intros chat humanCallback task. unfold executeHITLWorkflow.
  match goal with |- context [chat 0%nat ?m] => destruct (chat 0%nat m) as [response|t] end;
    [|cbn; repeat split; try lia; discriminate].
  pose proof (reviewLoop_bounds chat humanCallback task maxAttempts 0 1 response eq_refl)
    as H.
  destruct (reviewLoop chat humanCallback task maxAttempts 0 1 response) as [result fx].
  destruct H as (Hlen & Hseq & Hchats & Hres). unfold maxAttempts in *.
  cbn [chats reviews]. split; [lia|]. split; [assumption|]. split; [assumption|].
  intros content Hc. destruct (Hres content Hc) as [[Hzero _]|H]; [discriminate|exact H].
Qed.

(** *** The batch workflow *)


Section Batches.
Variable Item : Type.
Variable processor : Item -> Settled Thrown string.
Variable earliest : list Thrown -> Thrown.
Variable items : list Item.
Variable batchSize : Z.

Lemma processed_app : forall fx1 fx2 : list (BatchEvent Item),
  processed (fx1 ++ fx2) = processed fx1 ++ processed fx2.
Proof.
  induction fx1 as [|[item|ms] fx1 IH]; intros fx2; cbn; [reflexivity| |apply IH].
  now rewrite IH.
Qed.

Lemma sleeps_app : forall fx1 fx2 : list (BatchEvent Item),
  sleeps (fx1 ++ fx2) = (sleeps fx1 + sleeps fx2)%nat.
Proof.
  induction fx1 as [|[item|ms] fx1 IH]; intros fx2; cbn; [reflexivity|apply IH|].
  now rewrite IH.
Qed.

Lemma processed_calls : forall batch : list Item,
  processed (map Process batch) = batch /\ sleeps (map (@Process Item) batch) = 0%nat.
Proof.
  induction batch as [|item batch [IH1 IH2]]; cbn; [split; reflexivity|].
  now rewrite IH1, IH2.
Qed.

Lemma Promise_all_fulfilled : forall batch : list Item,
  (forall item, In item batch -> exists v, processor item = Fulfilled v) ->
  Promise_all earliest (map processor batch) = Fulfilled (fulfilled (map processor batch))
  /\ map (@Fulfilled Thrown string) (fulfilled (map processor batch)) = map processor batch.
Proof.
  unfold Promise_all. induction batch as [|item batch IH]; intros H; cbn.
  - split; reflexivity.
  - destruct (H item (or_introl eq_refl)) as [v Hv]. rewrite Hv.
    destruct IH as [IH1 IH2]; [intros; apply H; now right|].
    destruct (rejected (map processor batch)); [|discriminate].
    split; [reflexivity|]. cbn. now rewrite IH2.
Qed.

Lemma fulfilled_app : forall l1 l2 : list (Settled Thrown string),
  fulfilled (l1 ++ l2) = fulfilled l1 ++ fulfilled l2.
Proof.
  induction l1 as [|[v|t] l1 IH]; intros l2; cbn; [reflexivity| |apply IH].
  now rewrite IH.
Qed.

Hypothesis batchSize_positive : (1 <= batchSize)%Z.
Hypothesis all_fulfil : forall item, In item items -> exists v, processor item = Fulfilled v.

Lemma batchLoop_all : forall fuel i results,
  (0 <= i)%Z ->
  (0 < fuel)%nat ->
  (Z.of_nat (List.length items) - i < Z.of_nat fuel)%Z ->
  exists fx,
    batchLoop Item processor earliest items batchSize fuel i results
    = Some (Fulfilled (results ++ fulfilled (map processor (skipn (Z.to_nat i) items))), fx)
    /\ processed fx = skipn (Z.to_nat i) items
    /\ Z.of_nat (sleeps fx)
       = (if (i <? Z.of_nat (List.length items))%Z
          then (Z.of_nat (List.length items) - i - 1) / batchSize
          else 0)%Z.
Proof.
  induction fuel as [|fuel IH]; intros i results Hi Hpos Hfuel.
  - lia.
  - cbn [batchLoop].
    destruct (Z.ltb_spec i (Z.of_nat (List.length items))) as [Hlt|Hge].
    + set (rest := skipn (Z.to_nat i) items).
      set (n := Z.to_nat (Z.min (i + batchSize) (Z.of_nat (List.length items)) - i)).
      assert (Hbatch : slice i (i + batchSize) items = firstn n rest).
      { unfold slice, n, rest.
        destruct (Z.ltb_spec i 0); [lia|]. destruct (Z.ltb_spec (i + batchSize) 0); [lia|].
        now rewrite (Z.min_l i) by lia. }
      assert (Hnext : skipn n rest = skipn (Z.to_nat (i + batchSize)) items).
      { unfold rest. rewrite skipn_skipn.
        destruct (Z.le_gt_cases (i + batchSize) (Z.of_nat (List.length items))).
        - f_equal. unfold n. lia.
        - rewrite !skipn_all2; [reflexivity| |]; unfold n; lia. }
      assert (Hin : forall item, In item (firstn n rest) ->
                      exists v, processor item = Fulfilled v).
      { intros item Hitem. apply all_fulfil. unfold rest in Hitem.
        apply In_firstn_elim in Hitem. now apply In_skipn_elim in Hitem. }
      rewrite Hbatch.
      destruct (Promise_all_fulfilled (firstn n rest) Hin) as [Hall _]. rewrite Hall.
      destruct (IH (i + batchSize)%Z
                  (results ++ fulfilled (map processor (firstn n rest)))
                  ltac:(lia) ltac:(lia) ltac:(lia)) as (fx & Hloop & Hprocessed & Hsleeps).
      rewrite Hloop. eexists. split; [|split].
      * do 2 f_equal. rewrite <- app_assoc. f_equal.
        rewrite <- Hnext, <- fulfilled_app, <- map_app, firstn_skipn. reflexivity.
      * rewrite !processed_app. destruct (processed_calls (firstn n rest)) as [-> _].
        rewrite Hprocessed, <- Hnext.
        destruct (i + batchSize <? Z.of_nat (List.length items))%Z; cbn [processed app];
          apply firstn_skipn.
      * rewrite !sleeps_app. destruct (processed_calls (firstn n rest)) as [_ ->].
        rewrite !Nat2Z.inj_add, Hsleeps. cbn [Z.of_nat Z.add].
        destruct (Z.ltb_spec (i + batchSize) (Z.of_nat (List.length items))) as [Hmore|Hlast].
        -- cbn [sleeps]. 
           replace (Z.of_nat (List.length items) - i - 1)%Z
             with (Z.of_nat (List.length items) - (i + batchSize) - 1 + 1 * batchSize)%Z
             by lia.
           rewrite Z.div_add by lia. lia.
        -- cbn [sleeps]. rewrite Z.div_small by lia. reflexivity.
    + exists []. rewrite skipn_all2 by lia. cbn [map fulfilled]. rewrite app_nil_r.
      repeat split.
Qed.

End Batches.

(** X24.  With a batch size of at least 1 and a processor that fulfils
    on every item, [executeBatchWorkflow] ends, calls the processor once on
    every item, in the order of the list, and returns the results in that
    order; it sleeps once between two batches, [(n - 1) / batchSize] times
    for [n > 0] items, and not after the last batch. *)
Theorem executeBatchWorkflow_in_order :
  forall (Item : Type) (processor : Item -> Settled Thrown string)
         (earliest : list Thrown -> Thrown) (items : list Item) (batchSize : Z)
         (fuel : nat),
    (1 <= batchSize)%Z ->
    (forall item, In item items -> exists v, processor item = Fulfilled v) ->
    (List.length items < fuel)%nat ->
    exists results fx,
      executeBatchWorkflow Item processor earliest items batchSize fuel
      = Some (Fulfilled results, fx)
      /\ map (@Fulfilled Thrown string) results = map processor items
      /\ processed fx = items
      /\ Z.of_nat (sleeps fx)
         = (match items with
            | [] => 0
            | _ => (Z.of_nat (List.length items) - 1) / batchSize
            end)%Z.
Proof.
  intros Item processor earliest items batchSize fuel Hsize Hall Hfuel.
  destruct (batchLoop_all Item processor earliest items batchSize Hsize Hall fuel 0 []
              ltac:(lia) ltac:(lia) ltac:(lia)) as (fx & Hloop & Hprocessed & Hsleeps).
  cbn [Z.to_nat skipn app] in *.
  exists (fulfilled (map processor items)), fx.
  split; [exact Hloop|].
  split; [apply (Promise_all_fulfilled Item processor earliest items Hall)|].
  split; [exact Hprocessed|].
  rewrite Hsleeps. destruct items as [|item rest]; [reflexivity|].
  destruct (Z.ltb_spec 0 (Z.of_nat (List.length (item :: rest)))) as [_|Hbad];
    [|cbn [List.length] in Hbad; lia].
  now rewrite Z.sub_0_r.
Qed.

Lemma executeBatchWorkflow_in_order_witness :
  exists results fx,
    executeBatchWorkflow string shout (fun _ => ThrownNullish) ["a"; "b"; "c"; "d"; "e"] 2 6
    = Some (Fulfilled results, fx)
    /\ map (@Fulfilled Thrown string) results = map shout ["a"; "b"; "c"; "d"; "e"]
    /\ processed fx = ["a"; "b"; "c"; "d"; "e"]
    /\ Z.of_nat (sleeps fx)
       = (match ["a"; "b"; "c"; "d"; "e"] with
          | [] => 0
          | _ => (Z.of_nat (List.length ["a"; "b"; "c"; "d"; "e"]) - 1) / 2
          end)%Z.
Proof.
  apply (executeBatchWorkflow_in_order string shout (fun _ => ThrownNullish)
           ["a"; "b"; "c"; "d"; "e"] 2 6).
  - lia.
  - intros item _. eexists. reflexivity.
  - cbn. lia.
Defined.

(** X25.  With a batch size of 0 and at least one item the loop of
    [executeBatchWorkflow] makes no progress: the batch it takes at index
    0 is empty and the index stays 0, so however many iterations it is
    given, it does not return. *)
Theorem executeBatchWorkflow_empty_batches :
  forall (Item : Type) (processor : Item -> Settled Thrown string)
         (earliest : list Thrown -> Thrown) (items : list Item) (fuel : nat),
    items <> [] ->
    executeBatchWorkflow Item processor earliest items 0 fuel = None
    /\ slice 0 (0 + 0) items = [].
Proof.
  intros Item processor earliest items fuel Hne.
  assert (Hslice : slice 0 (0 + 0) items = []).
  { unfold slice. change (0 + 0)%Z with 0%Z. cbn [Z.ltb Z.compare].
    now rewrite Z.min_l by lia. }
  split; [|exact Hslice].
  unfold executeBatchWorkflow. generalize (@nil string) as results.
  induction fuel as [|fuel IH]; intros results; [reflexivity|].
  cbn [batchLoop].
  destruct (Z.ltb_spec 0 (Z.of_nat (List.length items))) as [_|Hbad].
  - rewrite Hslice. cbn [map]. unfold Promise_all. cbn [rejected fulfilled].
    change (0 + 0)%Z with 0%Z. now rewrite IH.
  - destruct items; [contradiction|]. cbn [List.length] in Hbad. lia.
Qed.

Lemma executeBatchWorkflow_empty_batches_witness :
  executeBatchWorkflow string shout (fun _ => ThrownNullish) ["a"] 0 100 = None
  /\ slice 0 (0 + 0) ["a"] = [].
Proof.
  apply (executeBatchWorkflow_empty_batches string shout (fun _ => ThrownNullish) ["a"] 100).
  discriminate.
Defined.

End WorkflowFacts.


(* ================================================================== *)
(** * Further properties of the in-memory vector store *)
(* ================================================================== *)

Module VectorStoreFacts.
Import AIErrors JSNumber MemoryVectorStore VectorStoreDocuments.
Import NumberOrder VectorSamples HybridSamples StoreSamples.
Import JSMapFacts JSMapMoreFacts Binary64Facts CosineFacts HybridFacts.

Lemma div_regular : forall x y, regular_or_nan (div x y).
Proof.
  intros [sx|sx| |sx mx ex] [sy|sy| |sy my ey]; try exact I.
  unfold div, SFdiv.
  destruct (SFdiv_core_binary prec emax (Z.pos mx) ex (Z.pos my) ey) as [[mz ez] lz].
  apply binary_round_aux_regular.
Qed.

Lemma cosineSimilarity_regular : forall a b : list number,
  regular_or_nan (cosineSimilarity a b).
Proof.
  intros a b. unfold cosineSimilarity.
  destruct (negb (List.length a =? List.length b)%nat); [exact I|].
  destruct (accumulate a b num_zero num_zero num_zero) as [[dotProduct normA] normB].
  apply div_regular.
Qed.

Lemma In_get : forall (V : Type) k (v : V) (m : JSMap.t V),
  JSMap.wf m -> In (k, v) m -> JSMap.get k m = Some v.
Proof.
  unfold JSMap.wf. induction m as [|[k0 v0] m IH]; cbn; intros Hwf Hin; [contradiction|].
  inversion Hwf as [|? ? Hnotin Hnd]; subst.
  destruct Hin as [[= -> ->]|Hin].
  - now rewrite String.eqb_refl.
  - destruct (String.eqb_spec k0 k) as [->|Hne]; [|now apply IH].
    exfalso. apply Hnotin. apply (in_map fst) in Hin. exact Hin.
Qed.

Lemma StronglySorted_app_inv : forall (A : Type) (R : A -> A -> Prop) (l1 l2 : list A),
  StronglySorted R (l1 ++ l2) ->
  StronglySorted R l1 /\ forall x y, In x l1 -> In y l2 -> R x y.
Proof.
  intros A R. induction l1 as [|a l1 IH]; intros l2 H; cbn in *.
  - split; [constructor|intros x y []].
  - inversion H as [|? ? Hs Hall]; subst. destruct (IH l2 Hs) as [IH1 IH2].
    rewrite Forall_forall in Hall. split.
    + constructor; [assumption|]. apply Forall_forall. intros x Hx.
      apply Hall, in_or_app. now left.
    + intros x y [<-|Hx] Hy; [apply Hall, in_or_app; now right|now apply IH2].
Qed.

Lemma similaritySearch_scored : forall embedding topK (documents : Documents),
  similaritySearch embedding topK documents
  = slice_to topK (sort byScoreDescending (map (scored embedding) documents)).
Proof.
  intros. unfold similaritySearch. do 2 f_equal. apply map_ext. now intros [k d].
Qed.

(** X28.  When no similarity is NaN, [similaritySearch] returns the
    [topK] best matches: [min(topK, size)] results, one per document and
    each with the cosine similarity of its document as score, sorted by
    descending score, and no document left out scores higher than a
    document returned. *)
Theorem similaritySearch_ranks :
  forall (embedding : list number) (topK : Z) (documents : Documents),
    JSMap.wf documents ->
    (0 <= topK)%Z ->
    (forall k doc, In (k, doc) documents ->
       isNaN (cosineSimilarity embedding (doc_embedding doc)) = false) ->
    let results := similaritySearch embedding topK documents in
    List.length results = Nat.min (Z.to_nat topK) (JSMap.size documents)
    /\ StronglySorted descending results
    /\ NoDup (map id results)
    /\ (forall r, In r results ->
          exists doc, JSMap.get (id r) documents = Some doc
                      /\ r = scored embedding (id r, doc))
    /\ (forall k doc, JSMap.get k documents = Some doc ->
          ~ In k (map id results) ->
          forall r, In r results ->
            number_le (cosineSimilarity embedding (doc_embedding doc)) (score r)).
Proof.
  intros embedding topK documents Hwf HtopK Hnan results.
  pose proof (similaritySearch_ids embedding topK documents Hwf) as Hids.
  unfold results. rewrite similaritySearch_scored in *.
  set (all := map (scored embedding) documents).
  set (sorted := sort byScoreDescending all).
  unfold slice_to in *. destruct (Z.ltb_spec topK 0) as [Hneg|_]; [lia|].
  set (n := Z.to_nat topK) in *.
  assert (Hregular : Forall (fun r => regular (score r)) all).
  { apply Forall_forall. intros r Hr. unfold all in Hr.
    apply in_map_iff in Hr as ([k doc] & <- & Hin). cbn.
    pose proof (cosineSimilarity_regular embedding (doc_embedding doc)) as Hreg.
    specialize (Hnan k doc Hin).
    destruct (cosineSimilarity embedding (doc_embedding doc)); try exact I;
      [discriminate|exact Hreg]. }
  pose proof (sort_descending all Hregular) as Hsorted. fold sorted in Hsorted.
  rewrite <- (firstn_skipn n sorted) in Hsorted.
  apply StronglySorted_app_inv in Hsorted as [Hfirst Hrest].
  assert (Hall : forall r, In r sorted ->
            exists doc, In (id r, doc) documents /\ r = scored embedding (id r, doc)).
  { intros r Hr. unfold sorted in Hr. apply In_sort in Hr. unfold all in Hr.
    apply in_map_iff in Hr as ([k doc] & <- & Hin). now exists doc. }
  split; [|split; [|split; [|split]]].
  - rewrite length_firstn. unfold sorted, all. rewrite length_sort, length_map. reflexivity.
  - exact Hfirst.
  - exact Hids.
  - intros r Hr. apply In_firstn_elim in Hr.
    destruct (Hall r Hr) as (doc & Hin & Heq). exists doc. split; [|assumption].
    now apply In_get.
  - intros k doc Hget Hnotin r Hr.
    assert (Hx : In (scored embedding (k, doc)) sorted).
    { unfold sorted. eapply Permutation_in; [symmetry; apply sort_permutation|].
      unfold all. apply in_map. now apply get_In. }
    rewrite <- (firstn_skipn n sorted) in Hx. apply in_app_or in Hx as [Hx|Hx].
    + exfalso. apply Hnotin. apply (in_map id) in Hx. exact Hx.
    + exact (Hrest r _ Hr Hx).
Qed.

Lemma similaritySearch_ranks_witness :
  let results := similaritySearch [ofZ 1; ofZ 0] 2 store_xyzw in
  List.length results = Nat.min (Z.to_nat 2) (JSMap.size store_xyzw)
  /\ StronglySorted descending results
  /\ NoDup (map id results)
  /\ (forall r, In r results ->
        exists doc, JSMap.get (id r) store_xyzw = Some doc
                    /\ r = scored [ofZ 1; ofZ 0] (id r, doc))
  /\ (forall k doc, JSMap.get k store_xyzw = Some doc ->
        ~ In k (map id results) ->
        forall r, In r results ->
          number_le (cosineSimilarity [ofZ 1; ofZ 0] (doc_embedding doc)) (score r)).
Proof.
  apply (similaritySearch_ranks [ofZ 1; ofZ 0] 2 store_xyzw).
  - repeat constructor; cbn; intuition discriminate.
  - lia.
  - intros k doc Hin. cbn in Hin.
    destruct Hin as [[= <- <-]|[[= <- <-]|[[= <- <-]|[[= <- <-]|[]]]]]; vm_compute; reflexivity.
Defined.

(** *** Adding, reading and deleting documents *)

Lemma get_app : forall (V : Type) k (m1 m2 : JSMap.t V),
  JSMap.get k (m1 ++ m2)
  = match JSMap.get k m1 with Some v => Some v | None => JSMap.get k m2 end.
Proof.
  intros V k. induction m1 as [|[k0 v0] m1 IH]; intros m2; cbn; [reflexivity|].
  destruct (String.eqb k0 k); [reflexivity|apply IH].
Qed.

Lemma size_delete : forall (V : Type) k (m : JSMap.t V),
  JSMap.get k m <> None -> JSMap.size (JSMap.delete k m) = (JSMap.size m - 1)%nat.
Proof.
  unfold JSMap.size. induction m as [|[k0 v0] m IH]; cbn; intro H; [contradiction|].
  destruct (String.eqb k0 k); cbn; [lia|].
  rewrite IH by assumption. destruct m; cbn in *; [contradiction|lia].
Qed.

Section Adding.
Variable generated : nat -> string.

Lemma addLoop_appends : forall (documents : list ICategorizedContext) i (store : Documents),
  NoDup (map generated (seq i (List.length documents))) ->
  (forall j, (i <= j < i + List.length documents)%nat ->
     JSMap.get (generated j) store = None) ->
  addLoop generated i documents store
  = (map generated (seq i (List.length documents)),
     store ++ List.combine (map generated (seq i (List.length documents))) documents).
Proof.
  induction documents as [|doc rest IH]; intros i store Hnd Hfresh; cbn [addLoop].
  - cbn. now rewrite app_nil_r.
  - cbn [List.length seq map List.combine] in *. inversion Hnd as [|? ? Hnotin Hnd']; subst.
    rewrite (set_absent _ _ _ _ (Hfresh i ltac:(lia))).
    rewrite IH; [|assumption|].
    + now rewrite <- app_assoc.
    + intros j Hj. rewrite get_app, (Hfresh j ltac:(lia)). cbn.
      destruct (String.eqb_spec (generated i) (generated j)) as [Heq|_]; [|reflexivity].
      exfalso. apply Hnotin. rewrite Heq. apply in_map, in_seq. lia.
Qed.

Lemma get_combine : forall (documents : list ICategorizedContext) s i doc,
  NoDup (map generated (seq s (List.length documents))) ->
  nth_error documents i = Some doc ->
  JSMap.get (generated (s + i))
    (List.combine (map generated (seq s (List.length documents))) documents) = Some doc.
Proof.
  induction documents as [|d rest IH]; intros s i doc Hnd Hnth; [now destruct i|].
  cbn [List.length seq map List.combine] in *. inversion Hnd as [|? ? Hnotin Hnd']; subst.
  destruct i as [|i]; cbn [nth_error] in Hnth; cbn [JSMap.get].
  - injection Hnth as ->. now rewrite Nat.add_0_r, String.eqb_refl.
  - destruct (String.eqb_spec (generated s) (generated (s + S i))) as [Heq|_].
    + exfalso. apply Hnotin. rewrite Heq. apply in_map, in_seq.
      assert (i < List.length rest)%nat by (apply nth_error_Some; now rewrite Hnth).
      lia.
    + replace (s + S i)%nat with (S s + i)%nat by lia. now apply IH.
Qed.

Lemma keys_combine : forall (ids : list string) (documents : list ICategorizedContext),
  List.length ids = List.length documents ->
  JSMap.keys (List.combine ids documents) = ids.
Proof.
  unfold JSMap.keys. induction ids as [|k ids IH]; intros [|d documents] H; cbn in *;
    try discriminate; [reflexivity|]. f_equal. apply IH. lia.
Qed.

End Adding.

(** X29.  When the ids [addDocuments] makes up are new and distinct, it
    appends the documents to the store in order and returns their ids:
    every document is read back by [getDocument] under its id, the other
    entries are untouched and the count grows by the number of documents.
    After [deleteDocument] of such an id, [getDocument] rejects with the
    not-found error and the count is one less. *)
Theorem documents_round_trip :
  forall (generated : nat -> string) (documents : list ICategorizedContext)
         (store : Documents),
    JSMap.wf store ->
    NoDup (map generated (seq 0 (List.length documents))) ->
    (forall i, (i < List.length documents)%nat ->
       JSMap.get (generated i) store = None) ->
    let '(ids, store') := addDocuments generated documents store in
    ids = map generated (seq 0 (List.length documents))
    /\ JSMap.keys store' = JSMap.keys store ++ ids
    /\ JSMap.wf store'
    /\ getDocumentCount store' = (getDocumentCount store + List.length documents)%nat
    /\ (forall i doc, nth_error documents i = Some doc ->
          getDocument (generated i) store' = Fulfilled doc)
    /\ (forall k, ~ In k ids -> JSMap.get k store' = JSMap.get k store)
    /\ (forall i, (i < List.length documents)%nat ->
          let store'' := deleteDocument (generated i) store' in
          getDocument (generated i) store'' = Rejected (notFound (generated i))
          /\ getDocumentCount store'' = (getDocumentCount store' - 1)%nat).
Proof.
  intros generated documents store Hwf Hnd Hfresh.
  unfold addDocuments.
  rewrite (addLoop_appends generated documents 0 store Hnd)
    by (intros j Hj; apply Hfresh; lia).
  set (ids := map generated (seq 0 (List.length documents))).
  assert (Hlen : List.length ids = List.length documents)
    by (unfold ids; now rewrite length_map, length_seq).
  assert (Hkeys : JSMap.keys (store ++ List.combine ids documents) = JSMap.keys store ++ ids).
  { unfold JSMap.keys. rewrite map_app. f_equal. now apply keys_combine. }
  assert (Hwf' : JSMap.wf (store ++ List.combine ids documents)).
  { unfold JSMap.wf. rewrite Hkeys. apply NoDup_app; [exact Hwf|exact Hnd|].
    intros k Hk Hid. unfold ids in Hid. apply in_map_iff in Hid as (j & <- & Hj).
    apply in_seq in Hj. apply get_some_keys in Hk. apply Hk, Hfresh. lia. }
  assert (Hread : forall i doc, nth_error documents i = Some doc ->
            JSMap.get (generated i) (store ++ List.combine ids documents) = Some doc).
  { intros i doc Hnth. rewrite get_app.
    rewrite (Hfresh i) by (apply nth_error_Some; now rewrite Hnth).
    exact (get_combine generated documents 0 i doc Hnd Hnth). }
  split; [reflexivity|]. split; [exact Hkeys|]. split; [exact Hwf'|].
  split; [unfold getDocumentCount, JSMap.size;
          now rewrite length_app, length_combine, Hlen, Nat.min_id|].
  split; [intros i doc Hnth; unfold getDocument; now rewrite (Hread i doc Hnth)|].
  split.
  - intros k Hk. rewrite get_app.
    destruct (JSMap.get k store) as [v|]; [reflexivity|].
    apply get_none_keys. now rewrite keys_combine.
  - intros i Hi. cbv zeta. unfold deleteDocument, getDocument, getDocumentCount.
    rewrite get_delete_same by exact Hwf'. split; [reflexivity|].
    apply size_delete.
    destruct (nth_error documents i) as [doc|] eqn:Hnth.
    + now rewrite (Hread i doc Hnth).
    + apply nth_error_None in Hnth. lia.
Qed.

Lemma documents_round_trip_witness :
  let '(ids, store') := addDocuments numbered [doc_x; doc_y] store_xyzw in
  ids = map numbered (seq 0 (List.length [doc_x; doc_y]))
  /\ JSMap.keys store' = JSMap.keys store_xyzw ++ ids
  /\ JSMap.wf store'
  /\ getDocumentCount store'
     = (getDocumentCount store_xyzw + List.length [doc_x; doc_y])%nat
  /\ (forall i doc, nth_error [doc_x; doc_y] i = Some doc ->
        getDocument (numbered i) store' = Fulfilled doc)
  /\ (forall k, ~ In k ids -> JSMap.get k store' = JSMap.get k store_xyzw)
  /\ (forall i, (i < List.length [doc_x; doc_y])%nat ->
        let store'' := deleteDocument (numbered i) store' in
        getDocument (numbered i) store'' = Rejected (notFound (numbered i))
        /\ getDocumentCount store'' = (getDocumentCount store' - 1)%nat).
Proof.
  apply (documents_round_trip numbered [doc_x; doc_y] store_xyzw).
  - repeat constructor; cbn; intuition discriminate.
  - repeat constructor; cbn; intuition discriminate.
  - intros i Hi. cbn in Hi. destruct i as [|[|i]]; [reflexivity|reflexivity|lia].
Defined.

(** *** Recommendations *)

Lemma recommendLoop_first : forall documentId doc count entries recommendations,
  (Z.of_nat (List.length recommendations) < Z.max 1 count)%Z ->
  recommendLoop documentId doc count entries recommendations
  = firstn (Z.to_nat (Z.max 1 count))
      (recommendations ++ candidates documentId doc entries).
Proof.
  intros documentId doc count. unfold candidates.
  induction entries as [|[k candidate] rest IH]; intros recommendations Hlen;
    cbn [recommendLoop filter map fst snd].
  - rewrite app_nil_r, firstn_all2; [reflexivity|lia].
  - destruct (negb (String.eqb k documentId)
              && String.eqb (doc_category candidate) (doc_category doc)).
    + cbn [map snd]. rewrite length_app. cbn [List.length].
      destruct (Z.leb_spec count (Z.of_nat (List.length recommendations + 1))) as [Hle|Hgt].
      * change (recommendations ++ candidate :: map snd _)
          with (recommendations ++ [candidate] ++ map snd
                  (filter (fun entry => negb (String.eqb (fst entry) documentId)
                             && String.eqb (doc_category (snd entry)) (doc_category doc))
                     rest)).
        rewrite app_assoc, firstn_app.
        replace (Z.to_nat (Z.max 1 count) - List.length (recommendations ++ [candidate]))%nat
          with 0%nat by (rewrite length_app; cbn [List.length]; lia).
        rewrite firstn_all2 by (rewrite length_app; cbn [List.length]; lia).
        cbn [firstn]. now rewrite app_nil_r.
      * rewrite IH by (rewrite length_app; cbn [List.length]; lia).
        now rewrite <- app_assoc.
    + now apply IH.
Qed.

(** X30.  For a stored document, [getRecommendations] returns the first
    documents of the same category stored under another id, in the order
    of insertion: [count] of them when that many exist, and one (not none)
    when [count] is 0 or negative, because the limit is only looked at
    after a document has been taken.  For an unknown id it rejects with
    the not-found error. *)
Theorem getRecommendations_first_matches :
  forall (documentId : string) (count : Z) (store : Documents) (doc : ICategorizedContext),
    JSMap.get documentId store = Some doc ->
    exists recommendations,
      getRecommendations documentId count store = Fulfilled recommendations
      /\ recommendations
         = firstn (Z.to_nat (Z.max 1 count)) (candidates documentId doc store)
      /\ (Z.of_nat (List.length recommendations) <= Z.max 1 count)%Z
      /\ (forall r, In r recommendations ->
            doc_category r = doc_category doc
            /\ exists k, k <> documentId /\ In (k, r) store).
Proof.
  intros documentId count store doc Hget.
  unfold getRecommendations. rewrite Hget. eexists. split; [reflexivity|].
  rewrite recommendLoop_first by (cbn; lia). cbn [app].
  split; [reflexivity|]. split; [rewrite length_firstn; lia|].
  intros r Hr. apply In_firstn_elim in Hr. unfold candidates in Hr.
  apply in_map_iff in Hr as ([k c] & <- & Hin). apply filter_In in Hin as [Hin Htest].
  cbn [fst snd] in *. apply andb_prop in Htest as [Hid Hcat].
  split; [now apply String.eqb_eq in Hcat|].
  exists k. split; [|assumption].
  intros ->. rewrite String.eqb_refl in Hid. discriminate.
Qed.

Lemma getRecommendations_first_matches_witness :
  exists recommendations,
    getRecommendations "x" 0 store_xyzw = Fulfilled recommendations
    /\ recommendations = firstn (Z.to_nat (Z.max 1 0)) (candidates "x" doc_x store_xyzw)
    /\ (Z.of_nat (List.length recommendations) <= Z.max 1 0)%Z
    /\ (forall r, In r recommendations ->
          doc_category r = doc_category doc_x
          /\ exists k, k <> "x" /\ In (k, r) store_xyzw).
Proof.
  apply (getRecommendations_first_matches "x" 0 store_xyzw doc_x). reflexivity.
Defined.

End VectorStoreFacts.
